(** * mev_optimized.js: a shallow embedding of the arbitrage cycle

    The development follows [mev_optimized.js] function by function.
    Network services (pricing, instruction building, RPC node, messaging
    endpoint) are an environment [Env] of oracles that answer from the
    history of calls; the functions of [@solana/web3.js] the code calls are
    a record [Web3].  Asynchronous code is sequential here: every [await]
    is a bind of the monad [M], which reads the history and writes the
    events of the call.  JavaScript numbers are binary64 floats, the
    [float] of [PrimFloat].  The script [wrapper.js] is the module
    [Wrapper]. *)

From Stdlib Require Import ZArith Lia Strings.Byte PrimFloat FloatOps SpecFloat.
From stdpp Require Import base gmap strings list sorting.

Local Open Scope string_scope.
Local Open Scope Z_scope.
Local Open Scope list_scope.

(** Decimal literals such as [0.3] stand for the nearest float, as in
    JavaScript. *)
Set Warnings "-inexact-float".

(** ** Thrown values

    A call returns a value or throws one.  What the functions of
    [@solana/web3.js] throw, and what the program itself throws, is an
    [Error] object ([new Error(...)], a [TypeError], a [SyntaxError]), known
    here by its [message].  What a promise of the network is rejected with
    is any value [Thrown]: an object with a [message], [null] or
    [undefined].  (A thrown value of another kind has no [message]: it
    reads as an object whose message is that of [undefined].) *)

Inductive Result (E A : Type) : Type :=
| Ok (a : A)
| Throw (error : E).
Arguments Ok {E A} a.
Arguments Throw {E A} error.

Definition Error := string.

(** What a synchronous call of the library yields. *)
Abbreviation Res := (Result Error).

Inductive Thrown :=
| ErrorObject (error : Error)
| Null
| Undefined.

(** What an awaited promise yields. *)
Abbreviation Await := (Result Thrown).

(** [error.message], which every [catch] of the program evaluates first:
    on [null] and [undefined] the property access throws a [TypeError]. *)
Definition message (error : Thrown) : Res string :=
  match error with
  | ErrorObject m => Ok m
  | Null => Throw "Cannot read properties of null (reading 'message')"
  | Undefined => Throw "Cannot read properties of undefined (reading 'message')"
  end.

(** ** Configuration (lines 21-43) *)

Record Config := {
  PRIVATE_KEY_BASE58 : string;
  INPUT_USDC : Z;
  MIN_PROFIT_USDC : Z;
}.

(** The values the source ships with. *)
Definition source_config : Config :=
  {| PRIVATE_KEY_BASE58 := "PRIVATE_KEY_BASE58";
     INPUT_USDC := 10000000;
     MIN_PROFIT_USDC := 1200 |}.

Definition USDC_MINT := "EPjFWdd5AufqSSqeM2qN1xzybapC8G4wEGGkZwyTDt1v".
Definition WSOL_MINT := "So11111111111111111111111111111111111111112".
Definition MAX_TX_SIZE : nat := 1232.
Definition MAX_RETRIES : nat := 3.
Definition maxAlts : nat := 2.
Definition maxConsecutiveErrors : Z := 5.

(** ** Data of the services *)

(** A truthy [outAmount] of a quote.  [AInt z] is a value that [BigInt]
    converts to [z] (the decimal string the pricing service sends, or a
    number that is an integer); [AOther s] is any other truthy value, on
    which [BigInt] throws. *)
Inductive Amount :=
| AInt (z : Z)
| AOther (s : string).

(** A response of the pricing service that carries a truthy [outAmount].
    A response without one is [None] where responses are read. *)
Record QuoteJson := {
  outAmount : Amount;
  routePlan : string;
}.

Record AccountMeta := {
  pubkey : string;
  isSigner : bool;
  isWritable : bool;
}.

(** [si_data] and [tbl_data] are the bytes [Buffer.from(_, 'base64')]
    yields. *)
Record SwapInstructionJson := {
  si_programId : string;
  si_accounts : list AccountMeta;
  si_data : list byte;
}.

Record AltJson := {
  accountKey : string;
  tbl_data : list byte;
}.

(** [addressLookupTableAccounts || []]: an absent list is the empty one. *)
Record SwapInstructionsJson := {
  swapInstruction : option SwapInstructionJson;
  addressLookupTableAccounts : list AltJson;
}.

(** ** Data of @solana/web3.js *)

Record TransactionInstruction := {
  ix_programId : string;
  ix_keys : list AccountMeta;
  ix_data : list byte;
}.

Record AddressLookupTableAccount := {
  alt_key : string;
  alt_state : list byte;
}.

Record MessageV0 := {
  mv_payerKey : string;
  mv_recentBlockhash : string;
  mv_body : list byte;
}.

Record VersionedTransaction := {
  tx_message : MessageV0;
  tx_signatures : list string;
}.

Record Keypair := {
  publicKey : string;
  secretKey : list byte;
}.

(** The library functions the program calls.  Each may throw. *)
Record Web3 := {
  wallet : Keypair;
  PublicKey_new : string -> Res string;
  ALT_deserialize : string -> list byte -> Res AddressLookupTableAccount;
  ALT_serialize : AddressLookupTableAccount -> Res (list byte);
  compileToV0Message :
    string -> string -> list TransactionInstruction ->
    list AddressLookupTableAccount -> Res MessageV0;
  tx_serialize : VersionedTransaction -> Res (list byte);
  tx_sign : VersionedTransaction -> list Keypair -> Res VersionedTransaction;
}.

Section Pure.
Context (lib : Web3).

(** ** getSwapPayload, lines 96-130: the instruction and the tables *)

Fixpoint map_keys (accts : list AccountMeta) : Res (list AccountMeta) :=
  match accts with
  | [] => Ok []
  | a :: rest =>
      match PublicKey_new lib (pubkey a) with
      | Throw e => Throw e
      | Ok pk =>
          match map_keys rest with
          | Throw e => Throw e
          | Ok ks =>
              Ok ({| pubkey := pk; isSigner := isSigner a;
                     isWritable := isWritable a |} :: ks)
          end
      end
  end.

Definition buildInstruction (si : SwapInstructionJson) : Res TransactionInstruction :=
  match PublicKey_new lib (si_programId si) with
  | Throw e => Throw e
  | Ok pid =>
      match map_keys (si_accounts si) with
      | Throw e => Throw e
      | Ok ks => Ok {| ix_programId := pid; ix_keys := ks; ix_data := si_data si |}
      end
  end.

(** The two warnings of the table loop, lines 116 and 128. *)
Inductive AltWarning :=
| AltTooLarge (accountKey : string) (size : nat)
| AltError (accountKey : string) (message : Error).

(** The body of the [try] of lines 113-126 for one table: the table to
    push, or the warning with which the table is skipped (the [continue]
    of line 117, or the [catch] of line 127). *)
Definition decodeTable (tbl : AltJson) : AltWarning + AddressLookupTableAccount :=
  let raw := tbl_data tbl in
  if (1000 <? length raw)%nat then inl (AltTooLarge (accountKey tbl) (length raw))
  else
    match PublicKey_new lib (accountKey tbl) with
    | Throw e => inl (AltError (accountKey tbl) e)
    | Ok pk =>
        match ALT_deserialize lib pk raw with
        | Throw e => inl (AltError (accountKey tbl) e)
        | Ok alt => inr alt
        end
    end.

(** The [for ... of] loop of lines 112-130 over the tables it is given,
    with [lookupTables] the array filled so far: the array at the end of
    the loop and the warnings written on the way. *)
Fixpoint collectLookupTables (tbls : list AltJson)
    (lookupTables : list AddressLookupTableAccount)
    : list AddressLookupTableAccount * list AltWarning :=
  match tbls with
  | [] => (lookupTables, [])
  | tbl :: rest =>
      match decodeTable tbl with
      | inl warning =>
          let (tables, warnings) := collectLookupTables rest lookupTables in
          (tables, warning :: warnings)
      | inr alt =>
          let lookupTables' := lookupTables ++ [alt] in
          if (maxAlts <=? length lookupTables')%nat then (lookupTables', [])
          else collectLookupTables rest lookupTables'
      end
  end.

(** Lines 109-130: the loop runs over [.slice(0, maxAlts)]. *)
Definition selectLookupTables (res : SwapInstructionsJson)
    : list AddressLookupTableAccount * list AltWarning :=
  collectLookupTables (take maxAlts (addressLookupTableAccounts res)) [].

(** ** checkAndTrade, lines 332-355: the smallest tables *)

Record AltSize := {
  as_alt : AddressLookupTableAccount;
  as_size : nat;
  as_key : string;
}.

(** Lines 339-351.  The key enters [seen] before the table is serialized.
    The arrays hold the tables [getSwapPayload] deserialized, never a falsy
    value, so the guard of line 340 is never taken; [tbl.key.toBase58()]
    is [alt_key]. *)
Fixpoint collectAltSizes (allAlts : list AddressLookupTableAccount)
    (seen : gset string) (altSizes : list AltSize) : list AltSize :=
  match allAlts with
  | [] => altSizes
  | tbl :: rest =>
      let key := alt_key tbl in
      if decide (key ∈ seen) then collectAltSizes rest seen altSizes
      else
        let seen' := seen ∪ {[ key ]} in
        match ALT_serialize lib tbl with
        | Ok serialized =>
            collectAltSizes rest seen'
              (altSizes ++ [{| as_alt := tbl; as_size := length serialized; as_key := key |}])
        | Throw _ => collectAltSizes rest seen' altSizes
        end
  end.

(** [Array.prototype.sort] with the comparator [a.size - b.size]: the sort
    is stable, so an element goes behind the elements of its own size. *)
Fixpoint insertBySize (x : AltSize) (l : list AltSize) : list AltSize :=
  match l with
  | [] => [x]
  | y :: l' =>
      if (as_size x <? as_size y)%nat then x :: y :: l'
      else y :: insertBySize x l'
  end.

Fixpoint sortBySize_acc (l sorted : list AltSize) : list AltSize :=
  match l with
  | [] => sorted
  | x :: l' => sortBySize_acc l' (insertBySize x sorted)
  end.

Definition sortBySize (l : list AltSize) : list AltSize := sortBySize_acc l [].

Definition optimizeAlts (alts1 alts2 : list AddressLookupTableAccount)
    : list AddressLookupTableAccount :=
  let allAlts := alts1 ++ alts2 in
  let altSizes := collectAltSizes allAlts ∅ [] in
  as_alt <$> take 2 (sortBySize altSizes).

(** ** validateAndOptimizeTransaction, lines 164-180 *)

Record Validation := {
  valid : bool;
  v_size : nat;
  v_error : option string;
}.

Definition validateAndOptimizeTransaction (transaction : VersionedTransaction) : Validation :=
  match tx_serialize lib transaction with
  | Ok serialized =>
      let size := length serialized in
      if (MAX_TX_SIZE <? size)%nat
      then {| valid := false; v_size := size; v_error := Some "TOO_LARGE" |}
      else {| valid := true; v_size := size; v_error := None |}
  | Throw e => {| valid := false; v_size := 0; v_error := Some e |}
  end.

(** ** createOptimizedTransaction, lines 190-235 *)

(** [new VersionedTransaction(msgV0)]. *)
Definition newVersionedTransaction (msgV0 : MessageV0) : VersionedTransaction :=
  {| tx_message := msgV0; tx_signatures := [] |}.

(** One strategy (lines 194-209, and again 213-228): compile with the
    given tables, wrap, validate.  [None] when the compilation throws or
    the result is not valid. *)
Definition tryCompile (instructions : list TransactionInstruction)
    (tables : list AddressLookupTableAccount) (blockhash : string)
    : option VersionedTransaction :=
  match compileToV0Message lib (publicKey (wallet lib)) blockhash instructions tables with
  | Throw _ => None
  | Ok msgV0 =>
      let tx := newVersionedTransaction msgV0 in
      if valid (validateAndOptimizeTransaction tx) then Some tx else None
  end.

(** [None] is [null].  Each strategy catches what it throws, so the outer
    [catch] of line 231 is never entered. *)
Definition createOptimizedTransaction (instructions : list TransactionInstruction)
    (lookupTables : list AddressLookupTableAccount) (blockhash : string)
    : option VersionedTransaction :=
  let strategy1 :=
    if (0 <? length lookupTables)%nat
    then tryCompile instructions lookupTables blockhash
    else None in
  match strategy1 with
  | Some tx => Some tx
  | None => tryCompile instructions [] blockhash
  end.

End Pure.

(** ** Events and the environment *)

(** The values of the fields of the notified object. *)
Inductive JsVal :=
| JNum (x : float)
| JStr (s : string).

(** An object literal: its fields in the order written. *)
Definition JsObject := list (string * JsVal).

(** The console lines of [checkAndTrade] and of the main loop, by source
    line, with the values they print before [toFixed].  The diagnostic
    lines inside the helper functions are left out ([console.*] neither
    throws nor is read back), the two warnings of the table loop apart:
    they tell which tables the loop examined. *)
Inductive LogMsg :=
| LogAltWarning (warning : AltWarning)
| LogChecking
| LogNoOpportunity (net : float)
| LogProfitDetected (profit : float)
| LogOptimizedAlts (kept total : nat)
| LogCreating (n : nat)
| LogCouldNotCreate
| LogConfirmed
| LogErrorSending (message : Error)
| LogErrorCheckAndTrade (message : Error)
| LogErrorMainLoop (consecutiveErrors : Z) (message : Error)
| LogTooManyErrors.

(** One event per call that leaves the process, with the answer it got.
    [signature] of [EConfirm] is [None] for [undefined]. *)
Inductive Event :=
| EQuote (inputMint outputMint : string) (amount : Amount) (r : Await (option QuoteJson))
| ESwapInstructions (quote : QuoteJson) (userPublicKey : string)
    (r : Await SwapInstructionsJson)
| ENotify (opportunity : JsObject)
| EGetLatestBlockhash (r : Await (string * Z))
| ESimulate (tx : VersionedTransaction) (r : Await (option string))
| ESend (tx : VersionedTransaction) (r : Await string)
| EConfirm (signature : option string) (blockhash : string)
    (lastValidBlockHeight : Z) (r : Await unit)
| ESleep (ms : Z)
| ELog (m : LogMsg).

(** The services answer from the history of events so far.  For the
    pricing service [Throw] is a rejection (transport or parse failure)
    and [Ok None] a body without a truthy [outAmount]; for simulation the
    answer is [simulation.value.err]. *)
Record Env := {
  env_quote : list Event -> string -> string -> Amount -> Await (option QuoteJson);
  env_swapInstructions : list Event -> QuoteJson -> string -> Await SwapInstructionsJson;
  env_getLatestBlockhash : list Event -> Await (string * Z);
  env_simulateTransaction : list Event -> VersionedTransaction -> Await (option string);
  env_sendTransaction : list Event -> VersionedTransaction -> Await string;
  env_confirmTransaction : list Event -> option string -> string -> Z -> Await unit;
}.

(** ** The monad of asynchronous code

    A computation reads the history and yields its result and the events
    it adds. *)

Definition M (A : Type) : Type := list Event -> Await A * list Event.

#[export] Instance M_ret : MRet M := λ A a _, (Ok a, []).

#[export] Instance M_bind : MBind M := λ A B f m h,
  match m h with
  | (Ok a, es) => let (r, es') := f a (h ++ es) in (r, es ++ es')
  | (Throw e, es) => (Throw e, es)
  end.

Definition throw {A} (e : Thrown) : M A := λ _, (Throw e, []).

Definition try_catch {A} (m : M A) (handler : Thrown -> M A) : M A := λ h,
  match m h with
  | (Ok a, es) => (Ok a, es)
  | (Throw e, es) => let (r, es') := handler e (h ++ es) in (r, es ++ es')
  end.

Definition emit (e : Event) : M unit := λ _, (Ok tt, [e]).

Definition call {A} (oracle : list Event -> Await A) (ev : Await A -> Event) : M A :=
  λ h, let r := oracle h in (r, [ev r]).

(** A call of the library: what it throws is an [Error] object. *)
Definition thrown {A} (r : Res A) : Await A :=
  match r with
  | Ok a => Ok a
  | Throw e => Throw (ErrorObject e)
  end.

Definition lift {A} (r : Res A) : M A := λ _, (thrown r, []).

(** [error.message] in a [catch]. *)
Definition read_message (error : Thrown) : M string := lift (message error).

Definition sleep (ms : Z) : M unit := emit (ESleep ms).
Definition console (m : LogMsg) : M unit := emit (ELog m).

(** How one turn of a retry loop ends: with the function's [return], or by
    going on to the next turn. *)
Inductive Completion (A : Type) : Type :=
| Return (a : A)
| Continue.
Arguments Return {A} a.
Arguments Continue {A}.

Section Effects.
Context (lib : Web3) (env : Env).

(** ** getQuote, lines 56-69

    [fuel] is the number of turns left, [retries - i]; a loop that ends
    without [return] yields [undefined], here [None]. *)
Fixpoint getQuote_loop (inputMint outputMint : string) (amount : Amount)
    (retries i fuel : nat) : M (option QuoteJson) :=
  match fuel with
  | O => mret None
  | S fuel' =>
      c ← try_catch
            (res ← call (λ h, env_quote env h inputMint outputMint amount)
                        (EQuote inputMint outputMint amount);
             match res with
             | None => throw (ErrorObject "Failed to get quote")
             | Some res => mret (Return res)
             end)
            (λ error,
               read_message error;;
               if (i =? retries - 1)%nat then throw error
               else sleep (1000 * (Z.of_nat i + 1));; mret Continue);
      match c with
      | Return res => mret (Some res)
      | Continue => getQuote_loop inputMint outputMint amount retries (S i) fuel'
      end
  end.

Definition getQuote (inputMint outputMint : string) (amount : Amount) (retries : nat)
    : M (option QuoteJson) :=
  getQuote_loop inputMint outputMint amount retries 0 retries.

(** ** getSwapPayload, lines 78-139 *)

Record SwapPayload := {
  instructions : list TransactionInstruction;
  lookupTables : list AddressLookupTableAccount;
}.

(** The warnings of the table loop, on the console. *)
Definition warn (warnings : list AltWarning) : M unit :=
  λ _, (Ok (), (ELog ∘ LogAltWarning) <$> warnings).

Fixpoint getSwapPayload_loop (quote : QuoteJson) (retries i fuel : nat)
    : M (option SwapPayload) :=
  match fuel with
  | O => mret None
  | S fuel' =>
      c ← try_catch
            (res ← call (λ h, env_swapInstructions env h quote (publicKey (wallet lib)))
                        (ESwapInstructions quote (publicKey (wallet lib)));
             match swapInstruction res with
             | None => throw (ErrorObject "Failed to get swap instructions")
             | Some si =>
                 ix ← lift (buildInstruction lib si);
                 let (lookupTables, warnings) := selectLookupTables lib res in
                 warn warnings;;
                 mret (Return {| instructions := [ix]; lookupTables := lookupTables |})
             end)
            (λ error,
               read_message error;;
               if (i =? retries - 1)%nat then throw error
               else sleep (1000 * (Z.of_nat i + 1));; mret Continue);
      match c with
      | Return payload => mret (Some payload)
      | Continue => getSwapPayload_loop quote retries (S i) fuel'
      end
  end.

Definition getSwapPayload (quote : QuoteJson) (retries : nat) : M (option SwapPayload) :=
  getSwapPayload_loop quote retries 0 retries.

(** ** BotOpportunity, lines 151-155: the rejection of [fetch] is swallowed *)
Definition BotOpportunity (opportunity : JsObject) : M unit :=
  emit (ENotify opportunity).

(** ** simulateTransaction, lines 243-258 *)
Definition simulateTransaction (transaction : VersionedTransaction) : M bool :=
  try_catch
    (err ← call (λ h, env_simulateTransaction env h transaction) (ESimulate transaction);
     match err with
     | Some _ => mret false
     | None => mret true
     end)
    (λ error, read_message error;; mret false).

(** ** sendTransactionWithSimulation, lines 268-292 *)
Fixpoint sendTransactionWithSimulation_loop (transaction : VersionedTransaction)
    (retries i fuel : nat) : M (option string) :=
  match fuel with
  | O => mret None
  | S fuel' =>
      c ← try_catch
            (simulationOk ← simulateTransaction transaction;
             if negb simulationOk then
               if (i =? retries - 1)%nat
               then throw (ErrorObject "Simulation failed on all attempts")
               else sleep (1000 * (Z.of_nat i + 1));; mret Continue
             else
               txid ← call (λ h, env_sendTransaction env h transaction) (ESend transaction);
               mret (Return txid))
            (λ error,
               read_message error;;
               if (i =? retries - 1)%nat then throw error
               else sleep (1000 * (Z.of_nat i + 1));; mret Continue);
      match c with
      | Return txid => mret (Some txid)
      | Continue => sendTransactionWithSimulation_loop transaction retries (S i) fuel'
      end
  end.

Definition sendTransactionWithSimulation (transaction : VersionedTransaction)
    (retries : nat) : M (option string) :=
  sendTransactionWithSimulation_loop transaction retries 0 retries.

End Effects.

Section Cycle.
Context (cfg : Config) (lib : Web3) (env : Env).

(** [BigInt(v)] on a truthy [outAmount]. *)
Definition BigInt (a : Amount) : Res Z :=
  match a with
  | AInt z => Ok z
  | AOther _ => Throw "Cannot convert value to a BigInt"
  end.

(** The number a value that [BigInt] converts to [z] is read as in
    arithmetic: the binary64 float nearest to [z], ties to even. *)
Definition Number (z : Z) : float := SF2Prim (binary_normalize prec emax z 0 false).

(** [Number(quoteSell.outAmount - INPUT_USDC) / 1e6], lines 312 and 317:
    the subtraction and the division are those of binary64. *)
Definition net (sellOut : Z) : float :=
  ((Number sellOut - Number (INPUT_USDC cfg)) / 1e6)%float.

(** Reading a field of a value that may be [undefined]. *)
Definition defined {A} (v : option A) : M A :=
  match v with
  | Some a => mret a
  | None => throw (ErrorObject "Cannot read properties of undefined")
  end.

(** Lines 320-325. *)
Definition opportunity (profit : float) : JsObject :=
  [ ("profit", JNum profit);
    ("inputAmount", JNum (Number (INPUT_USDC cfg) / 1e6)%float);
    ("fees", JNum 0.000005%float);
    ("privateKey", JStr (PRIVATE_KEY_BASE58 cfg)) ].

(** Lines 373-389: sign, submit, confirm. *)
Definition signAndSend (atomicTx : VersionedTransaction) (blockhash : string)
    (lastValidBlockHeight : Z) : M bool :=
  atomicTx ← lift (tx_sign lib atomicTx [wallet lib]);
  try_catch
    (txid ← sendTransactionWithSimulation env atomicTx MAX_RETRIES;
     call (λ h, env_confirmTransaction env h txid blockhash lastValidBlockHeight)
          (EConfirm txid blockhash lastValidBlockHeight);;
     console LogConfirmed;;
     mret true)
    (λ error, m ← read_message error; console (LogErrorSending m);; mret false).

(** Lines 328-389: what follows the notification. *)
Definition buildAndSubmit (quoteBuy quoteSell : QuoteJson) : M bool :=
  p1 ← getSwapPayload lib env quoteBuy MAX_RETRIES;
  p1 ← defined p1;
  p2 ← getSwapPayload lib env quoteSell MAX_RETRIES;
  p2 ← defined p2;
  let allAlts := lookupTables p1 ++ lookupTables p2 in
  let optimizedAlts := optimizeAlts lib (lookupTables p1) (lookupTables p2) in
  console (LogOptimizedAlts (length optimizedAlts) (length allAlts));;
  bh ← call (env_getLatestBlockhash env) EGetLatestBlockhash;
  let allInstructions := instructions p1 ++ instructions p2 in
  console (LogCreating (length allInstructions));;
  match createOptimizedTransaction lib allInstructions optimizedAlts bh.1 with
  | None => console LogCouldNotCreate;; mret false
  | Some atomicTx => signAndSend atomicTx bh.1 bh.2
  end.

(** ** checkAndTrade, lines 301-395 *)
Definition checkAndTrade : M bool :=
  try_catch
    (console LogChecking;;
     quoteBuy ← getQuote env USDC_MINT WSOL_MINT (AInt (INPUT_USDC cfg)) MAX_RETRIES;
     quoteBuy ← defined quoteBuy;
     quoteSell ← getQuote env WSOL_MINT USDC_MINT (outAmount quoteBuy) MAX_RETRIES;
     let required := INPUT_USDC cfg + MIN_PROFIT_USDC cfg in
     quoteSell ← defined quoteSell;
     sellOut ← lift (BigInt (outAmount quoteSell));
     if sellOut <? required then
       console (LogNoOpportunity (net sellOut));;
       mret false
     else
       let profit := net sellOut in
       console (LogProfitDetected profit);;
       BotOpportunity (opportunity profit);;
       buildAndSubmit quoteBuy quoteSell)
    (λ err, m ← read_message err; console (LogErrorCheckAndTrade m);; mret false).

(** ** The main loop, lines 414-437

    One turn of [while (true)] around a cycle function, from the counter
    before to the counter after.  A turn that throws ends the loop: the
    promise of the function of line 403 is rejected. *)
Definition loop_turn (cycle : M bool) (consecutiveErrors : Z) : M Z :=
  c ← try_catch
        (success ← cycle;
         if success : bool then mret 0 else mret (consecutiveErrors + 1))
        (λ error,
           let consecutiveErrors := consecutiveErrors + 1 in
           m ← read_message error;
           console (LogErrorMainLoop consecutiveErrors m);;
           if maxConsecutiveErrors <=? consecutiveErrors then
             console LogTooManyErrors;;
             sleep 30000;;
             mret 0
           else mret consecutiveErrors);
  sleep 5000;;
  mret c.

(** The first [turns] turns of the loop. *)
Fixpoint main_loop_with (cycle : M bool) (turns : nat) (consecutiveErrors : Z) : M Z :=
  match turns with
  | O => mret consecutiveErrors
  | S turns' =>
      c ← loop_turn cycle consecutiveErrors;
      main_loop_with cycle turns' c
  end.

Definition main_loop (turns : nat) : M Z := main_loop_with checkAndTrade turns 0.

End Cycle.


(** ** The scan of the lookup tables as the specification words it

    Every returned table is attempted in the order received; an oversized
    or undecodable table is discarded, the others are kept, and the scan
    stops once two are kept. *)
Fixpoint keepUntilTwo (lib : Web3) (tbls : list AltJson)
    (kept : list AddressLookupTableAccount)
    : list AddressLookupTableAccount * list AltWarning :=
  match tbls with
  | [] => (kept, [])
  | tbl :: rest =>
      if (2 <=? length kept)%nat then (kept, [])
      else
        match decodeTable lib tbl with
        | inr alt => keepUntilTwo lib rest (kept ++ [alt])
        | inl warning =>
            let (tables, warnings) := keepUntilTwo lib rest kept in
            (tables, warning :: warnings)
        end
  end.

(** The tables and the warnings of a list of steps of the loop. *)
Definition pushed (steps : list (AltWarning + AddressLookupTableAccount))
    : list AddressLookupTableAccount :=
  omap (λ step, match step with inr alt => Some alt | inl _ => None end) steps.

Definition warned (steps : list (AltWarning + AddressLookupTableAccount))
    : list AltWarning :=
  omap (λ step, match step with inl warning => Some warning | inr _ => None end) steps.

(** ** What the assembler is measured against *)

(** [tx] is the candidate of a strategy: the library compiles the
    instructions with [tables] to a message, [tx] is that message
    unsigned, and [tx] serializes to at most 1232 bytes. *)
Definition candidate (lib : Web3) (instructions : list TransactionInstruction)
    (tables : list AddressLookupTableAccount) (blockhash : string)
    (tx : VersionedTransaction) : Prop :=
  exists msgV0 serialized,
    compileToV0Message lib (publicKey (wallet lib)) blockhash instructions tables = Ok msgV0
    /\ tx = {| tx_message := msgV0; tx_signatures := [] |}
    /\ tx_serialize lib tx = Ok serialized
    /\ (length serialized <= 1232)%nat.

(** ** What the optimizer is measured against *)

(** The serialized byte length of a table, when it serializes. *)
Definition serializedSize (lib : Web3) (t : AddressLookupTableAccount) : option nat :=
  match ALT_serialize lib t with
  | Ok serialized => Some (length serialized)
  | Throw _ => None
  end.

(** [t], at index [i], is the first table of the list carrying its key. *)
Definition first_of_key (allAlts : list AddressLookupTableAccount) (i : nat)
    (t : AddressLookupTableAccount) : Prop :=
  allAlts !! i = Some t
  /\ forall (j : nat) t', (j < i)%nat -> allAlts !! j = Some t' -> alt_key t' <> alt_key t.

(** [t] is the first table of its key and serializes to [n] bytes. *)
Definition survivor (lib : Web3) (allAlts : list AddressLookupTableAccount)
    (t : AddressLookupTableAccount) (n : nat) : Prop :=
  exists i : nat, first_of_key allAlts i t /\ serializedSize lib t = Some n.

(** The entry lines 345-346 push for a table that serializes to [n] bytes. *)
Definition entry_of (t : AddressLookupTableAccount) (n : nat) : AltSize :=
  {| as_alt := t; as_size := n; as_key := alt_key t |}.

(** The order of the comparator [a.size - b.size]. *)
Definition size_le (a b : AltSize) : Prop := (as_size a <= as_size b)%nat.

(** Ascending serialized size. *)
Definition size_ascending (lib : Web3) (a b : AddressLookupTableAccount) : Prop :=
  exists m n : nat,
    serializedSize lib a = Some m /\ serializedSize lib b = Some n /\ (m <= n)%nat.

(** ** Reading traces *)

(** The answers of the pricing service recorded in a trace, in order. *)
Definition quote_answers (es : list Event) : list (Await (option QuoteJson)) :=
  omap (λ ev, match ev with EQuote _ _ _ r => Some r | _ => None end) es.

(** What the [try] of lines 58-62 makes of an answer of the pricing
    service: the quote it returns, or the value it throws (that of a
    rejected call, or the error for a body without [outAmount]). *)
Definition quote_outcome (r : Await (option QuoteJson)) : Await QuoteJson :=
  match r with
  | Throw error => Throw error
  | Ok None => Throw (ErrorObject "Failed to get quote")
  | Ok (Some q) => Ok q
  end.

(** An attempt that threw a value whose message can be read: the
    [catch] of a retry loop goes on to its test of the attempt number. *)
Definition retried {A} (outcome : Await A) : Prop :=
  exists error m, outcome = Throw error /\ message error = Ok m.

(** How a retry loop of [retries] attempts ends on its attempt number
    [n] (counted from 1) that threw [error]: reading the message of [null]
    or [undefined] throws a [TypeError] out of the [catch], at any attempt;
    otherwise the attempt is the last and the loop throws [error] itself. *)
Definition gives_up (retries n : nat) (error e : Thrown) : Prop :=
  match message error with
  | Ok _ => n = retries /\ e = error
  | Throw type_error => e = ErrorObject type_error
  end.

(** An event that records a call carries what the service answers at the
    history [h]. *)
Definition answered_at (env : Env) (h : list Event) (ev : Event) : Prop :=
  match ev with
  | EQuote inputMint outputMint amount r => r = env_quote env h inputMint outputMint amount
  | ESwapInstructions quote userPublicKey r =>
      r = env_swapInstructions env h quote userPublicKey
  | EGetLatestBlockhash r => r = env_getLatestBlockhash env h
  | ESimulate tx r => r = env_simulateTransaction env h tx
  | ESend tx r => r = env_sendTransaction env h tx
  | EConfirm signature blockhash lastValidBlockHeight r =>
      r = env_confirmTransaction env h signature blockhash lastValidBlockHeight
  | ENotify _ | ESleep _ | ELog _ => True
  end.

(** Every call recorded in the trace [es], which starts at the history
    [h], carries the answer of the service at its point of the history. *)
Fixpoint answered (env : Env) (h es : list Event) : Prop :=
  match es with
  | [] => True
  | ev :: rest => answered_at env h ev /\ answered env (h ++ [ev]) rest
  end.

(** The delays slept in a trace, in order. *)
Definition sleeps (es : list Event) : list Z :=
  omap (λ ev, match ev with ESleep ms => Some ms | _ => None end) es.

(** The trace of attempts numbered from [i] (counting from 0), each with
    the events [attempt] gives for it: attempt [i] is followed, unless it is
    the last, by a sleep of [1000 * (i + 1)] ms. *)
Fixpoint retry_trace {A} (attempt : A -> list Event) (attempts : list A) (i : nat)
    : list Event :=
  match attempts with
  | [] => []
  | a :: rest =>
      attempt a ++
      match rest with
      | [] => []
      | _ :: _ => ESleep (1000 * (Z.of_nat i + 1)) :: retry_trace attempt rest (S i)
      end
  end.

(** ** The shape of the retry loops *)

Section RetrySpec.
Context {A B : Type} (retries : nat).
Context (loop : nat -> nat -> M (option B)).
Context (attempt_at : list Event -> A) (events : A -> list Event)
  (outcome : A -> Await B).

(** What [loop] is once its monad is unfolded. *)
Definition retry_turns : Prop :=
  (forall i h, loop i O h = (Ok None, []))
  /\ forall i fuel h,
       loop i (S fuel) h
       = let a := attempt_at h in
         match outcome a with
         | Ok b => (Ok (Some b), events a)
         | Throw error =>
             match message error with
             | Throw type_error => (Throw (ErrorObject type_error), events a)
             | Ok _ =>
                 if (i =? retries - 1)%nat then (Throw error, events a)
                 else
                   let sleeping := ESleep (1000 * (Z.of_nat i + 1)) in
                   let (result, es) := loop (S i) fuel (h ++ events a ++ [sleeping]) in
                   (result, events a ++ sleeping :: es)
             end
         end.

(** What the result and the trace of a retry loop are, by its attempts. *)
Definition retry_policy (fuel i : nat) (result : Await (option B)) (es : list Event)
    : Prop :=
  exists attempts,
    es = retry_trace events attempts i
    /\ Forall (λ a, exists h', a = attempt_at h') attempts
    /\ match result with
       | Ok (Some b) =>
           exists failures a,
             attempts = failures ++ [a]
             /\ Forall (λ a, retried (outcome a)) failures
             /\ outcome a = Ok b
             /\ (length attempts <= fuel)%nat
       | Throw e =>
           exists failures a error,
             attempts = failures ++ [a]
             /\ Forall (λ a, retried (outcome a)) failures
             /\ outcome a = Throw error
             /\ gives_up fuel (length attempts) error e
             /\ (length attempts <= fuel)%nat
       | Ok None => fuel = 0%nat /\ attempts = []
       end.

End RetrySpec.

(** An attempt of the Quote Client is one call. *)
Definition quote_attempt (inputMint outputMint : string) (amount : Amount)
    (r : Await (option QuoteJson)) : list Event :=
  [EQuote inputMint outputMint amount r].

(** An attempt of the Submission Pipeline: the simulation failed, with the
    answer it got; or it passed and the broadcast was rejected; or both
    passed. *)
Inductive Attempt :=
| SimulationFailed (r : Await (option string))
| SendFailed (error : Thrown)
| Sent (txid : string).

Definition simulation_ok (r : Await (option string)) : bool :=
  match r with
  | Ok None => true
  | _ => false
  end.

Definition submit_attempt (tx : VersionedTransaction) (a : Attempt) : list Event :=
  match a with
  | SimulationFailed r => [ESimulate tx r]
  | SendFailed error => [ESimulate tx (Ok None); ESend tx (Throw error)]
  | Sent txid => [ESimulate tx (Ok None); ESend tx (Ok txid)]
  end.

(** The attempt a turn of the loop makes at history [h], from the answers
    of the services there. *)
Definition attempt_at (env : Env) (tx : VersionedTransaction) (h : list Event) : Attempt :=
  let r := env_simulateTransaction env h tx in
  if simulation_ok r then
    match env_sendTransaction env (h ++ [ESimulate tx r]) tx with
    | Ok txid => Sent txid
    | Throw error => SendFailed error
    end
  else SimulationFailed r.

(** The message of the error an attempt throws when its simulation,
    answered [r], did not pass: that of line 277, or, for a simulation
    rejected with [null] or [undefined], that of the [TypeError] thrown
    out of the [catch] of [simulateTransaction]. *)
Definition simulation_error (r : Await (option string)) : Error :=
  match r with
  | Throw error =>
      match message error with
      | Throw type_error => type_error
      | Ok _ => "Simulation failed on all attempts"
      end
  | Ok _ => "Simulation failed on all attempts"
  end.

(** The value a failed attempt throws in the [try] of lines 270-285. *)
Definition attempt_error (a : Attempt) : option Thrown :=
  match a with
  | SimulationFailed r =>
      if simulation_ok r then None else Some (ErrorObject (simulation_error r))
  | SendFailed error => Some error
  | Sent _ => None
  end.

(** What the [try] of lines 270-285 makes of an attempt: the signature
    it returns or the value it throws. *)
Definition attempt_outcome (a : Attempt) : Await string :=
  match a with
  | SimulationFailed r => Throw (ErrorObject (simulation_error r))
  | SendFailed error => Throw error
  | Sent txid => Ok txid
  end.

(** A failed attempt after which the loop goes on to its test of the
    attempt number: the message of what it threw can be read. *)
Definition attempt_retried (a : Attempt) : Prop :=
  exists error m, attempt_error a = Some error /\ message error = Ok m.

(** The answers of the simulation endpoint recorded in a trace. *)
Definition simulations (es : list Event) : list (Await (option string)) :=
  omap (λ ev, match ev with ESimulate _ r => Some r | _ => None end) es.

(** The broadcasts recorded in a trace. *)
Definition broadcasts (es : list Event) : list (Await string) :=
  omap (λ ev, match ev with ESend _ r => Some r | _ => None end) es.

(** Every broadcast of the trace comes right after a simulation of the
    same transaction that passed; [prev] is the event before the trace. *)
Fixpoint simulated_before_send (prev : option Event) (es : list Event) : Prop :=
  match es with
  | [] => True
  | ev :: rest =>
      match ev with
      | ESend tx _ => prev = Some (ESimulate tx (Ok None))
      | _ => True
      end
      /\ simulated_before_send (Some ev) rest
  end.

(** ** Kinds of events *)

(** A delay of the linear backoff of a loop of [retries] attempts: 1000 ms
    times the number of an attempt that is not the last. *)
Definition backoff (retries : nat) (ms : Z) : Prop :=
  exists k : nat, (1 <= k < retries)%nat /\ ms = 1000 * Z.of_nat k.

(** The events of a call of the Quote Client. *)
Definition quote_event (retries : nat) (inputMint outputMint : string)
    (amount : Amount) (ev : Event) : Prop :=
  match ev with
  | EQuote inputMint' outputMint' amount' _ =>
      inputMint' = inputMint /\ outputMint' = outputMint /\ amount' = amount
  | ESleep ms => backoff retries ms
  | _ => False
  end.

(** The events of a call of the Instruction Builder. *)
Definition swap_event (retries : nat) (quote : QuoteJson) (ev : Event) : Prop :=
  match ev with
  | ESwapInstructions quote' _ _ => quote' = quote
  | ESleep ms => backoff retries ms
  | ELog (LogAltWarning _) => True
  | _ => False
  end.

(** The events of a call of the Submission Pipeline. *)
Definition submit_event (retries : nat) (tx : VersionedTransaction) (ev : Event) : Prop :=
  match ev with
  | ESimulate tx' _ | ESend tx' _ => tx' = tx
  | ESleep ms => backoff retries ms
  | _ => False
  end.

(** The events of what follows the notification in a cycle. *)
Definition build_event (ev : Event) : Prop :=
  match ev with
  | EQuote _ _ _ _ | ENotify _ => False
  | ESleep ms => backoff MAX_RETRIES ms
  | ELog (LogErrorMainLoop _ _) | ELog LogTooManyErrors => False
  | _ => True
  end.

(** The events of a cycle: its sleeps are backoff delays, what it notifies
    is the object of lines 320-325, and it writes none of the lines of the
    main loop. *)
Definition cycle_event (cfg : Config) (ev : Event) : Prop :=
  match ev with
  | ESleep ms => backoff MAX_RETRIES ms
  | ENotify o => exists profit, o = opportunity cfg profit
  | ELog (LogErrorMainLoop _ _) | ELog LogTooManyErrors => False
  | _ => True
  end.

(** An event that is no rejected request of the blockhash. *)
Definition no_blockhash_rejected (ev : Event) : Prop :=
  match ev with
  | EGetLatestBlockhash (Throw _) => False
  | _ => True
  end.

Definition no_confirm (ev : Event) : Prop :=
  match ev with
  | EConfirm _ _ _ _ => False
  | _ => True
  end.

(** The line written after the confirmation, by its answer: that of
    success, that of the [catch] of line 386 with the message of the
    error, or, for a rejection with [null] or [undefined], that of the
    [catch] of line 391 with the message of the [TypeError] thrown out of
    the former. *)
Definition confirm_log (r : Await unit) : LogMsg :=
  match r with
  | Ok _ => LogConfirmed
  | Throw error =>
      match message error with
      | Ok m => LogErrorSending m
      | Throw type_error => LogErrorCheckAndTrade type_error
      end
  end.

(** What a [catch] that writes the message of the value thrown and
    returns [false] comes to: the line and [false], or, for [null] and
    [undefined], no line and the [TypeError] of reading the message. *)
Definition caught (line : string -> LogMsg) (error : Thrown) : Await bool * list Event :=
  match message error with
  | Ok m => (Ok false, [ELog (line m)])
  | Throw type_error => (Throw (ErrorObject type_error), [])
  end.

(** What lines 380-388 make of the answer of the confirmation. *)
Definition confirm_outcome (answer : Await unit) : Await bool * list Event :=
  match answer with
  | Ok _ => (Ok true, [ELog LogConfirmed])
  | Throw error => caught LogErrorSending error
  end.

Definition confirm_ok (r : Await unit) : bool :=
  match r with
  | Ok _ => true
  | Throw _ => false
  end.

(** How a cycle relates to the confirmation.  Either nothing was
    submitted for confirmation and the result is not [true]; or the trace
    ends with a successful broadcast, the confirmation of its signature
    against the blockhash and height fetched before, and the line for its
    answer, and the result is whether the confirmation succeeded. *)
Definition submitted (r : Await bool) (es : list Event) : Prop :=
  (Forall no_confirm es /\ r <> Ok true)
  \/ exists pre tx txid blockhash lastValidBlockHeight answer,
       es = pre ++ [ ESend tx (Ok txid);
                     EConfirm (Some txid) blockhash lastValidBlockHeight answer;
                     ELog (confirm_log answer) ]
       /\ Forall no_confirm pre
       /\ EGetLatestBlockhash (Ok (blockhash, lastValidBlockHeight)) ∈ pre
       /\ r = Ok (confirm_ok answer).

(** The profit check, of the result and the trace of a cycle: instruction
    building is called only after a buy and a sell quote whose output is at
    least input plus threshold; a sell quote below that ends the cycle with
    [false], the no-opportunity line last, and no call of the instruction
    service; and the sell quote is asked for the output of the buy quote. *)
Definition profit_checked (cfg : Config) (result : Await bool) (es : list Event) : Prop :=
  let a := INPUT_USDC cfg in
  let p := MIN_PROFIT_USDC cfg in
  (forall q k r,
     ESwapInstructions q k r ∈ es ->
     exists quoteBuy quoteSell sellOut,
       EQuote USDC_MINT WSOL_MINT (AInt a) (Ok (Some quoteBuy)) ∈ es
       /\ EQuote WSOL_MINT USDC_MINT (outAmount quoteBuy) (Ok (Some quoteSell)) ∈ es
       /\ outAmount quoteSell = AInt sellOut
       /\ a + p <= sellOut)
  /\ (forall outputMint amount quoteSell sellOut,
        EQuote WSOL_MINT outputMint amount (Ok (Some quoteSell)) ∈ es ->
        outAmount quoteSell = AInt sellOut ->
        sellOut < a + p ->
        result = Ok false
        /\ last es = Some (ELog (LogNoOpportunity (net cfg sellOut)))
        /\ forall q k r, ESwapInstructions q k r ∉ es)
  /\ (forall inputMint outputMint amount r,
        EQuote inputMint outputMint amount r ∈ es ->
        (inputMint = USDC_MINT /\ outputMint = WSOL_MINT /\ amount = AInt a)
        \/ (inputMint = WSOL_MINT /\ outputMint = USDC_MINT
            /\ exists quoteBuy,
                 EQuote USDC_MINT WSOL_MINT (AInt a) (Ok (Some quoteBuy)) ∈ es
                 /\ amount = outAmount quoteBuy)).

(** Every event a computation adds satisfies [P], whatever the history. *)
Definition emits {A} (P : Event -> Prop) (m : M A) : Prop :=
  forall h, Forall P (m h).2.

(** Every call a computation records carries the answer of the service. *)
Definition answers {A} (env : Env) (m : M A) : Prop :=
  forall h, answered env h (m h).2.

(** ** Reading the traces of the Instruction Builder *)

(** The answers of the instruction service recorded in a trace. *)
Definition swap_answers (es : list Event) : list (Await SwapInstructionsJson) :=
  omap (λ ev, match ev with ESwapInstructions _ _ r => Some r | _ => None end) es.

(** What the [try] of lines 80-132 makes of an answer: the payload it
    returns, or the value it throws (that of a rejected call, the error
    for a body without [swapInstruction], or the error of [PublicKey] on a
    key of the instruction). *)
Definition swap_outcome (lib : Web3) (r : Await SwapInstructionsJson) : Await SwapPayload :=
  match r with
  | Throw error => Throw error
  | Ok res =>
      match swapInstruction res with
      | None => Throw (ErrorObject "Failed to get swap instructions")
      | Some si =>
          match buildInstruction lib si with
          | Throw e => Throw (ErrorObject e)
          | Ok ix =>
              Ok {| instructions := [ix];
                    lookupTables := (selectLookupTables lib res).1 |}
          end
      end
  end.

(** The warnings written on an answer: those of the table loop, when the
    [try] gets to it. *)
Definition swap_warnings (lib : Web3) (r : Await SwapInstructionsJson) : list AltWarning :=
  match r, swap_outcome lib r with
  | Ok res, Ok _ => (selectLookupTables lib res).2
  | _, _ => []
  end.

(** An attempt of the Instruction Builder: the call and the warnings. *)
Definition swap_attempt (lib : Web3) (quote : QuoteJson) (userPublicKey : string)
    (r : Await SwapInstructionsJson) : list Event :=
  ESwapInstructions quote userPublicKey r
    :: ((ELog ∘ LogAltWarning) <$> swap_warnings lib r).

(** The transaction an event submits, to the simulation or to the
    broadcast. *)
Definition submits (ev : Event) : option VersionedTransaction :=
  match ev with
  | ESimulate tx _ | ESend tx _ => Some tx
  | _ => None
  end.

(** A transaction made, in the events [pre], from the two quotes: the
    instruction service answered for each of them, the blockhash was
    fetched, and the transaction is the wallet's signature of what the
    Transaction Assembler made of the buy instruction followed by the sell
    instruction, the optimized tables and that blockhash. *)
Definition built_from (lib : Web3) (quoteBuy quoteSell : QuoteJson)
    (pre : list Event) (tx : VersionedTransaction) : Prop :=
  exists r1 r2 p1 p2 blockhash lastValidBlockHeight atomicTx,
    ESwapInstructions quoteBuy (publicKey (wallet lib)) r1 ∈ pre
    /\ swap_outcome lib r1 = Ok p1
    /\ ESwapInstructions quoteSell (publicKey (wallet lib)) r2 ∈ pre
    /\ swap_outcome lib r2 = Ok p2
    /\ EGetLatestBlockhash (Ok (blockhash, lastValidBlockHeight)) ∈ pre
    /\ createOptimizedTransaction lib (instructions p1 ++ instructions p2)
         (optimizeAlts lib (lookupTables p1) (lookupTables p2)) blockhash
       = Some atomicTx
    /\ tx_sign lib atomicTx [wallet lib] = Ok tx.

(** What a trace sent to the messaging endpoint. *)
Definition notifications (es : list Event) : list JsObject :=
  omap (λ ev, match ev with ENotify o => Some o | _ => None end) es.

(** The events of a cycle that call no service but the pricing service:
    console lines, quote calls and sleeps. *)
Definition quoting_event (ev : Event) : Prop :=
  match ev with
  | ELog _ | EQuote _ _ _ _ | ESleep _ => True
  | _ => False
  end.

(** The sum of the delays of a trace, in ms. *)
Definition total (delays : list Z) : Z := foldr Z.add 0 delays.

(** A trace within a budget of quote calls, instruction-service calls,
    simulations, broadcasts and ms slept. *)
Definition within (quotes swaps sims sends : nat) (ms : Z) (es : list Event) : Prop :=
  (length (quote_answers es) <= quotes)%nat
  /\ (length (swap_answers es) <= swaps)%nat
  /\ (length (simulations es) <= sims)%nat
  /\ (length (broadcasts es) <= sends)%nat
  /\ total (sleeps es) <= ms.

(** The events that count against no budget. *)
Definition free_event (ev : Event) : Prop :=
  match ev with
  | ELog _ | ENotify _ | EGetLatestBlockhash _ | EConfirm _ _ _ _ => True
  | _ => False
  end.

(** A trace that holds a confirmation that succeeded. *)
Definition confirmed (es : list Event) : Prop :=
  exists signature blockhash lastValidBlockHeight,
    EConfirm signature blockhash lastValidBlockHeight (Ok ()) ∈ es.

(** The sleeps of 5000 ms of a trace: those that end a turn of the main
    loop. *)
Definition pauses (es : list Event) : list Z :=
  filter (λ ms, ms = 5000) (sleeps es).

(** What the two lines written before the assembly may report: the
    number of tables kept and found, and the number of instructions. *)
Definition assembling_event (ev : Event) : Prop :=
  match ev with
  | ELog (LogOptimizedAlts kept total) =>
      (kept <= 2)%nat /\ (kept <= total)%nat /\ (total <= 4)%nat
  | ELog (LogCreating n) => n = 2%nat
  | _ => True
  end.

(** The events that hand a transaction to the network. *)
Definition submission_event (ev : Event) : Prop :=
  match ev with
  | ESimulate _ _ | ESend _ _ | EConfirm _ _ _ _ => True
  | _ => False
  end.

(** The sleeps of 30000 ms of a trace: the cooldowns of the main loop. *)
Definition cooldowns (es : list Event) : list Z :=
  filter (λ ms, ms = 30000) (sleeps es).

(** A broadcast that was rejected. *)
Definition send_failed (r : Await string) : Prop := exists e, r = Throw e.

(** The value the last attempt of a call of the Submission Pipeline
    threw, by the last event of the call: the error of a simulation that
    did not pass, or what the broadcast was rejected with. *)
Definition submission_error (tx : VersionedTransaction) (last : option Event)
    (error : Thrown) : Prop :=
  (exists r, last = Some (ESimulate tx r) /\ simulation_ok r = false
             /\ error = ErrorObject (simulation_error r))
  \/ last = Some (ESend tx (Throw error)).

(** * wrapper.js: wrapping SOL

    The script gets the associated token account of the wallet for the
    native mint, transfers the lamports to it and synchronizes its
    balance, in one transaction.  The amounts are [float]s and [*] is the
    multiplication of [PrimFloat].  The two instruction builders are
    library functions, which may throw. *)
Module Wrapper.

Definition NATIVE_MINT := "So11111111111111111111111111111111111111112".

Record Spl (Instruction : Type) := {
  SystemProgram_transfer : string -> string -> float -> Res Instruction;
  createSyncNativeInstruction : string -> Res Instruction;
}.
Arguments SystemProgram_transfer {_}.
Arguments createSyncNativeInstruction {_}.

(** The two lines of success, and what [console.error] is given. *)
Inductive LogLine :=
| LogWrapped (txid : string)
| LogAccount (address : string)
| LogError (error : Thrown).

Inductive Event (Instruction : Type) :=
| EGetOrCreateAssociatedTokenAccount (payer : Keypair) (mint owner : string)
    (r : Await string)
| ESendAndConfirmTransaction (transaction : list Instruction) (signers : list Keypair)
    (r : Await string)
| ELog (line : LogLine).
Arguments EGetOrCreateAssociatedTokenAccount {_}.
Arguments ESendAndConfirmTransaction {_}.
Arguments ELog {_}.

(** The token program and the RPC node; the node answers from what
    happened before. *)
Record Env (Instruction : Type) := {
  env_getOrCreateAssociatedTokenAccount : Keypair -> string -> string -> Await string;
  env_sendAndConfirmTransaction :
    list (Event Instruction) -> list Instruction -> list Keypair -> Await string;
}.
Arguments env_getOrCreateAssociatedTokenAccount {_}.
Arguments env_sendAndConfirmTransaction {_}.

Section Script.
Context {Instruction : Type} (lib : Spl Instruction) (wallet : Keypair)
  (env : Env Instruction).

(** Lines 26-50, with the events written so far passed along. *)
Definition wrapSol (amountSol : float) : Await unit * list (Event Instruction) :=
  let amountLamports := (amountSol * 1e9)%float in
  let answer :=
    env_getOrCreateAssociatedTokenAccount env wallet NATIVE_MINT (publicKey wallet) in
  let asked :=
    EGetOrCreateAssociatedTokenAccount wallet NATIVE_MINT (publicKey wallet) answer in
  match answer with
  | Throw error => (Throw error, [asked])
  | Ok wsolAccount =>
      match SystemProgram_transfer lib (publicKey wallet) wsolAccount amountLamports with
      | Throw e => (Throw (ErrorObject e), [asked])
      | Ok transfer =>
          match createSyncNativeInstruction lib wsolAccount with
          | Throw e => (Throw (ErrorObject e), [asked])
          | Ok sync =>
              let transaction := [transfer; sync] in
              let sent := env_sendAndConfirmTransaction env [asked] transaction [wallet] in
              let send := ESendAndConfirmTransaction transaction [wallet] sent in
              match sent with
              | Throw error => (Throw error, [asked; send])
              | Ok txid =>
                  (Ok (), [asked; send; ELog (LogWrapped txid);
                           ELog (LogAccount wsolAccount)])
              end
          end
      end
  end.

(** Line 53: [wrapSol(0.3).catch(console.error)]. *)
Definition main : Await unit * list (Event Instruction) :=
  match wrapSol 0.3%float with
  | (Throw error, es) => (Ok (), es ++ [ELog (LogError error)])
  | returned => returned
  end.

End Script.

(** What a trace sent to the node. *)
Definition sent {Instruction} (es : list (Event Instruction))
    : list (list Instruction * list Keypair * Await string) :=
  omap (λ ev, match ev with
              | ESendAndConfirmTransaction transaction signers r =>
                  Some (transaction, signers, r)
              | _ => None
              end) es.

End Wrapper.

(** ** A library and services to run the model on

    A small instance of [Web3]: every non-empty string is a public key, a
    table is its key and its bytes, a compiled message is the data of the
    instructions followed by the bytes of the tables. *)
Module Sample.

Definition lib : Web3 := {|
  wallet := {| publicKey := "payer"; secretKey := [] |};
  PublicKey_new := λ s,
    if decide (s = "") then Throw "Invalid public key input" else Ok s;
  ALT_deserialize := λ k raw, Ok {| alt_key := k; alt_state := raw |};
  ALT_serialize := λ t, Ok (alt_state t);
  compileToV0Message := λ payer blockhash ixs tables,
    Ok {| mv_payerKey := payer; mv_recentBlockhash := blockhash;
          mv_body := (ixs ≫= ix_data) ++ (tables ≫= alt_state) |};
  tx_serialize := λ tx, Ok (mv_body (tx_message tx));
  tx_sign := λ tx signers,
    Ok {| tx_message := tx_message tx; tx_signatures := publicKey <$> signers |};
|}.

(** The same library, but [deserialize] throws on every table. *)
Definition undecodable : Web3 := {|
  wallet := wallet lib;
  PublicKey_new := PublicKey_new lib;
  ALT_deserialize := λ _ _, Throw "invalid account data";
  ALT_serialize := ALT_serialize lib;
  compileToV0Message := compileToV0Message lib;
  tx_serialize := tx_serialize lib;
  tx_sign := tx_sign lib;
|}.

Definition bytes (n : nat) : list byte := replicate n x00.

Definition table (k : string) (n : nat) : AltJson :=
  {| accountKey := k; tbl_data := bytes n |}.

Definition alt (k : string) (n : nat) : AddressLookupTableAccount :=
  {| alt_key := k; alt_state := bytes n |}.

Definition ix (n : nat) : TransactionInstruction :=
  {| ix_programId := "JUP"; ix_keys := []; ix_data := bytes n |}.

(** A response with its swap instruction and three tables: two
    oversized ones, then a small one. *)
Definition oversized_first : SwapInstructionsJson :=
  {| swapInstruction :=
       Some {| si_programId := "JUP"; si_accounts := []; si_data := bytes 8 |};
     addressLookupTableAccounts := [table "A" 1001; table "B" 1001; table "C" 20] |}.

Definition swapResponse : SwapInstructionsJson :=
  {| swapInstruction :=
       Some {| si_programId := "JUP"; si_accounts := []; si_data := bytes 8 |};
     addressLookupTableAccounts := [table "A" 4] |}.

(** Services that answer every call: 60000 units for the buy leg and
    [sellOut] for the sell leg. *)
Definition env (sellOut : Z) : Env := {|
  env_quote := λ _ inputMint _ _,
    if decide (inputMint = USDC_MINT)
    then Ok (Some {| outAmount := AInt 60000; routePlan := "buy" |})
    else Ok (Some {| outAmount := AInt sellOut; routePlan := "sell" |});
  env_swapInstructions := λ _ _ _, Ok swapResponse;
  env_getLatestBlockhash := λ _, Ok ("blockhash", 100);
  env_simulateTransaction := λ _ _, Ok None;
  env_sendTransaction := λ _ _, Ok "signature";
  env_confirmTransaction := λ _ _ _ _, Ok ();
|}.

(** The same services with the pricing service down. *)
Definition pricing_down : Env := {|
  env_quote := λ _ _ _ _, Throw (ErrorObject "fetch failed");
  env_swapInstructions := env_swapInstructions (env 0);
  env_getLatestBlockhash := env_getLatestBlockhash (env 0);
  env_simulateTransaction := env_simulateTransaction (env 0);
  env_sendTransaction := env_sendTransaction (env 0);
  env_confirmTransaction := env_confirmTransaction (env 0);
|}.

(** A profitable round where the confirmation fails. *)
Definition unconfirmed : Env := {|
  env_quote := env_quote (env 10001300);
  env_swapInstructions := env_swapInstructions (env 0);
  env_getLatestBlockhash := env_getLatestBlockhash (env 0);
  env_simulateTransaction := env_simulateTransaction (env 0);
  env_sendTransaction := env_sendTransaction (env 0);
  env_confirmTransaction := λ _ _ _ _, Throw (ErrorObject "block height exceeded");
|}.

(** A profitable round where the first simulation fails and the later
    ones pass. *)
Definition simulation_fails_once : Env := {|
  env_quote := env_quote (env 10001300);
  env_swapInstructions := env_swapInstructions (env 0);
  env_getLatestBlockhash := env_getLatestBlockhash (env 0);
  env_simulateTransaction := λ h _,
    match simulations h with
    | [] => Ok (Some "custom program error")
    | _ :: _ => Ok None
    end;
  env_sendTransaction := env_sendTransaction (env 0);
  env_confirmTransaction := env_confirmTransaction (env 0);
|}.

(** The events of a cycle of [unconfirmed] from the empty history, up to
    the confirmation. *)
Definition unconfirmed_before : list Event :=
  Eval vm_compute in take 12 (checkAndTrade source_config lib unconfirmed []).2.

(** The transaction of 1000 bytes that [lib] compiles [ix 1000] to
    without tables. *)
Definition unsigned_1000 : VersionedTransaction :=
  {| tx_message :=
       {| mv_payerKey := "payer"; mv_recentBlockhash := "bh";
          mv_body := bytes 1000 |};
     tx_signatures := [] |}.

(** The transaction of a profitable round of [env]: both instructions,
    then the one table the two answers share. *)
Definition signed : VersionedTransaction :=
  {| tx_message :=
       {| mv_payerKey := "payer"; mv_recentBlockhash := "blockhash";
          mv_body := bytes 8 ++ bytes 8 ++ bytes 4 |};
     tx_signatures := ["payer"] |}.

(** An instruction service whose instructions are 700 bytes each: two of
    them exceed the ceiling with or without tables. *)
Definition oversized : Env := {|
  env_quote := env_quote (env 10001300);
  env_swapInstructions := λ _ _ _,
    Ok {| swapInstruction :=
            Some {| si_programId := "JUP"; si_accounts := []; si_data := bytes 700 |};
          addressLookupTableAccounts := [] |};
  env_getLatestBlockhash := env_getLatestBlockhash (env 0);
  env_simulateTransaction := env_simulateTransaction (env 0);
  env_sendTransaction := env_sendTransaction (env 0);
  env_confirmTransaction := env_confirmTransaction (env 0);
|}.

(** The pricing service rejects every call with [undefined]. *)
Definition pricing_rejects_undefined : Env := {|
  env_quote := λ _ _ _ _, Throw Undefined;
  env_swapInstructions := env_swapInstructions (env 0);
  env_getLatestBlockhash := env_getLatestBlockhash (env 0);
  env_simulateTransaction := env_simulateTransaction (env 0);
  env_sendTransaction := env_sendTransaction (env 0);
  env_confirmTransaction := env_confirmTransaction (env 0);
|}.

(** A profitable round where the node rejects the request for the
    blockhash with [undefined]. *)
Definition blockhash_rejected : Env := {|
  env_quote := env_quote (env 10001300);
  env_swapInstructions := env_swapInstructions (env 0);
  env_getLatestBlockhash := λ _, Throw Undefined;
  env_simulateTransaction := env_simulateTransaction (env 0);
  env_sendTransaction := env_sendTransaction (env 0);
  env_confirmTransaction := env_confirmTransaction (env 0);
|}.

(** A node that rejects every broadcast with [null]. *)
Definition broadcast_rejects_null : Env := {|
  env_quote := env_quote (env 10001300);
  env_swapInstructions := env_swapInstructions (env 0);
  env_getLatestBlockhash := env_getLatestBlockhash (env 0);
  env_simulateTransaction := env_simulateTransaction (env 0);
  env_sendTransaction := λ _ _, Throw Null;
  env_confirmTransaction := env_confirmTransaction (env 0);
|}.

(** A profitable round where the node rejects the confirmation with
    [null]. *)
Definition confirmation_rejected_with_null : Env := {|
  env_quote := env_quote (env 10001300);
  env_swapInstructions := env_swapInstructions (env 0);
  env_getLatestBlockhash := env_getLatestBlockhash (env 0);
  env_simulateTransaction := env_simulateTransaction (env 0);
  env_sendTransaction := env_sendTransaction (env 0);
  env_confirmTransaction := λ _ _ _ _, Throw Null;
|}.

(** An instruction service that answers [oversized_first]. *)
Definition three_tables : Env := {|
  env_quote := env_quote (env 10001300);
  env_swapInstructions := λ _ _ _, Ok oversized_first;
  env_getLatestBlockhash := env_getLatestBlockhash (env 0);
  env_simulateTransaction := env_simulateTransaction (env 0);
  env_sendTransaction := env_sendTransaction (env 0);
  env_confirmTransaction := env_confirmTransaction (env 0);
|}.

(** A transaction to submit. *)
Definition tx : VersionedTransaction :=
  {| tx_message :=
       {| mv_payerKey := "payer"; mv_recentBlockhash := "blockhash";
          mv_body := bytes 8 |};
     tx_signatures := ["payer"] |}.

(** Instruction builders and services for the script of [wrapper.js]. *)
Definition spl : Wrapper.Spl string := {|
  Wrapper.SystemProgram_transfer := λ fromPubkey toPubkey lamports,
    if PrimFloat.eqb lamports 300000000 then Ok "transfer" else Throw "not these lamports";
  Wrapper.createSyncNativeInstruction := λ account, Ok "syncNative";
|}.

Definition node : Wrapper.Env string := {|
  Wrapper.env_getOrCreateAssociatedTokenAccount := λ _ _ _, Ok "wsol";
  Wrapper.env_sendAndConfirmTransaction := λ _ _ _, Ok "signature";
|}.

End Sample.

(** * Properties *)

(** ** Instruction Builder: the lookup tables kept *)

Section LookupTables.
Context (lib : Web3).

Lemma collectLookupTables_short tbls acc :
  (length acc + length tbls <= maxAlts)%nat ->
  collectLookupTables lib tbls acc
  = (acc ++ pushed (decodeTable lib <$> tbls), warned (decodeTable lib <$> tbls)).
Proof.
  unfold pushed, warned.
  revert acc. induction tbls as [|tbl rest IH]; intros acc Hlen;
    cbn [collectLookupTables fmap list_fmap omap list_omap length] in *.
  - by rewrite app_nil_r.
  - destruct (decodeTable lib tbl) as [warning|alt] eqn:Hdec.
    + rewrite IH by lia. done.
    + rewrite length_app. cbn [length].
      destruct (Nat.leb_spec maxAlts (length acc + 1)) as [Hfull|Hroom].
      * assert (rest = []) as -> by (destruct rest; [done | cbn [length] in Hlen; lia]).
        done.
      * rewrite IH; [by rewrite <- app_assoc |].
        rewrite length_app. cbn [length]. lia.
Qed.

End LookupTables.

Lemma omap_length_le {A B} (f : A -> option B) (l : list A) :
  (length (omap f l) <= length l)%nat.
Proof.
  induction l as [|x l IH]; cbn [omap list_omap length]; [done |].
  destruct (f x); cbn [length]; lia.
Qed.

(** C5, as amended: only the first two tables of the response are ever
    examined.  The tables kept are exactly those among the first two that
    are within 1000 bytes and decode, in the order received, so at most
    two; the warnings written are those of the others of the first two; a
    table behind the second is never attempted, whatever happened to the
    first two. *)
Theorem selectLookupTables_first_two (lib : Web3) (res : SwapInstructionsJson) :
  let steps := decodeTable lib <$> take 2 (addressLookupTableAccounts res) in
  selectLookupTables lib res = (pushed steps, warned steps)
  /\ (length (selectLookupTables lib res).1 <= 2)%nat
  /\ (forall tbl alt,
        decodeTable lib tbl = inr alt <->
        (length (tbl_data tbl) <= 1000)%nat
        /\ exists pk,
             PublicKey_new lib (accountKey tbl) = Ok pk
             /\ ALT_deserialize lib pk (tbl_data tbl) = Ok alt)
  /\ (forall tbl n,
        decodeTable lib tbl = inl (AltTooLarge (accountKey tbl) n) <->
        n = length (tbl_data tbl) /\ (1000 < n)%nat).
Proof.
  cbn zeta.
  assert (Hselect : selectLookupTables lib res
            = (pushed (decodeTable lib <$> take 2 (addressLookupTableAccounts res)),
               warned (decodeTable lib <$> take 2 (addressLookupTableAccounts res)))).
  { unfold selectLookupTables. rewrite collectLookupTables_short; [done |].
    cbn [length]. rewrite length_take. unfold maxAlts. lia. }
  split_and!; [exact Hselect | | |].
  - rewrite Hselect. cbn [fst]. unfold pushed.
    etrans; [apply omap_length_le |]. rewrite length_fmap, length_take. lia.
  - intros tbl alt. unfold decodeTable. cbn zeta.
    destruct (Nat.ltb_spec 1000 (length (tbl_data tbl))) as [Hbig|Hfits].
    { split; [done | intros [? _]; lia]. }
    destruct (PublicKey_new lib (accountKey tbl)) as [pk|e].
    2:{ split; [done | by intros (_ & pk & ? & _)]. }
    destruct (ALT_deserialize lib pk (tbl_data tbl)) as [alt'|e] eqn:Hdes; split.
    + intros [= <-]. split; [done | by exists pk].
    + intros (_ & pk' & [= <-] & Halt). congruence.
    + done.
    + intros (_ & pk' & [= <-] & Halt). congruence.
  - intros tbl n. unfold decodeTable. cbn zeta.
    destruct (Nat.ltb_spec 1000 (length (tbl_data tbl))) as [Hbig|Hfits].
    { split; [by intros [= <-] | by intros [-> _]]. }
    split; [| intros [-> ?]; lia].
    destruct (PublicKey_new lib (accountKey tbl)) as [pk|e]; [| done].
    by destruct (ALT_deserialize lib pk (tbl_data tbl)).
Qed.

(** Whatever the library does, on a response with its swap instruction
    and the tables A and B of 1001 bytes and C of 20 bytes, the loop warns
    that A and B are too large and ends: C is neither kept nor warned
    about.  The scan that goes on until two tables are kept gets to C,
    which it keeps or discards with a warning. *)
Lemma selectLookupTables_third_not_examined (lib : Web3) :
  let tables := addressLookupTableAccounts Sample.oversized_first in
  selectLookupTables lib Sample.oversized_first
  = ([], [AltTooLarge "A" 1001; AltTooLarge "B" 1001])
  /\ (exists kept warnings,
        keepUntilTwo lib tables []
        = (kept, [AltTooLarge "A" 1001; AltTooLarge "B" 1001] ++ warnings)
        /\ (length kept + length warnings = 1)%nat)
  /\ selectLookupTables lib Sample.oversized_first <> keepUntilTwo lib tables [].
Proof.
  intros tables.
  assert (Hcode : selectLookupTables lib Sample.oversized_first
                  = ([], [AltTooLarge "A" 1001; AltTooLarge "B" 1001])).
  { by vm_compute. }
  assert (Hclaim : exists kept warnings,
            keepUntilTwo lib tables []
            = (kept, [AltTooLarge "A" 1001; AltTooLarge "B" 1001] ++ warnings)
            /\ (length kept + length warnings = 1)%nat).
  { subst tables. cbn [Sample.oversized_first addressLookupTableAccounts keepUntilTwo].
    change (decodeTable lib (Sample.table "A" 1001))
      with (@inl AltWarning AddressLookupTableAccount (AltTooLarge "A" 1001)).
    change (decodeTable lib (Sample.table "B" 1001))
      with (@inl AltWarning AddressLookupTableAccount (AltTooLarge "B" 1001)).
    cbn [length Nat.leb].
    destruct (decodeTable lib (Sample.table "C" 20)) as [warning|alt].
    - by exists [], [warning].
    - by exists [alt], []. }
  split_and!; [exact Hcode | exact Hclaim |].
  destruct Hclaim as (kept & warnings & Heq & Hlen).
  rewrite Hcode, Heq. intros [= <- Hnil].
  destruct warnings; [cbn in Hlen; lia | discriminate].
Qed.

(** C5, as stated, fails.  On a response with its swap instruction and
    the tables A and B of 1001 bytes and C of 20 bytes, the loop warns that
    A and B are too large and ends without looking at C.  The scan the
    claim describes goes on to C: with a library whose [deserialize]
    throws on every table it warns about C too; with one that decodes, it
    keeps C. *)
Lemma selectLookupTables_stops_at_two_received :
  let tables := addressLookupTableAccounts Sample.oversized_first in
  (selectLookupTables Sample.undecodable Sample.oversized_first
   = ([], [AltTooLarge "A" 1001; AltTooLarge "B" 1001])
   /\ keepUntilTwo Sample.undecodable tables []
      = ([], [AltTooLarge "A" 1001; AltTooLarge "B" 1001;
              AltError "C" "invalid account data"]))
  /\ (selectLookupTables Sample.lib Sample.oversized_first
      = ([], [AltTooLarge "A" 1001; AltTooLarge "B" 1001])
      /\ keepUntilTwo Sample.lib tables []
         = ([Sample.alt "C" 20], [AltTooLarge "A" 1001; AltTooLarge "B" 1001])).
Proof. split_and!; vm_compute; reflexivity. Qed.

(** ** Transaction Assembler *)

Section Assembler.
Context (lib : Web3).

Lemma validate_valid tx :
  valid (validateAndOptimizeTransaction lib tx) = true <->
  exists serialized,
    tx_serialize lib tx = Ok serialized /\ (length serialized <= MAX_TX_SIZE)%nat.
Proof.
  unfold validateAndOptimizeTransaction.
  destruct (tx_serialize lib tx) as [serialized|e]; simpl.
  - destruct (Nat.ltb_spec MAX_TX_SIZE (length serialized)); simpl; split.
    + done.
    + intros (s & [= <-] & Hle). lia.
    + intros _. exists serialized. split; [done | lia].
    + done.
  - split; [done | by intros (s & ? & _)].
Qed.

Lemma tryCompile_Some instructions tables blockhash tx :
  tryCompile lib instructions tables blockhash = Some tx <->
  exists msgV0,
    compileToV0Message lib (publicKey (wallet lib)) blockhash instructions tables = Ok msgV0
    /\ tx = newVersionedTransaction msgV0
    /\ valid (validateAndOptimizeTransaction lib tx) = true.
Proof.
  unfold tryCompile.
  destruct (compileToV0Message lib _ blockhash instructions tables) as [msgV0|e].
  - destruct (valid (validateAndOptimizeTransaction lib (newVersionedTransaction msgV0)))
      eqn:Hv; split.
    + intros [= <-]. by exists msgV0.
    + by intros (m & [= <-] & -> & _).
    + done.
    + intros (m & [= <-] & -> & Hv'). congruence.
  - split; [done | by intros (m & ? & _)].
Qed.

Lemma tryCompile_candidate instructions tables blockhash tx :
  tryCompile lib instructions tables blockhash = Some tx <->
  candidate lib instructions tables blockhash tx.
Proof.
  rewrite tryCompile_Some. unfold candidate. split.
  - intros (msgV0 & Hcompile & -> & (serialized & Hser & Hlen)%validate_valid).
    by exists msgV0, serialized.
  - intros (msgV0 & serialized & Hcompile & -> & Hser & Hlen).
    exists msgV0. split_and!; [done | done |].
    apply validate_valid. by exists serialized.
Qed.

Lemma tryCompile_None instructions tables blockhash :
  tryCompile lib instructions tables blockhash = None <->
  forall tx, ~ candidate lib instructions tables blockhash tx.
Proof.
  split.
  - intros Hnone tx Htx%tryCompile_candidate. congruence.
  - intros Hno. destruct (tryCompile lib instructions tables blockhash) as [tx|] eqn:Htx;
      [| done].
    by destruct (Hno tx); apply tryCompile_candidate.
Qed.

End Assembler.

(** C3: the assembler returns a transaction only if it serializes to at
    most 1232 bytes, and only a candidate of one of its two strategies.
    When there is a table and the library compiles the instructions with
    the tables to a transaction within the ceiling, that one is returned.
    When there is no table, or no such transaction with the tables, and
    the library compiles the instructions without tables to a transaction
    within the ceiling, that one is returned: an instruction list that
    fits only without tables gives the no-table transaction.  The result
    is [None] exactly when neither compilation gives a transaction within
    the ceiling. *)
Theorem createOptimizedTransaction_within_ceiling (lib : Web3)
    (instructions : list TransactionInstruction)
    (lookupTables : list AddressLookupTableAccount) (blockhash : string) :
  let result := createOptimizedTransaction lib instructions lookupTables blockhash in
  let withTables tx :=
    lookupTables <> [] /\ candidate lib instructions lookupTables blockhash tx in
  let withoutTables tx := candidate lib instructions [] blockhash tx in
  (forall tx, result = Some tx ->
     (exists serialized,
        tx_serialize lib tx = Ok serialized /\ (length serialized <= 1232)%nat)
     /\ (withTables tx \/ withoutTables tx))
  /\ (forall tx, withTables tx -> result = Some tx)
  /\ (forall tx, (forall tx', ~ withTables tx') -> withoutTables tx -> result = Some tx)
  /\ (result = None <-> (forall tx, ~ withTables tx) /\ (forall tx, ~ withoutTables tx)).
Proof.
  intros result withTables withoutTables.
  assert (Hres : result
                 = match lookupTables with
                   | [] => tryCompile lib instructions [] blockhash
                   | _ :: _ =>
                       match tryCompile lib instructions lookupTables blockhash with
                       | Some tx => Some tx
                       | None => tryCompile lib instructions [] blockhash
                       end
                   end).
  { subst result. unfold createOptimizedTransaction. by destruct lookupTables. }
  assert (Hsize : forall tables tx,
            candidate lib instructions tables blockhash tx ->
            exists serialized,
              tx_serialize lib tx = Ok serialized /\ (length serialized <= 1232)%nat).
  { intros tables tx (msgV0 & serialized & _ & _ & Hser & Hlen). by exists serialized. }
  clearbody result. subst result withTables withoutTables. cbn beta.
  destruct lookupTables as [|tbl tables].
  { split_and!.
    - intros tx Htx%tryCompile_candidate. split; [by eapply Hsize | by right].
    - by intros tx [? _].
    - by intros tx _ Htx%tryCompile_candidate.
    - rewrite tryCompile_None. split; [| by intros [_ ?]].
      intros Hnone. split; [by intros tx [? _] | done]. }
  destruct (tryCompile lib instructions (tbl :: tables) blockhash) as [tx1|] eqn:Hwith.
  - apply tryCompile_candidate in Hwith as Hcandidate. split_and!.
    + intros tx [= <-]. split; [by eapply Hsize | by left].
    + intros tx [_ Htx%tryCompile_candidate]. congruence.
    + intros tx Hno _. by destruct (Hno tx1).
    + split; [done |]. intros [Hno _]. by destruct (Hno tx1).
  - assert (Hno : forall tx, ~ candidate lib instructions (tbl :: tables) blockhash tx)
      by by apply tryCompile_None.
    split_and!.
    + intros tx Htx%tryCompile_candidate. split; [by eapply Hsize | by right].
    + intros tx [_ Htx]. by destruct (Hno tx).
    + by intros tx _ Htx%tryCompile_candidate.
    + rewrite tryCompile_None. split; [| by intros [_ ?]].
      intros Hnone. split; [| done]. intros tx [_ Htx]. by destruct (Hno tx).
Qed.

(** The fallback on a concrete input: 1000 bytes of instructions with a
    300-byte table exceed the ceiling, without the table they fit; 1300
    bytes of instructions never fit. *)
Example createOptimizedTransaction_fallback :
  createOptimizedTransaction Sample.lib [Sample.ix 1000] [Sample.alt "T" 300] "bh"
  = Some Sample.unsigned_1000
  /\ createOptimizedTransaction Sample.lib [Sample.ix 1300] [Sample.alt "T" 300] "bh" = None.
Proof. split; vm_compute; reflexivity. Qed.

(** The theorem at that input: with the table the library compiles to
    1300 bytes, over the ceiling, so there is no candidate with the
    table; without it, to the 1000 bytes of [Sample.unsigned_1000], a
    candidate; hence the assembler returns [Sample.unsigned_1000]. *)
Lemma createOptimizedTransaction_witness :
  createOptimizedTransaction Sample.lib [Sample.ix 1000] [Sample.alt "T" 300] "bh"
  = Some Sample.unsigned_1000.
Proof.
  apply (proj1 (proj2 (proj2
           (createOptimizedTransaction_within_ceiling Sample.lib
              [Sample.ix 1000] [Sample.alt "T" 300] "bh")))).
  - intros tx' (_ & msgV0 & serialized & Hcompile & -> & Hser & Hlen).
    cbn in Hcompile. injection Hcompile as <-.
    cbn in Hser. injection Hser as <-.
    vm_compute in Hlen. lia.
  - exists (tx_message Sample.unsigned_1000), (Sample.bytes 1000).
    split_and!; [reflexivity | reflexivity | reflexivity |].
    vm_compute. lia.
Defined.

(** ** Lookup-Table Optimizer *)

Section Optimizer.
Context (lib : Web3).

Lemma collectAltSizes_acc allAlts seen altSizes :
  collectAltSizes lib allAlts seen altSizes
  = altSizes ++ collectAltSizes lib allAlts seen [].
Proof.
  revert seen altSizes. induction allAlts as [|tbl rest IH]; intros seen altSizes;
    cbn [collectAltSizes].
  - by rewrite app_nil_r.
  - destruct (decide (alt_key tbl ∈ seen)); [apply IH |].
    destruct (ALT_serialize lib tbl) as [serialized|e]; [| apply IH].
    rewrite (IH _ (altSizes ++ _)), (IH _ ([] ++ _)).
    by rewrite <- app_assoc.
Qed.

Lemma first_of_key_cons tbl rest i t :
  first_of_key (tbl :: rest) i t <->
  (i = 0%nat /\ t = tbl)
  \/ (exists i' : nat, i = S i' /\ alt_key tbl <> alt_key t /\ first_of_key rest i' t).
Proof.
  unfold first_of_key. split.
  - intros [Hi Hfirst]. destruct i as [|i'].
    + left. simpl in Hi. by injection Hi as <-.
    + right. exists i'. split_and!; [done | | done |].
      * apply (Hfirst 0%nat); [lia | done].
      * intros j t' Hj Hl. apply (Hfirst (S j)); [lia | done].
  - intros [[-> ->] | (i' & -> & Hne & Hi & Hfirst)].
    + split; [done | intros; lia].
    + split; [done |]. intros [|j] t' Hj Hl; simpl in Hl.
      * by injection Hl as <-.
      * apply (Hfirst j); [lia | done].
Qed.

(** The entries collected are the first tables of their keys, outside
    [seen], that serialize. *)
Lemma collectAltSizes_elem allAlts seen x :
  x ∈ collectAltSizes lib allAlts seen [] <->
  exists (i : nat) t n,
    x = entry_of t n
    /\ first_of_key allAlts i t
    /\ (alt_key t ∉ seen)
    /\ serializedSize lib t = Some n.
Proof.
  revert seen. induction allAlts as [|tbl rest IH]; intros seen; cbn [collectAltSizes].
  - split; [by intros ?%elem_of_nil | by intros (i & t & n & _ & [? _] & _)].
  - assert (Hlater : forall i t, first_of_key rest i t -> alt_key tbl <> alt_key t ->
                                 first_of_key (tbl :: rest) (S i) t).
    { intros i t Hi Hne. apply first_of_key_cons. right. by exists i. }
    assert (Hnew : forall k : string,
              (k ∉ seen ∪ {[alt_key tbl]}) <-> (k ∉ seen) /\ alt_key tbl <> k).
    { intros k. rewrite not_elem_of_union, not_elem_of_singleton.
      split; intros [? ?]; split; congruence. }
    destruct (decide (alt_key tbl ∈ seen)) as [Hin|Hnin].
    { rewrite IH. split.
      - intros (i & t & n & -> & Hi & Hns & Hsz).
        exists (S i), t, n. split_and!; [done | | done | done].
        apply Hlater; [done | congruence].
      - intros (i & t & n & -> & [[-> ->] | (i' & -> & Hne & Hi)]%first_of_key_cons
                & Hns & Hsz); [done |].
        by exists i', t, n. }
    unfold serializedSize in *.
    destruct (ALT_serialize lib tbl) as [serialized|e] eqn:Hser.
    + rewrite collectAltSizes_acc. cbn [app]. rewrite elem_of_cons, IH. split.
      * intros [-> | (i & t & n & -> & Hi & [Hns Hne]%Hnew & Hsz)].
        -- exists 0%nat, tbl, (length serialized). rewrite Hser.
           split_and!; [done | | done | done]. apply first_of_key_cons. by left.
        -- exists (S i), t, n. split_and!; [done | | done | done].
           by apply Hlater.
      * intros (i & t & n & -> & [[-> ->] | (i' & -> & Hne & Hi)]%first_of_key_cons
                & Hns & Hsz).
        -- left. rewrite Hser in Hsz. by injection Hsz as <-.
        -- right. exists i', t, n. split_and!; [done | done | by apply Hnew | done].
    + rewrite IH. split.
      * intros (i & t & n & -> & Hi & [Hns Hne]%Hnew & Hsz).
        exists (S i), t, n. split_and!; [done | | done | done].
        by apply Hlater.
      * intros (i & t & n & -> & [[-> ->] | (i' & -> & Hne & Hi)]%first_of_key_cons
                & Hns & Hsz).
        -- by rewrite Hser in Hsz.
        -- exists i', t, n. split_and!; [done | done | by apply Hnew | done].
Qed.

Lemma collectAltSizes_NoDup allAlts seen :
  NoDup (as_key <$> collectAltSizes lib allAlts seen []).
Proof.
  revert seen. induction allAlts as [|tbl rest IH]; intros seen; cbn [collectAltSizes].
  - constructor.
  - destruct (decide (alt_key tbl ∈ seen)) as [Hin|Hnin]; [apply IH |].
    destruct (ALT_serialize lib tbl) as [serialized|e]; [| apply IH].
    rewrite collectAltSizes_acc. cbn [app fmap list_fmap as_key].
    apply NoDup_cons. split; [| apply IH].
    intros (x & Hkey & (i & t & sz & -> & _ & Hns & _)%collectAltSizes_elem)%list_elem_of_fmap.
    simpl in Hkey. apply Hns, elem_of_union_r, elem_of_singleton. by rewrite Hkey.
Qed.

(** *** The sort *)

Lemma insertBySize_perm x l : insertBySize x l ≡ₚ x :: l.
Proof.
  induction l as [|y l IH]; cbn [insertBySize]; [done |].
  destruct (as_size x <? as_size y)%nat; [done |].
  rewrite IH. apply perm_swap.
Qed.

Lemma insertBySize_sorted x l :
  StronglySorted size_le l -> StronglySorted size_le (insertBySize x l).
Proof.
  induction 1 as [|y l Hl IH Hy]; cbn [insertBySize].
  - repeat constructor.
  - destruct (Nat.ltb_spec (as_size x) (as_size y)) as [Hlt|Hge].
    + constructor; [by constructor |].
      constructor; [unfold size_le; lia |].
      eapply Forall_impl; [exact Hy |]. unfold size_le. intros z Hz. simpl in Hz. lia.
    + constructor; [exact IH |].
      rewrite insertBySize_perm. by constructor.
Qed.

Lemma sortBySize_acc_perm l sorted : sortBySize_acc l sorted ≡ₚ l ++ sorted.
Proof.
  revert sorted. induction l as [|x l IH]; intros sorted; cbn [sortBySize_acc]; [done |].
  rewrite IH, insertBySize_perm. symmetry. apply Permutation_middle.
Qed.

Lemma sortBySize_acc_sorted l sorted :
  StronglySorted size_le sorted -> StronglySorted size_le (sortBySize_acc l sorted).
Proof.
  revert sorted. induction l as [|x l IH]; intros sorted Hs; cbn [sortBySize_acc]; [done |].
  by apply IH, insertBySize_sorted.
Qed.

Lemma sortBySize_perm l : sortBySize l ≡ₚ l.
Proof. unfold sortBySize. by rewrite sortBySize_acc_perm, app_nil_r. Qed.

Lemma sortBySize_sorted l : StronglySorted size_le (sortBySize l).
Proof. apply sortBySize_acc_sorted. constructor. Qed.

Lemma filter_size_above k l :
  Forall (λ z, (k < as_size z)%nat) l -> filter (λ z, as_size z = k) l = [].
Proof.
  induction 1 as [|z l Hz Hl IH]; [done |].
  rewrite filter_cons_False by lia. exact IH.
Qed.

(** The sort is stable: the entries of any one size keep their order. *)
Lemma insertBySize_stable k x l :
  StronglySorted size_le l ->
  filter (λ y, as_size y = k) (insertBySize x l)
  = filter (λ y, as_size y = k) l ++ filter (λ y, as_size y = k) [x].
Proof.
  induction 1 as [|y l Hl IH Hy]; cbn [insertBySize]; [done |].
  destruct (Nat.ltb_spec (as_size x) (as_size y)) as [Hlt|Hge].
  - destruct (decide (as_size x = k)) as [Hk|Hk].
    + assert (Hnone : filter (λ z, as_size z = k) (y :: l) = []).
      { apply filter_size_above. constructor; [lia |].
        eapply Forall_impl; [exact Hy |]. unfold size_le. intros z Hz. simpl in Hz. lia. }
      rewrite Hnone. cbn [app]. rewrite (filter_cons_True _ x) by done.
      by rewrite Hnone, filter_cons_True.
    + rewrite (filter_cons_False _ x) by done.
      rewrite (filter_cons_False _ x []) by done. by rewrite app_nil_r.
  - rewrite !(filter_cons _ y), IH. by destruct (decide (as_size y = k)).
Qed.

Lemma sortBySize_acc_stable k l sorted :
  StronglySorted size_le sorted ->
  filter (λ y, as_size y = k) (sortBySize_acc l sorted)
  = filter (λ y, as_size y = k) sorted ++ filter (λ y, as_size y = k) l.
Proof.
  revert sorted. induction l as [|x l IH]; intros sorted Hs; cbn [sortBySize_acc].
  - by rewrite app_nil_r.
  - rewrite IH by by apply insertBySize_sorted.
    rewrite insertBySize_stable by done.
    rewrite <- app_assoc. f_equal. symmetry. apply (filter_app _ [x] l).
Qed.

Lemma sortBySize_stable k l :
  filter (λ y, as_size y = k) (sortBySize l) = filter (λ y, as_size y = k) l.
Proof. unfold sortBySize. rewrite sortBySize_acc_stable; [done | constructor]. Qed.

End Optimizer.

(** C9: the tables of the two legs are merged buy leg first; of the tables
    sharing a key only the first counts, and it is dropped when it does
    not serialize; the result is at most two tables, each such a
    survivor, with distinct keys, in ascending serialized size, and every
    survivor left out is at least as large as each table returned (so
    nothing is left out while fewer than two are returned).  The function
    is total: it never fails. *)
Theorem optimizeAlts_smallest_two (lib : Web3)
    (alts1 alts2 : list AddressLookupTableAccount) :
  let allAlts := alts1 ++ alts2 in
  let result := optimizeAlts lib alts1 alts2 in
  (length result <= 2)%nat
  /\ (forall t, t ∈ result -> exists n, survivor lib allAlts t n)
  /\ (forall t n, survivor lib allAlts t n ->
        t ∈ result
        \/ (length result = 2%nat
            /\ forall r, r ∈ result ->
                 exists m, serializedSize lib r = Some m /\ (m <= n)%nat))
  /\ NoDup (alt_key <$> result)
  /\ StronglySorted (size_ascending lib) result.
Proof.
  intros allAlts result.
  set (entries := collectAltSizes lib allAlts ∅ []).
  set (sorted := sortBySize entries).
  assert (Hresult : result = as_alt <$> take 2 sorted) by done.
  assert (Hentry : forall x, x ∈ sorted ->
            exists t n, x = entry_of t n /\ survivor lib allAlts t n).
  { intros x Hx. subst sorted. rewrite sortBySize_perm in Hx.
    apply collectAltSizes_elem in Hx as (i & t & n & -> & Hi & _ & Hsz).
    exists t, n. split; [done | by exists i]. }
  assert (Htop : forall x, x ∈ take 2 sorted -> x ∈ sorted).
  { intros x. apply subseteq_take. }
  assert (Hsplit : StronglySorted size_le (take 2 sorted ++ drop 2 sorted)).
  { rewrite take_drop. apply sortBySize_sorted. }
  clearbody result. subst result.
  split_and!.
  - rewrite length_fmap, length_take. lia.
  - intros t (x & -> & Hx)%list_elem_of_fmap.
    destruct (Hentry x (Htop x Hx)) as (t & n & -> & Hsurv). by exists n.
  - intros t n (i & Hi & Hsz).
    assert (Hin : entry_of t n ∈ take 2 sorted ++ drop 2 sorted).
    { rewrite take_drop. subst sorted. rewrite sortBySize_perm.
      apply collectAltSizes_elem. exists i, t, n. split_and!; [done | done | | done].
      apply not_elem_of_empty. }
    apply elem_of_app in Hin as [Hin|Hin].
    + left. apply list_elem_of_fmap. by exists (entry_of t n).
    + right. split.
      * rewrite length_fmap, length_take.
        apply list_elem_of_lookup in Hin as [j Hj].
        apply lookup_lt_Some in Hj. rewrite length_drop in Hj. lia.
      * intros r (y & -> & Hy)%list_elem_of_fmap.
        pose proof (StronglySorted_app_1_elem_of _ _ _ _ _ Hsplit Hy Hin) as Hle.
        destruct (Hentry y (Htop y Hy)) as (t' & m & -> & (_ & _ & Hm)).
        exists m. split; [done | exact Hle].
  - assert (Hkeys : alt_key <$> (as_alt <$> take 2 sorted) = as_key <$> take 2 sorted).
    { rewrite <- list_fmap_compose. apply Forall_fmap_ext_1, Forall_forall.
      intros x Hx. by destruct (Hentry x (Htop x Hx)) as (t & n & -> & _). }
    rewrite Hkeys. apply (sublist_NoDup _ (as_key <$> sorted)).
    + subst sorted. rewrite sortBySize_perm. apply collectAltSizes_NoDup.
    + apply fmap_sublist, sublist_take.
  - apply StronglySorted_app_1_l in Hsplit.
    induction Hsplit as [|x l Hl IH Hx]; [constructor |].
    cbn [fmap list_fmap]. constructor.
    + apply IH. intros y Hy. apply Htop. by right.
    + apply Forall_fmap, Forall_forall. intros y Hy.
      assert (Hxs : x ∈ x :: l) by left.
      assert (Hys : y ∈ x :: l) by by right.
      destruct (Hentry x (Htop x Hxs)) as (tx & nx & -> & (_ & _ & Hnx)).
      destruct (Hentry y (Htop y Hys)) as (ty & ny & -> & (_ & _ & Hny)).
      exists nx, ny. split_and!; [done | done |].
      rewrite Forall_forall in Hx. exact (Hx _ Hy).
Qed.

(** The sizes of the specification's example: 500, 50 and 10 survive (the
    9999-byte table was discarded before), 10 and 50 are returned in that
    order; a later table of a key already met does not count. *)
Example optimizeAlts_example :
  optimizeAlts Sample.lib [Sample.alt "A" 500; Sample.alt "B" 50]
                          [Sample.alt "A" 5; Sample.alt "C" 10]
  = [Sample.alt "C" 10; Sample.alt "B" 50].
Proof. vm_compute. reflexivity. Qed.

(** The theorem at that input: table A (500 bytes) survives and is left
    out, so two tables are returned and each is at most 500 bytes. *)
Lemma optimizeAlts_witness :
  survivor Sample.lib
    ([Sample.alt "A" 500; Sample.alt "B" 50] ++ [Sample.alt "A" 5; Sample.alt "C" 10])
    (Sample.alt "A" 500) 500
  /\ (Sample.alt "A" 500
        ∈ optimizeAlts Sample.lib [Sample.alt "A" 500; Sample.alt "B" 50]
            [Sample.alt "A" 5; Sample.alt "C" 10]
      \/ (length (optimizeAlts Sample.lib [Sample.alt "A" 500; Sample.alt "B" 50]
                    [Sample.alt "A" 5; Sample.alt "C" 10]) = 2%nat
          /\ forall r,
               r ∈ optimizeAlts Sample.lib [Sample.alt "A" 500; Sample.alt "B" 50]
                     [Sample.alt "A" 5; Sample.alt "C" 10] ->
               exists m, serializedSize Sample.lib r = Some m /\ (m <= 500)%nat)).
Proof.
  assert (Hsurvivor :
    survivor Sample.lib
      ([Sample.alt "A" 500; Sample.alt "B" 50] ++ [Sample.alt "A" 5; Sample.alt "C" 10])
      (Sample.alt "A" 500) 500).
  { exists 0%nat. split; [split; [reflexivity | intros j t' Hj; lia] |].
    vm_compute. reflexivity. }
  split; [exact Hsurvivor |].
  exact (proj1 (proj2 (proj2
           (optimizeAlts_smallest_two Sample.lib
              [Sample.alt "A" 500; Sample.alt "B" 50]
              [Sample.alt "A" 5; Sample.alt "C" 10]))) _ _ Hsurvivor).
Defined.

(** ** The monad *)

Lemma bind_run {A B} (m : M A) (f : A -> M B) h :
  (m ≫= f) h
  = match m h with
    | (Ok a, es) => let (r, es') := f a (h ++ es) in (r, es ++ es')
    | (Throw e, es) => (Throw e, es)
    end.
Proof. reflexivity. Qed.

Lemma lift_bind_run {A B} (r : Res A) (f : A -> M B) h :
  (lift r ≫= f) h
  = match r with
    | Ok a => f a h
    | Throw e => (Throw (ErrorObject e), [])
    end.
Proof.
  rewrite bind_run. unfold lift. destruct r as [a|e]; [| done].
  cbn. rewrite app_nil_r. by destruct (f a h).
Qed.

Lemma emit_bind_run {B} (ev : Event) (f : unit -> M B) h :
  (emit ev ≫= f) h = let (r, es) := f () (h ++ [ev]) in (r, ev :: es).
Proof. rewrite bind_run. unfold emit. reflexivity. Qed.

Lemma ret_bind_run {A B} (a : A) (f : A -> M B) h :
  (mret a ≫= f) h = f a h.
Proof.
  rewrite bind_run. unfold mret, M_ret. rewrite app_nil_r. by destruct (f a h).
Qed.

Lemma throw_bind_run {A B} (e : Thrown) (f : A -> M B) h :
  (throw e ≫= f) h = (Throw e, []).
Proof. reflexivity. Qed.

(** A [catch] that starts with [error.message]. *)
Lemma read_message_bind_run {B} (error : Thrown) (f : string -> M B) h :
  (read_message error ≫= f) h
  = match message error with
    | Ok m => f m h
    | Throw type_error => (Throw (ErrorObject type_error), [])
    end.
Proof. apply lift_bind_run. Qed.

Lemma message_Ok error m : message error = Ok m <-> error = ErrorObject m.
Proof. destruct error; cbn; split; intros [=]; by subst. Qed.

(** *** What a computation emits *)

Lemma emits_ret {A} P (a : A) : emits P (mret a).
Proof. intros h. constructor. Qed.

Lemma emits_throw {A} P e : emits P (@throw A e).
Proof. intros h. constructor. Qed.

Lemma emits_lift {A} P (r : Res A) : emits P (lift r).
Proof. intros h. constructor. Qed.

Lemma emits_read_message P error : emits P (read_message error).
Proof. apply emits_lift. Qed.

Lemma emits_emit P ev : P ev -> emits P (emit ev).
Proof. intros Hev h. by repeat constructor. Qed.

Lemma emits_call {A} P (oracle : list Event -> Await A) ev :
  (forall r, P (ev r)) -> emits P (call oracle ev).
Proof. intros Hev h. by repeat constructor. Qed.

Lemma emits_bind {A B} P (m : M A) (f : A -> M B) :
  emits P m -> (forall a, emits P (f a)) -> emits P (m ≫= f).
Proof.
  intros Hm Hf h. rewrite bind_run. specialize (Hm h).
  destruct (m h) as [[a|e] es]; [| done].
  specialize (Hf a (h ++ es)). destruct (f a (h ++ es)) as [r es'].
  by apply Forall_app.
Qed.

Lemma emits_try_catch {A} P (m : M A) (handler : Thrown -> M A) :
  emits P m -> (forall e, emits P (handler e)) -> emits P (try_catch m handler).
Proof.
  intros Hm Hh h. unfold try_catch. specialize (Hm h).
  destruct (m h) as [[a|e] es]; [done |].
  specialize (Hh e (h ++ es)). destruct (handler e (h ++ es)) as [r es'].
  by apply Forall_app.
Qed.

Lemma emits_impl {A} (P Q : Event -> Prop) (m : M A) :
  (forall ev, P ev -> Q ev) -> emits P m -> emits Q m.
Proof. intros HPQ Hm h. eapply Forall_impl; [apply Hm | done]. Qed.

Lemma backoff_turn retries i fuel :
  retries = (i + S fuel)%nat -> (i =? retries - 1)%nat = false ->
  backoff retries (1000 * (Z.of_nat i + 1)).
Proof.
  intros -> Hne%Nat.eqb_neq. exists (S i). split; [lia |]. lia.
Qed.

Ltac run_events :=
  unfold console, sleep; repeat (rewrite emit_bind_run; cbn);
  rewrite <- ?app_assoc; cbn.

(** *** The calls a computation records *)

Section Answers.
Context (env : Env).

Lemma answered_app h es1 es2 :
  answered env h (es1 ++ es2) <-> answered env h es1 /\ answered env (h ++ es1) es2.
Proof.
  revert h. induction es1 as [|ev es1 IH]; intros h; cbn [app answered].
  - rewrite app_nil_r. tauto.
  - rewrite IH, <- app_assoc. cbn [app]. tauto.
Qed.

Lemma answers_ret {A} (a : A) : answers env (mret a).
Proof. by intros h. Qed.

Lemma answers_throw {A} e : answers env (@throw A e).
Proof. by intros h. Qed.

Lemma answers_lift {A} (r : Res A) : answers env (lift r).
Proof. by intros h. Qed.

Lemma answers_emit ev :
  (forall h, answered_at env h ev) -> answers env (emit ev).
Proof. intros Hev h. cbn. by split. Qed.

Lemma answers_call {A} (oracle : list Event -> Await A) ev :
  (forall h, answered_at env h (ev (oracle h))) -> answers env (call oracle ev).
Proof. intros Hev h. cbn. by split. Qed.

Lemma answers_bind {A B} (m : M A) (f : A -> M B) :
  answers env m -> (forall a, answers env (f a)) -> answers env (m ≫= f).
Proof.
  intros Hm Hf h. rewrite bind_run. specialize (Hm h).
  destruct (m h) as [[a|e] es]; [| done].
  specialize (Hf a (h ++ es)). destruct (f a (h ++ es)) as [r es'].
  by apply answered_app.
Qed.

Lemma answers_try_catch {A} (m : M A) (handler : Thrown -> M A) :
  answers env m -> (forall e, answers env (handler e)) ->
  answers env (try_catch m handler).
Proof.
  intros Hm Hh h. unfold try_catch. specialize (Hm h).
  destruct (m h) as [[a|e] es]; [done |].
  specialize (Hh e (h ++ es)). destruct (handler e (h ++ es)) as [r es'].
  by apply answered_app.
Qed.

End Answers.

(** ** The retry loops

    The three retry loops of the program share their shape: an attempt
    that returns ends the loop; an attempt that throws gets to the
    [catch], which reads the message of what was thrown, rethrows it when
    the attempt is the last, and otherwise sleeps and goes on. *)

Lemma retry_trace_cons {A} (ev : A -> list Event) r answers i :
  answers <> [] ->
  retry_trace ev (r :: answers) i
  = ev r ++ ESleep (1000 * (Z.of_nat i + 1)) :: retry_trace ev answers (S i).
Proof. by destruct answers. Qed.

Lemma retry_trace_snoc {A} (ev : A -> list Event) attempts a i :
  exists pre, retry_trace ev (attempts ++ [a]) i = pre ++ ev a.
Proof.
  revert i. induction attempts as [|a' attempts IH]; intros i.
  - exists []. cbn. by rewrite app_nil_r.
  - destruct (IH (S i)) as [pre Hpre].
    exists (ev a' ++ ESleep (1000 * (Z.of_nat i + 1)) :: pre).
    cbn [app]. rewrite retry_trace_cons by by destruct attempts.
    rewrite Hpre. by rewrite <- app_assoc.
Qed.

Section RetryLoop.
Context {A B : Type} (retries : nat).
Context (loop : nat -> nat -> M (option B)).
Context (attempt_at : list Event -> A) (events : A -> list Event)
  (outcome : A -> Await B).

Local Abbreviation retry_turns := (retry_turns retries loop attempt_at events outcome).
Local Abbreviation retry_policy := (retry_policy attempt_at events outcome).

Lemma retry_loop_policy fuel i h :
  retry_turns ->
  retries = (i + fuel)%nat ->
  retry_policy fuel i (loop i fuel h).1 (loop i fuel h).2.
Proof.
  intros [Hzero Hturn]. revert i h.
  induction fuel as [|fuel IH]; intros i h Hretries.
  { rewrite Hzero. by exists []. }
  rewrite Hturn. cbn zeta.
  set (a := attempt_at h).
  assert (Ha : exists h', a = attempt_at h') by by exists h.
  destruct (outcome a) as [b|error] eqn:Hout.
  { exists [a]. cbn [fst snd retry_trace]. rewrite app_nil_r.
    split_and!; [done | by constructor |].
    exists [], a. split_and!; [done | done | done | cbn; lia]. }
  destruct (message error) as [m|type_error] eqn:Hmessage.
  2:{ exists [a]. cbn [fst snd retry_trace]. rewrite app_nil_r.
      split_and!; [done | by constructor |].
      exists [], a, error. split_and!; [done | done | done | | cbn; lia].
      unfold gives_up. by rewrite Hmessage. }
  destruct (Nat.eqb_spec i (retries - 1)) as [Hlast|Hmore].
  { exists [a]. cbn [fst snd retry_trace]. rewrite app_nil_r.
    split_and!; [done | by constructor |].
    exists [], a, error. split_and!; [done | done | done | | cbn; lia].
    unfold gives_up. rewrite Hmessage. split; [cbn; lia | done]. }
  specialize (IH (S i) (h ++ events a ++ [ESleep (1000 * (Z.of_nat i + 1))])).
  destruct (loop (S i) fuel _) as [result es]. cbn [fst snd] in *.
  destruct IH as (attempts & Htrace & Hat & Hresult); [lia |].
  assert (Hretried : retried (outcome a)) by (rewrite Hout; by exists error, m).
  assert (Hne : attempts <> []).
  { intros ->. destruct result as [[b|]|e].
    - destruct Hresult as (failures & a' & Heq & _). by destruct failures.
    - destruct Hresult as [-> _]. lia.
    - destruct Hresult as (failures & a' & error' & Heq & _). by destruct failures. }
  exists (a :: attempts). split_and!.
  - by rewrite retry_trace_cons, Htrace.
  - by constructor.
  - destruct result as [[b|]|e].
    + destruct Hresult as (failures & a' & -> & Hfailures & Hb & Hlen).
      exists (a :: failures), a'. split_and!; [done | by constructor | done |].
      cbn [length] in *. lia.
    + by destruct Hresult as [_ ->].
    + destruct Hresult as (failures & a' & error' & -> & Hfailures & Herr & Hgive & Hlen).
      exists (a :: failures), a', error'.
      split_and!; [done | by constructor | done | | cbn [length] in *; lia].
      unfold gives_up in *. destruct (message error'); [| done].
      destruct Hgive as [Hn ->]. split; [| done]. cbn [length] in *. lia.
Qed.

End RetryLoop.

Lemma sleeps_app es1 es2 : sleeps (es1 ++ es2) = sleeps es1 ++ sleeps es2.
Proof. apply omap_app. Qed.

Lemma sleeps_retry_trace {A} (ev : A -> list Event) (attempts : list A) (i : nat) :
  (forall a, sleeps (ev a) = []) ->
  sleeps (retry_trace ev attempts i)
  = (λ k : nat, 1000 * Z.of_nat k) <$> seq (S i) (length attempts - 1).
Proof.
  intros Hev. revert i. induction attempts as [|a attempts IH]; intros i; [done |].
  destruct attempts as [|a' attempts].
  { cbn [retry_trace]. by rewrite app_nil_r, Hev. }
  rewrite retry_trace_cons, sleeps_app, Hev by done.
  unfold sleeps in *. cbn [omap list_omap app]. rewrite IH.
  cbn [length]. replace (S (S (length attempts)) - 1)%nat with (S (length attempts)) by lia.
  replace (S (length attempts) - 1)%nat with (length attempts) by lia.
  cbn [seq fmap list_fmap]. do 2 f_equal. lia.
Qed.

(** What a trace of attempts holds of one kind of event, sleeps apart. *)
Lemma omap_retry_trace {A B} (f : Event -> option B) (ev : A -> list Event)
    (attempts : list A) (i : nat) :
  (forall ms, f (ESleep ms) = None) ->
  omap f (retry_trace ev attempts i) = attempts ≫= (λ a, omap f (ev a)).
Proof.
  intros Hsleep. revert i. induction attempts as [|a attempts IH]; intros i; [done |].
  destruct attempts as [|a' attempts].
  { cbn [retry_trace]. by rewrite !app_nil_r, bind_cons, app_nil_r. }
  rewrite retry_trace_cons, omap_app by done. cbn [omap list_omap].
  rewrite Hsleep, IH. by rewrite bind_cons.
Qed.

(** A trace of attempts of one call each holds the answers in order. *)
Lemma omap_retry_trace_one {A} (f : Event -> option A) (ev : A -> list Event)
    (attempts : list A) (i : nat) :
  (forall ms, f (ESleep ms) = None) ->
  (forall a, omap f (ev a) = [a]) ->
  omap f (retry_trace ev attempts i) = attempts.
Proof.
  intros Hsleep Hone. rewrite omap_retry_trace by done.
  induction attempts as [|a attempts IH]; [done |].
  by rewrite bind_cons, Hone, IH.
Qed.

(** ** Quote Client *)

Section QuoteClient.
Context (env : Env) (inputMint outputMint : string) (amount : Amount) (retries : nat).

Local Abbreviation attempt := (EQuote inputMint outputMint amount).
Local Abbreviation attempt1 := (quote_attempt inputMint outputMint amount).
Local Abbreviation loop := (getQuote_loop env inputMint outputMint amount retries).
Local Abbreviation asked := (λ h, env_quote env h inputMint outputMint amount).

(** The loop of [getQuote] is a retry loop whose attempt is one call. *)
Lemma getQuote_loop_turns :
  retry_turns retries loop asked attempt1 quote_outcome.
Proof.
  split; [done |]. intros i fuel h.
  cbn [getQuote_loop]. rewrite bind_run.
  unfold try_catch. rewrite bind_run. unfold call at 1. cbn zeta.
  unfold quote_attempt.
  destruct (env_quote env h inputMint outputMint amount) as [[res|]|e];
    cbn [quote_outcome]; [done | |].
  - cbn. rewrite read_message_bind_run. cbn.
    destruct (i =? retries - 1)%nat; cbn; [done |].
    rewrite bind_run; unfold sleep, emit; cbn.
    by destruct (getQuote_loop _ _ _ _ _ _ _ _).
  - cbn. rewrite read_message_bind_run.
    destruct (message e); [| done].
    destruct (i =? retries - 1)%nat; cbn; [done |].
    rewrite bind_run; unfold sleep, emit; cbn.
    by destruct (getQuote_loop _ _ _ _ _ _ _ _).
Qed.

Lemma getQuote_loop_answers fuel i : answers env (loop i fuel).
Proof.
  revert i. induction fuel as [|fuel IH]; intros i;
    cbn [getQuote_loop]; [apply answers_ret |].
  apply answers_bind.
  - apply answers_try_catch.
    + apply answers_bind; [by apply answers_call |].
      intros [res|]; [apply answers_ret | apply answers_throw].
    + intros e. apply answers_bind; [apply answers_lift |]. intros _.
      destruct (i =? retries - 1)%nat; [apply answers_throw |].
      apply answers_bind; [by apply answers_emit | intros; apply answers_ret].
  - intros [res|]; [apply answers_ret | apply IH].
Qed.

Lemma quote_answers_retry_trace attempts i :
  quote_answers (retry_trace attempt1 attempts i) = attempts.
Proof. by apply omap_retry_trace_one. Qed.

(** The attempts of a call of the loop, read off its trace. *)
Lemma getQuote_loop_policy fuel i h :
  retries = (i + fuel)%nat ->
  let '(result, es) := loop i fuel h in
  let answers := quote_answers es in
  es = retry_trace attempt1 answers i
  /\ match result with
     | Ok (Some q) =>
         exists failures r,
           answers = failures ++ [r]
           /\ Forall (λ r, retried (quote_outcome r)) failures
           /\ quote_outcome r = Ok q
           /\ (length answers <= fuel)%nat
     | Throw e =>
         exists failures r error,
           answers = failures ++ [r]
           /\ Forall (λ r, retried (quote_outcome r)) failures
           /\ quote_outcome r = Throw error
           /\ gives_up fuel (length answers) error e
           /\ (length answers <= fuel)%nat
     | Ok None => fuel = 0%nat /\ es = []
     end.
Proof.
  intros Hretries.
  pose proof (retry_loop_policy retries loop asked attempt1 quote_outcome fuel i h
                getQuote_loop_turns Hretries) as Hpolicy.
  destruct (loop i fuel h) as [result es]. cbn [fst snd] in Hpolicy. cbn zeta.
  destruct Hpolicy as (attempts & -> & _ & Hresult).
  rewrite quote_answers_retry_trace. split; [done |].
  destruct result as [[q|]|e]; [done | | done].
  by destruct Hresult as [-> ->].
Qed.

End QuoteClient.

Lemma getQuote_answers env inputMint outputMint amount retries :
  answers env (getQuote env inputMint outputMint amount retries).
Proof. apply getQuote_loop_answers. Qed.



(** X12: the retry policy of the Quote Client.  The trace of a call is
    its attempts in order, one call of the pricing service each, every
    call carrying what the service answers at its point of the history,
    each attempt but the last followed by a sleep of 1000 ms times its
    number; there are at most [retries] attempts.  Every attempt before
    the last threw a value whose message can be read (an error, or the
    error for a body without [outAmount]).  A quote is returned from the
    last answer.  The call throws when its last attempt threw: the value
    thrown there, after exactly [retries] attempts, when its message can
    be read; the [TypeError] of reading the message of [null] or
    [undefined], at once, when it cannot. *)
Theorem getQuote_retry_policy (env : Env) (inputMint outputMint : string)
    (amount : Amount) (retries : nat) (h : list Event) :
  let '(result, es) := getQuote env inputMint outputMint amount retries h in
  let answers := quote_answers es in
  es = retry_trace (quote_attempt inputMint outputMint amount) answers 0
  /\ answered env h es
  /\ sleeps es = (λ k : nat, 1000 * Z.of_nat k) <$> seq 1 (length answers - 1)
  /\ (length answers <= retries)%nat
  /\ match result with
     | Ok (Some q) =>
         exists failures r,
           answers = failures ++ [r]
           /\ Forall (λ r, retried (quote_outcome r)) failures
           /\ quote_outcome r = Ok q
     | Throw e =>
         exists failures r error,
           answers = failures ++ [r]
           /\ Forall (λ r, retried (quote_outcome r)) failures
           /\ quote_outcome r = Throw error
           /\ gives_up retries (length answers) error e
     | Ok None => retries = 0%nat /\ es = []
     end.
Proof.
  pose proof (getQuote_loop_policy env inputMint outputMint amount retries
                retries 0 h eq_refl) as Hloop.
  pose proof (getQuote_answers env inputMint outputMint amount retries h) as Hanswered.
  unfold getQuote in *.
  destruct (getQuote_loop _ _ _ _ _ _ _ _) as [result es].
  cbn zeta in *. cbn [snd] in Hanswered. destruct Hloop as [Htrace Hresult].
  split; [done |]. split; [done |]. split.
  { rewrite Htrace at 1. by apply sleeps_retry_trace. }
  destruct result as [[q|]|e].
  - destruct Hresult as (failures & r & Hanswers & Hfailures & Hout & Hlen).
    split; [done |]. by exists failures, r.
  - destruct Hresult as [-> ->]. done.
  - destruct Hresult as (failures & r & error & Hanswers & Hfailures & Hout & Hgive & Hlen).
    split; [done |]. by exists failures, r, error.
Qed.

(** With the pricing service down and three attempts allowed: three
    attempts, sleeps of 1000 and 2000 ms between them, then the error. *)
Example getQuote_pricing_down :
  getQuote Sample.pricing_down USDC_MINT WSOL_MINT (AInt 10000000) 3 []
  = (Throw (ErrorObject "fetch failed"),
     [ EQuote USDC_MINT WSOL_MINT (AInt 10000000) (Throw (ErrorObject "fetch failed"));
       ESleep 1000;
       EQuote USDC_MINT WSOL_MINT (AInt 10000000) (Throw (ErrorObject "fetch failed"));
       ESleep 2000;
       EQuote USDC_MINT WSOL_MINT (AInt 10000000) (Throw (ErrorObject "fetch failed")) ]).
Proof. vm_compute. reflexivity. Qed.

(** ** Submission Pipeline *)

Section Submission.
Context (env : Env) (tx : VersionedTransaction) (retries : nat).

Local Abbreviation send_loop := (sendTransactionWithSimulation_loop env tx retries).

Lemma attempt_at_error h r :
  attempt_at env tx h = SimulationFailed r -> simulation_ok r = false.
Proof.
  unfold attempt_at. destruct (simulation_ok _) eqn:Hok.
  - by destruct (env_sendTransaction _ _ _).
  - by intros [= <-].
Qed.

(** What [simulateTransaction] returns or throws, by the answer of the
    node: a rejection with [null] or [undefined] gets out of its [catch]
    as a [TypeError]. *)
Lemma simulateTransaction_run h :
  simulateTransaction env tx h
  = let r := env_simulateTransaction env h tx in
    (match r with
     | Ok None => Ok true
     | Ok (Some _) => Ok false
     | Throw error =>
         match message error with
         | Ok _ => Ok false
         | Throw type_error => Throw (ErrorObject type_error)
         end
     end, [ESimulate tx r]).
Proof.
  unfold simulateTransaction, try_catch. rewrite bind_run. unfold call. cbn zeta.
  destruct (env_simulateTransaction env h tx) as [[err|]|e]; cbn; [done | done |].
  rewrite read_message_bind_run. by destruct (message e).
Qed.

(** The loop of the pipeline is a retry loop whose attempt is a
    simulation and, when it passes, a broadcast. *)
Lemma sendTransactionWithSimulation_loop_turns :
  retry_turns retries send_loop (attempt_at env tx) (submit_attempt tx) attempt_outcome.
Proof.
  split; [done |]. intros i fuel h.
  cbn [sendTransactionWithSimulation_loop]. rewrite bind_run.
  unfold try_catch. rewrite bind_run, simulateTransaction_run. cbn zeta.
  unfold attempt_at.
  destruct (env_simulateTransaction env h tx) as [[err|]|e] eqn:Hsim;
    cbn [simulation_ok negb attempt_outcome simulation_error submit_attempt message].
  - cbn. destruct (i =? retries - 1)%nat eqn:Hlast; cbn.
    + by rewrite read_message_bind_run.
    + rewrite bind_run; unfold sleep, emit; cbn.
      by destruct (sendTransactionWithSimulation_loop _ _ _ _ _ _).
  - cbn. rewrite bind_run. unfold call at 1. cbn zeta.
    destruct (env_sendTransaction env (h ++ [ESimulate tx (Ok None)]) tx) as [txid|e];
      cbn [attempt_outcome submit_attempt]; [done |].
    cbn. rewrite read_message_bind_run.
    destruct (message e); [| done].
    destruct (i =? retries - 1)%nat; cbn; [done |].
    rewrite bind_run; unfold sleep, emit; cbn.
    by destruct (sendTransactionWithSimulation_loop _ _ _ _ _ _).
  - destruct (message e) as [m|type_error] eqn:Hmessage.
    + cbn. destruct (i =? retries - 1)%nat eqn:Hlast; cbn.
      * by rewrite read_message_bind_run.
      * rewrite bind_run; unfold sleep, emit; cbn.
        by destruct (sendTransactionWithSimulation_loop _ _ _ _ _ _).
    + cbn. rewrite read_message_bind_run. cbn.
      destruct (i =? retries - 1)%nat; cbn; [done |].
      rewrite bind_run; unfold sleep, emit; cbn.
      by destruct (sendTransactionWithSimulation_loop _ _ _ _ _ _).
Qed.

Lemma simulateTransaction_answers : answers env (simulateTransaction env tx).
Proof.
  apply answers_try_catch.
  - apply answers_bind; [by apply answers_call |].
    intros [err|]; apply answers_ret.
  - intros e. apply answers_bind; [apply answers_lift | intros; apply answers_ret].
Qed.

Lemma sendTransactionWithSimulation_loop_answers fuel i : answers env (send_loop i fuel).
Proof.
  revert i. induction fuel as [|fuel IH]; intros i;
    cbn [sendTransactionWithSimulation_loop]; [apply answers_ret |].
  apply answers_bind.
  - apply answers_try_catch.
    + apply answers_bind; [apply simulateTransaction_answers |].
      intros [|]; cbn [negb].
      * apply answers_bind; [by apply answers_call | intros; apply answers_ret].
      * destruct (i =? retries - 1)%nat; [apply answers_throw |].
        apply answers_bind; [by apply answers_emit | intros; apply answers_ret].
    + intros e. apply answers_bind; [apply answers_lift |]. intros _.
      destruct (i =? retries - 1)%nat; [apply answers_throw |].
      apply answers_bind; [by apply answers_emit | intros; apply answers_ret].
  - intros [txid|]; [apply answers_ret | apply IH].
Qed.

Lemma attempt_at_failed h :
  simulation_ok (env_simulateTransaction env h tx) = false ->
  attempt_at env tx h = SimulationFailed (env_simulateTransaction env h tx).
Proof. unfold attempt_at. by intros ->. Qed.

(** What an attempt made at some history threw is its error. *)
Lemma attempt_at_outcome a error :
  (exists h', a = attempt_at env tx h') ->
  attempt_outcome a = Throw error -> attempt_error a = Some error.
Proof.
  intros [h' ->]. destruct (attempt_at env tx h') as [r|e|txid] eqn:Ha;
    cbn; [| by intros [= ->] | done].
  apply attempt_at_error in Ha. rewrite Ha. by intros [= <-].
Qed.

Lemma attempt_at_retried a :
  (exists h', a = attempt_at env tx h') ->
  retried (attempt_outcome a) -> attempt_retried a.
Proof.
  intros Ha (error & m & Hout & Hmessage). exists error, m.
  split; [by apply attempt_at_outcome | done].
Qed.

Lemma attempt_outcome_Ok a txid : attempt_outcome a = Ok txid -> a = Sent txid.
Proof. destruct a; cbn; [done | done | by intros [= ->]]. Qed.

(** A turn starts with a simulation, and what follows it is a broadcast
    exactly when the simulation passed. *)
Lemma sendTransactionWithSimulation_loop_first i fuel h :
  let r := env_simulateTransaction env h tx in
  exists rest,
    (send_loop i (S fuel) h).2 = ESimulate tx r :: rest
    /\ (simulation_ok r = true <-> exists rb rest', rest = ESend tx rb :: rest').
Proof.
  intros r. rewrite (proj2 sendTransactionWithSimulation_loop_turns). cbn zeta.
  destruct (simulation_ok r) eqn:Hok.
  - assert (Hr : r = Ok None) by by destruct r as [[?|]|?].
    unfold attempt_at. fold r. rewrite Hok, Hr.
    destruct (env_sendTransaction env _ tx) as [txid|error]; cbn.
    + eexists. split; [done |]. split; [by eexists _, _ | done].
    + destruct (message error).
      * destruct (Nat.eqb _ _).
        -- eexists. split; [done |]. split; [by eexists _, _ | done].
        -- destruct (send_loop _ _ _). eexists. split; [done |].
           split; [by eexists _, _ | done].
      * eexists. split; [done |]. split; [by eexists _, _ | done].
  - rewrite attempt_at_failed by done. fold r. cbn.
    destruct (Nat.eqb _ _).
    + eexists. split; [done |]. split; [done | by intros (rb & rest' & [=])].
    + destruct (send_loop _ _ _). eexists. split; [done |].
      split; [done | by intros (rb & rest' & [=])].
Qed.

(** The attempts of a call of the loop. *)
Lemma sendTransactionWithSimulation_loop_policy fuel i h :
  retries = (i + fuel)%nat ->
  let '(result, es) := send_loop i fuel h in
  exists attempts,
    es = retry_trace (submit_attempt tx) attempts i
    /\ match result with
       | Ok (Some txid) =>
           exists failures,
             attempts = failures ++ [Sent txid]
             /\ Forall attempt_retried failures /\ (length attempts <= fuel)%nat
       | Throw e =>
           exists failures a error,
             attempts = failures ++ [a]
             /\ Forall attempt_retried failures /\ attempt_error a = Some error
             /\ gives_up fuel (length attempts) error e
             /\ (length attempts <= fuel)%nat
       | Ok None => fuel = 0%nat /\ attempts = []
       end.
Proof.
  intros Hretries.
  pose proof (retry_loop_policy retries send_loop (attempt_at env tx) (submit_attempt tx)
                attempt_outcome fuel i h
                sendTransactionWithSimulation_loop_turns Hretries) as Hpolicy.
  destruct (send_loop i fuel h) as [result es]. cbn [fst snd] in Hpolicy.
  destruct Hpolicy as (attempts & -> & Hat & Hresult).
  exists attempts. split; [done |].
  assert (Hretried : forall failures a,
            attempts = failures ++ [a] ->
            Forall (λ a, retried (attempt_outcome a)) failures ->
            Forall attempt_retried failures
            /\ exists h', a = attempt_at env tx h').
  { intros failures a -> Hfailures.
    apply Forall_app in Hat as [Hat [Ha _]%Forall_cons]. split; [| done].
    clear -Hat Hfailures.
    induction Hfailures as [|a' failures Ha' _ IH]; [done |].
    apply Forall_cons in Hat as [Hh Hat].
    constructor; [by apply attempt_at_retried | by apply IH]. }
  destruct result as [[txid|]|e]; [| done |].
  - destruct Hresult as (failures & a & Hattempts & Hfailures & Hout & Hlen).
    destruct (Hretried _ _ Hattempts Hfailures) as [Hf _].
    apply attempt_outcome_Ok in Hout as ->. by exists failures.
  - destruct Hresult as (failures & a & error & Hattempts & Hfailures & Hout & Hgive & Hlen).
    destruct (Hretried _ _ Hattempts Hfailures) as [Hf Ha].
    exists failures, a, error.
    split_and!; [done | done | by apply attempt_at_outcome | done | done].
Qed.

End Submission.

Lemma sendTransactionWithSimulation_answers env tx retries :
  answers env (sendTransactionWithSimulation env tx retries).
Proof. apply sendTransactionWithSimulation_loop_answers. Qed.

Lemma elem_of_submit_attempt tx a tx' r :
  ESend tx' r ∈ submit_attempt tx a -> tx' = tx.
Proof.
  destruct a; cbn; intros Hin;
    repeat (apply elem_of_cons in Hin as [Hin|Hin]; [by simplify_eq |]);
    by apply elem_of_nil in Hin.
Qed.

Lemma simulated_before_send_retry_trace tx attempts i prev :
  simulated_before_send prev (retry_trace (submit_attempt tx) attempts i).
Proof.
  revert i prev. induction attempts as [|a attempts IH]; intros i prev; [done |].
  destruct attempts as [|a' attempts].
  { cbn [retry_trace]. rewrite app_nil_r. by destruct a. }
  rewrite retry_trace_cons by done.
  destruct a; cbn [submit_attempt app simulated_before_send]; split_and!; try done;
    apply IH.
Qed.

Lemma simulated_before_send_split prev pre tx r post :
  simulated_before_send prev (pre ++ ESend tx r :: post) ->
  (pre = [] /\ prev = Some (ESimulate tx (Ok None)))
  \/ exists pre', pre = pre' ++ [ESimulate tx (Ok None)].
Proof.
  revert prev. induction pre as [|ev pre IH]; intros prev; cbn.
  - intros [Hprev _]. by left.
  - intros [_ Hrest]. right.
    destruct (IH _ Hrest) as [[-> [= ->]] | [pre' ->]].
    + by exists [].
    + by exists (ev :: pre').
Qed.



Example sendTransactionWithSimulation_fails_once :
  sendTransactionWithSimulation Sample.simulation_fails_once Sample.tx 3 []
  = (Ok (Some "signature"),
     [ ESimulate Sample.tx (Ok (Some "custom program error"));
       ESleep 1000;
       ESimulate Sample.tx (Ok None);
       ESend Sample.tx (Ok "signature") ]).
Proof. vm_compute. reflexivity. Qed.

(** ** Instruction Builder: the retry loop *)

(** The lines of the console are no calls. *)
Lemma omap_logs {B} (f : Event -> option B) (lines : list LogMsg) :
  (forall line, f (ELog line) = None) -> omap f (ELog <$> lines) = [].
Proof.
  intros Hlog. induction lines as [|line lines IH]; [done |].
  cbn. by rewrite Hlog.
Qed.

Section InstructionBuilder.
Context (lib : Web3) (env : Env) (quote : QuoteJson) (retries : nat).

Local Abbreviation swap_loop := (getSwapPayload_loop lib env quote retries).
Local Abbreviation swap_asked :=
  (λ h, env_swapInstructions env h quote (publicKey (wallet lib))).
Local Abbreviation swap_attempt1 := (swap_attempt lib quote (publicKey (wallet lib))).

(** The loop of [getSwapPayload] is a retry loop whose attempt is one
    call, followed by the warnings of the table loop when the [try] gets
    to it. *)
Lemma getSwapPayload_loop_turns :
  retry_turns retries swap_loop swap_asked swap_attempt1 (swap_outcome lib).
Proof.
  split; [done |]. intros i fuel h.
  cbn [getSwapPayload_loop]. rewrite bind_run.
  unfold try_catch. rewrite bind_run. unfold call at 1. cbn zeta.
  unfold swap_attempt, swap_warnings.
  destruct (env_swapInstructions env h quote (publicKey (wallet lib))) as [res|e];
    cbn [swap_outcome].
  - destruct (swapInstruction res) as [si|].
    + rewrite lift_bind_run. destruct (buildInstruction lib si) as [ix|e].
      * destruct (selectLookupTables lib res) as [tables warnings].
        rewrite bind_run. unfold warn. cbn. by rewrite !app_nil_r.
      * cbn. rewrite read_message_bind_run. cbn.
        destruct (i =? retries - 1)%nat; cbn; [done |].
        rewrite bind_run; unfold sleep, emit; cbn.
        by destruct (getSwapPayload_loop _ _ _ _ _ _ _).
    + cbn. rewrite read_message_bind_run. cbn.
      destruct (i =? retries - 1)%nat; cbn; [done |].
      rewrite bind_run; unfold sleep, emit; cbn.
      by destruct (getSwapPayload_loop _ _ _ _ _ _ _).
  - cbn. rewrite read_message_bind_run.
    destruct (message e); [| done].
    destruct (i =? retries - 1)%nat; cbn; [done |].
    rewrite bind_run; unfold sleep, emit; cbn.
    by destruct (getSwapPayload_loop _ _ _ _ _ _ _).
Qed.

Lemma getSwapPayload_loop_answers fuel i : answers env (swap_loop i fuel).
Proof.
  revert i. induction fuel as [|fuel IH]; intros i;
    cbn [getSwapPayload_loop]; [apply answers_ret |].
  apply answers_bind.
  - apply answers_try_catch.
    + apply answers_bind; [by apply answers_call |].
      intros res. destruct (swapInstruction res) as [si|]; [| apply answers_throw].
      apply answers_bind; [apply answers_lift |]. intros ix.
      destruct (selectLookupTables lib res) as [tables warnings].
      apply answers_bind; [| intros; apply answers_ret].
      intros h'. unfold warn. cbn [snd]. clear.
      revert h'. induction warnings as [|w warnings IHw]; intros h'; [done |].
      cbn. split; [done | apply IHw].
    + intros e. apply answers_bind; [apply answers_lift |]. intros _.
      destruct (i =? retries - 1)%nat; [apply answers_throw |].
      apply answers_bind; [by apply answers_emit | intros; apply answers_ret].
  - intros [res|]; [apply answers_ret | apply IH].
Qed.

Lemma swap_answers_retry_trace attempts i :
  swap_answers (retry_trace swap_attempt1 attempts i) = attempts.
Proof.
  apply omap_retry_trace_one; [done |]. intros r. unfold swap_attempt.
  cbn [omap list_omap]. rewrite list_fmap_compose. f_equal. by apply omap_logs.
Qed.

(** The attempts of a call of the loop, read off its trace. *)
Lemma getSwapPayload_loop_policy fuel i h :
  retries = (i + fuel)%nat ->
  let '(result, es) := swap_loop i fuel h in
  let answers := swap_answers es in
  es = retry_trace swap_attempt1 answers i
  /\ match result with
     | Ok (Some payload) =>
         exists failures r,
           answers = failures ++ [r]
           /\ Forall (λ r, retried (swap_outcome lib r)) failures
           /\ swap_outcome lib r = Ok payload
           /\ (length answers <= fuel)%nat
     | Throw e =>
         exists failures r error,
           answers = failures ++ [r]
           /\ Forall (λ r, retried (swap_outcome lib r)) failures
           /\ swap_outcome lib r = Throw error
           /\ gives_up fuel (length answers) error e
           /\ (length answers <= fuel)%nat
     | Ok None => fuel = 0%nat /\ es = []
     end.
Proof.
  intros Hretries.
  pose proof (retry_loop_policy retries swap_loop swap_asked swap_attempt1
                (swap_outcome lib) fuel i h getSwapPayload_loop_turns Hretries)
    as Hpolicy.
  destruct (swap_loop i fuel h) as [result es]. cbn [fst snd] in Hpolicy. cbn zeta.
  destruct Hpolicy as (attempts & -> & _ & Hresult).
  rewrite swap_answers_retry_trace. split; [done |].
  destruct result as [[payload|]|e]; [done | | done].
  by destruct Hresult as [-> ->].
Qed.

End InstructionBuilder.

Lemma getSwapPayload_answers lib env quote retries :
  answers env (getSwapPayload lib env quote retries).
Proof. apply getSwapPayload_loop_answers. Qed.

(** The payload returned was made from an answer of the call. *)
Lemma getSwapPayload_returned (lib : Web3) (env : Env) (quote : QuoteJson)
    (retries : nat) (h : list Event) (payload : SwapPayload) :
  (getSwapPayload lib env quote retries h).1 = Ok (Some payload) ->
  exists r,
    ESwapInstructions quote (publicKey (wallet lib)) r
      ∈ (getSwapPayload lib env quote retries h).2
    /\ swap_outcome lib r = Ok payload.
Proof.
  pose proof (getSwapPayload_loop_policy lib env quote retries retries 0 h eq_refl)
    as Hpolicy.
  unfold getSwapPayload.
  destruct (getSwapPayload_loop lib env quote retries 0 retries h) as [result es].
  cbn zeta in Hpolicy. destruct Hpolicy as (Htrace & Hresult). cbn [fst snd].
  intros ->. destruct Hresult as (failures & r & Heq & _ & Hout & _).
  exists r. split; [| done]. rewrite Htrace, Heq.
  destruct (retry_trace_snoc (swap_attempt lib quote (publicKey (wallet lib)))
              failures r 0) as [pre ->].
  apply elem_of_app. right. unfold swap_attempt. left.
Qed.

(** X1: the retry policy of the Instruction Builder.  The trace of a call
    is its attempts in order: one call of the instruction service each,
    carrying what the service answers at its point of the history, and,
    when the answer makes a payload, the warnings of the table loop; each
    attempt but the last is followed by a sleep of 1000 ms times its
    number; there are at most [retries] attempts.  Every attempt before
    the last threw a value whose message can be read (the error the call
    was rejected with, that for a body without [swapInstruction], or that
    of [PublicKey] on a key of the instruction).  A payload is returned
    from the last answer.  The call throws when its last attempt threw:
    the value thrown there, after exactly [retries] attempts, when its
    message can be read; the [TypeError] of reading the message of [null]
    or [undefined], at once, when it cannot. *)
Theorem getSwapPayload_retry_policy (lib : Web3) (env : Env) (quote : QuoteJson)
    (retries : nat) (h : list Event) :
  let '(result, es) := getSwapPayload lib env quote retries h in
  let answers := swap_answers es in
  es = retry_trace (swap_attempt lib quote (publicKey (wallet lib))) answers 0
  /\ answered env h es
  /\ sleeps es = (λ k : nat, 1000 * Z.of_nat k) <$> seq 1 (length answers - 1)
  /\ (length answers <= retries)%nat
  /\ match result with
     | Ok (Some payload) =>
         exists failures r,
           answers = failures ++ [r]
           /\ Forall (λ r, retried (swap_outcome lib r)) failures
           /\ swap_outcome lib r = Ok payload
     | Throw e =>
         exists failures r error,
           answers = failures ++ [r]
           /\ Forall (λ r, retried (swap_outcome lib r)) failures
           /\ swap_outcome lib r = Throw error
           /\ gives_up retries (length answers) error e
     | Ok None => retries = 0%nat /\ es = []
     end.
Proof.
  pose proof (getSwapPayload_loop_policy lib env quote retries retries 0 h eq_refl)
    as Hloop.
  pose proof (getSwapPayload_answers lib env quote retries h) as Hanswered.
  unfold getSwapPayload in *.
  destruct (getSwapPayload_loop lib env quote retries 0 retries h) as [result es].
  cbn zeta in *. cbn [snd] in Hanswered. destruct Hloop as [Htrace Hresult].
  split; [done |]. split; [done |]. split.
  { rewrite Htrace at 1. apply sleeps_retry_trace. intros r. unfold swap_attempt.
    unfold sleeps. cbn [omap list_omap]. rewrite list_fmap_compose. by apply omap_logs. }
  destruct result as [[payload|]|e].
  - destruct Hresult as (failures & r & Hanswers & Hfailures & Hout & Hlen).
    split; [done |]. by exists failures, r.
  - destruct Hresult as [-> ->]. done.
  - destruct Hresult as (failures & r & error & Hanswers & Hfailures & Hout & Hgive & Hlen).
    split; [done |]. by exists failures, r, error.
Qed.

(** The shipped call on a response with three tables, two of them
    oversized: the call, the two warnings, and the payload without tables;
    the third table is not looked at. *)
Example getSwapPayload_three_tables :
  getSwapPayload Sample.lib Sample.three_tables
    {| outAmount := AInt 60000; routePlan := "buy" |} 3 []
  = (Ok (Some {| instructions := [Sample.ix 8]; lookupTables := [] |}),
     [ ESwapInstructions {| outAmount := AInt 60000; routePlan := "buy" |} "payer"
         (Ok Sample.oversized_first);
       ELog (LogAltWarning (AltTooLarge "A" 1001));
       ELog (LogAltWarning (AltTooLarge "B" 1001)) ]).
Proof. vm_compute. reflexivity. Qed.

(** ** The cycle *)

#[local] Arguments getQuote : simpl never.
#[local] Arguments getSwapPayload : simpl never.
#[local] Arguments sendTransactionWithSimulation : simpl never.
#[local] Arguments signAndSend : simpl never.
#[local] Arguments buildAndSubmit : simpl never.

Section CycleFacts.
Context (cfg : Config) (lib : Web3) (env : Env).

(** *** The events each function adds *)

Lemma backoff_emits {A} P retries i fuel (error : Thrown) :
  retries = (i + S fuel)%nat ->
  (forall ms, backoff retries ms -> P (ESleep ms)) ->
  emits P (read_message error;;
           if (i =? retries - 1)%nat then throw error
           else sleep (1000 * (Z.of_nat i + 1));; mret (@Continue A)).
Proof.
  intros Hretries Hsleep. apply emits_bind; [apply emits_read_message |]. intros _.
  destruct (i =? retries - 1)%nat eqn:Hlast; [apply emits_throw |].
  apply emits_bind; [| intros; apply emits_ret].
  apply emits_emit, Hsleep. by eapply backoff_turn.
Qed.

Lemma getQuote_loop_emits inputMint outputMint amount retries fuel i :
  retries = (i + fuel)%nat ->
  emits (quote_event retries inputMint outputMint amount)
    (getQuote_loop env inputMint outputMint amount retries i fuel).
Proof.
  revert i. induction fuel as [|fuel IH]; intros i Hretries;
    cbn [getQuote_loop]; [apply emits_ret |].
  apply emits_bind.
  - apply emits_try_catch.
    + apply emits_bind; [by apply emits_call |].
      intros [res|]; [apply emits_ret | apply emits_throw].
    + intros e. by eapply backoff_emits.
  - intros [res|]; [apply emits_ret |]. apply IH. lia.
Qed.

Lemma getQuote_emits inputMint outputMint amount retries :
  emits (quote_event retries inputMint outputMint amount)
    (getQuote env inputMint outputMint amount retries).
Proof. by apply getQuote_loop_emits. Qed.

Lemma getSwapPayload_loop_emits quote retries fuel i :
  retries = (i + fuel)%nat ->
  emits (swap_event retries quote) (getSwapPayload_loop lib env quote retries i fuel).
Proof.
  revert i. induction fuel as [|fuel IH]; intros i Hretries;
    cbn [getSwapPayload_loop]; [apply emits_ret |].
  apply emits_bind.
  - apply emits_try_catch.
    + apply emits_bind; [by apply emits_call |].
      intros res. destruct (swapInstruction res); [| apply emits_throw].
      apply emits_bind; [apply emits_lift |]. intros ix.
      destruct (selectLookupTables lib res) as [tables warnings].
      apply emits_bind; [| intros; apply emits_ret].
      intros h. unfold warn. cbn [snd]. apply Forall_fmap. by apply Forall_true.
    + intros e. by eapply backoff_emits.
  - intros [res|]; [apply emits_ret |]. apply IH. lia.
Qed.

Lemma getSwapPayload_emits quote retries :
  emits (swap_event retries quote) (getSwapPayload lib env quote retries).
Proof. by apply getSwapPayload_loop_emits. Qed.

Lemma sendTransactionWithSimulation_loop_emits tx retries fuel i :
  retries = (i + fuel)%nat ->
  emits (submit_event retries tx)
    (sendTransactionWithSimulation_loop env tx retries i fuel).
Proof.
  revert i. induction fuel as [|fuel IH]; intros i Hretries;
    cbn [sendTransactionWithSimulation_loop]; [apply emits_ret |].
  apply emits_bind.
  - apply emits_try_catch.
    + apply emits_bind.
      * apply emits_try_catch.
        -- apply emits_bind; [by apply emits_call |].
           intros [err|]; apply emits_ret.
        -- intros e. apply emits_bind; [apply emits_read_message |].
           intros; apply emits_ret.
      * intros [|]; cbn [negb].
        -- apply emits_bind; [by apply emits_call | intros; apply emits_ret].
        -- destruct (i =? retries - 1)%nat eqn:Hlast; [apply emits_throw |].
           apply emits_bind; [| intros; apply emits_ret].
           apply emits_emit. by eapply backoff_turn.
    + intros e. by eapply backoff_emits.
  - intros [res|]; [apply emits_ret |]. apply IH. lia.
Qed.

Lemma sendTransactionWithSimulation_emits tx retries :
  emits (submit_event retries tx) (sendTransactionWithSimulation env tx retries).
Proof. by apply sendTransactionWithSimulation_loop_emits. Qed.

Lemma signAndSend_emits atomicTx blockhash lastValidBlockHeight :
  emits build_event (signAndSend lib env atomicTx blockhash lastValidBlockHeight).
Proof.
  unfold signAndSend. apply emits_bind; [apply emits_lift |]. intros signed.
  apply emits_try_catch.
  - apply emits_bind.
    + eapply emits_impl; [| apply sendTransactionWithSimulation_emits].
      by intros [].
    + intros txid. apply emits_bind; [by apply emits_call |]. intros _.
      apply emits_bind; [by apply emits_emit | intros; apply emits_ret].
  - intros e. apply emits_bind; [apply emits_read_message |]. intros m.
    apply emits_bind; [by apply emits_emit | intros; apply emits_ret].
Qed.

Lemma buildAndSubmit_emits quoteBuy quoteSell :
  emits build_event (buildAndSubmit lib env quoteBuy quoteSell).
Proof.
  assert (Hswap : forall q,
            emits build_event (getSwapPayload lib env q MAX_RETRIES)).
  { intros q. eapply emits_impl; [| apply getSwapPayload_emits]. by intros [| | | | | | | |[]]. }
  assert (Hdefined : forall A (v : option A), emits build_event (defined v)).
  { intros A [a|]; [apply emits_ret | apply emits_throw]. }
  unfold buildAndSubmit.
  apply emits_bind; [apply Hswap |]. intros p1.
  apply emits_bind; [apply Hdefined |]. intros p1'.
  apply emits_bind; [apply Hswap |]. intros p2.
  apply emits_bind; [apply Hdefined |]. intros p2'. cbn zeta.
  apply emits_bind; [by apply emits_emit |]. intros _.
  apply emits_bind; [by apply emits_call |]. intros bh.
  apply emits_bind; [by apply emits_emit |]. intros _.
  destruct (createOptimizedTransaction _ _ _ _); [apply signAndSend_emits |].
  apply emits_bind; [by apply emits_emit | intros; apply emits_ret].
Qed.

Lemma checkAndTrade_emits : emits (cycle_event cfg) (checkAndTrade cfg lib env).
Proof.
  assert (Hquote : forall inputMint outputMint amount,
            emits (cycle_event cfg) (getQuote env inputMint outputMint amount MAX_RETRIES)).
  { intros. eapply emits_impl; [| apply getQuote_emits]. by intros []. }
  assert (Hdefined : forall A (v : option A), emits (cycle_event cfg) (defined v)).
  { intros A [a|]; [apply emits_ret | apply emits_throw]. }
  unfold checkAndTrade. apply emits_try_catch.
  - apply emits_bind; [by apply emits_emit |]. intros _.
    apply emits_bind; [apply Hquote |]. intros quoteBuy.
    apply emits_bind; [apply Hdefined |]. intros quoteBuy'.
    apply emits_bind; [apply Hquote |]. intros quoteSell. cbn zeta.
    apply emits_bind; [apply Hdefined |]. intros quoteSell'.
    apply emits_bind; [apply emits_lift |]. intros sellOut.
    destruct (sellOut <? _).
    + apply emits_bind; [by apply emits_emit | intros; apply emits_ret].
    + apply emits_bind; [by apply emits_emit |]. intros _.
      apply emits_bind; [apply emits_emit; cbn; by eexists |]. intros _.
      eapply emits_impl; [| apply buildAndSubmit_emits].
      by intros [| | | | | | | |[]].
  - intros e. apply emits_bind; [apply emits_read_message |]. intros m.
    apply emits_bind; [by apply emits_emit | intros; apply emits_ret].
Qed.

(** *** The calls each function records *)

Lemma signAndSend_answers atomicTx blockhash lastValidBlockHeight :
  answers env (signAndSend lib env atomicTx blockhash lastValidBlockHeight).
Proof.
  unfold signAndSend. apply answers_bind; [apply answers_lift |]. intros signed.
  apply answers_try_catch.
  - apply answers_bind; [apply sendTransactionWithSimulation_answers |].
    intros txid. apply answers_bind; [by apply answers_call |]. intros _.
    apply answers_bind; [by apply answers_emit | intros; apply answers_ret].
  - intros e. apply answers_bind; [apply answers_lift |]. intros m.
    apply answers_bind; [by apply answers_emit | intros; apply answers_ret].
Qed.

Lemma defined_answers {A} (v : option A) : answers env (defined v).
Proof. destruct v; [apply answers_ret | apply answers_throw]. Qed.

Lemma buildAndSubmit_answers quoteBuy quoteSell :
  answers env (buildAndSubmit lib env quoteBuy quoteSell).
Proof.
  unfold buildAndSubmit.
  apply answers_bind; [apply getSwapPayload_answers |]. intros p1.
  apply answers_bind; [apply defined_answers |]. intros p1'.
  apply answers_bind; [apply getSwapPayload_answers |]. intros p2.
  apply answers_bind; [apply defined_answers |]. intros p2'. cbn zeta.
  apply answers_bind; [by apply answers_emit |]. intros _.
  apply answers_bind; [by apply answers_call |]. intros bh.
  apply answers_bind; [by apply answers_emit |]. intros _.
  destruct (createOptimizedTransaction _ _ _ _); [apply signAndSend_answers |].
  apply answers_bind; [by apply answers_emit | intros; apply answers_ret].
Qed.

Lemma checkAndTrade_answers : answers env (checkAndTrade cfg lib env).
Proof.
  unfold checkAndTrade. apply answers_try_catch.
  - apply answers_bind; [by apply answers_emit |]. intros _.
    apply answers_bind; [apply getQuote_answers |]. intros quoteBuy.
    apply answers_bind; [apply defined_answers |]. intros quoteBuy'.
    apply answers_bind; [apply getQuote_answers |]. intros quoteSell. cbn zeta.
    apply answers_bind; [apply defined_answers |]. intros quoteSell'.
    apply answers_bind; [apply answers_lift |]. intros sellOut.
    destruct (sellOut <? _).
    + apply answers_bind; [by apply answers_emit | intros; apply answers_ret].
    + apply answers_bind; [by apply answers_emit |]. intros _.
      apply answers_bind; [by apply answers_emit |]. intros _.
      apply buildAndSubmit_answers.
  - intros e. apply answers_bind; [apply answers_lift |]. intros m.
    apply answers_bind; [by apply answers_emit | intros; apply answers_ret].
Qed.

(** *** What the retry loops return and throw *)

(** What a retry loop throws is an error: the [TypeError] of its [catch],
    or a value whose message the [catch] read. *)
Lemma gives_up_error retries n error e :
  gives_up retries n error e -> exists m, e = ErrorObject m.
Proof.
  unfold gives_up. destruct (message error) as [m|type_error] eqn:Hmessage.
  - intros [_ ->]. exists m. by apply message_Ok.
  - intros ->. by eexists.
Qed.

Lemma getQuote_throws inputMint outputMint amount retries h e :
  (getQuote env inputMint outputMint amount retries h).1 = Throw e ->
  exists m, e = ErrorObject m.
Proof.
  pose proof (getQuote_loop_policy env inputMint outputMint amount retries
                retries 0 h eq_refl) as Hpolicy.
  unfold getQuote.
  destruct (getQuote_loop env inputMint outputMint amount retries 0 retries h)
    as [result es].
  cbn zeta in Hpolicy. destruct Hpolicy as (_ & Hresult). cbn [fst]. intros ->.
  destruct Hresult as (_ & _ & error & _ & _ & _ & Hgive & _).
  by eapply gives_up_error.
Qed.

Lemma getSwapPayload_throws quote retries h e :
  (getSwapPayload lib env quote retries h).1 = Throw e ->
  exists m, e = ErrorObject m.
Proof.
  pose proof (getSwapPayload_loop_policy lib env quote retries retries 0 h eq_refl)
    as Hpolicy.
  unfold getSwapPayload.
  destruct (getSwapPayload_loop lib env quote retries 0 retries h) as [result es].
  cbn zeta in Hpolicy. destruct Hpolicy as (_ & Hresult). cbn [fst]. intros ->.
  destruct Hresult as (_ & _ & error & _ & _ & _ & Hgive & _).
  by eapply gives_up_error.
Qed.

(** An answer that was retried is no quote. *)
Lemma retried_quote r q : retried (quote_outcome r) -> r <> Ok (Some q).
Proof. by intros (error & m & Hout & _) ->. Qed.

(** A quote answered by the pricing service is the one returned. *)
Lemma getQuote_answered inputMint outputMint amount retries h
    inputMint' outputMint' amount' q :
  EQuote inputMint' outputMint' amount' (Ok (Some q))
    ∈ (getQuote env inputMint outputMint amount retries h).2 ->
  (getQuote env inputMint outputMint amount retries h).1 = Ok (Some q).
Proof.
  pose proof (getQuote_loop_policy env inputMint outputMint amount retries
                retries 0 h eq_refl) as Hpolicy.
  unfold getQuote.
  destruct (getQuote_loop env inputMint outputMint amount retries 0 retries h)
    as [result es].
  cbn zeta in Hpolicy. destruct Hpolicy as (_ & Hresult). cbn [fst snd].
  intros Hin.
  assert (Hanswer : Ok (Some q) ∈ quote_answers es).
  { apply list_elem_of_omap. by eexists. }
  assert (Hlast : forall failures r,
            quote_answers es = failures ++ [r] ->
            Forall (λ r, retried (quote_outcome r)) failures ->
            r = Ok (Some q)).
  { intros failures r Heq Hfailures. rewrite Heq in Hanswer.
    apply elem_of_app in Hanswer as [Hf | ->%list_elem_of_singleton]; [| done].
    rewrite Forall_forall in Hfailures. by destruct (retried_quote _ q (Hfailures _ Hf)). }
  destruct result as [[q'|]|e].
  - destruct Hresult as (failures & r & Heq & Hfailures & Hout & _).
    rewrite (Hlast _ _ Heq Hfailures) in Hout. cbn in Hout. by injection Hout as ->.
  - destruct Hresult as [_ ->]. by apply elem_of_nil in Hin.
  - destruct Hresult as (failures & r & error & Heq & Hfailures & Herr & _).
    rewrite (Hlast _ _ Heq Hfailures) in Herr. done.
Qed.

(** The quote returned was answered by the pricing service in the call. *)
Lemma getQuote_returned inputMint outputMint amount retries h q :
  (getQuote env inputMint outputMint amount retries h).1 = Ok (Some q) ->
  EQuote inputMint outputMint amount (Ok (Some q))
    ∈ (getQuote env inputMint outputMint amount retries h).2.
Proof.
  pose proof (getQuote_loop_policy env inputMint outputMint amount retries
                retries 0 h eq_refl) as Hpolicy.
  unfold getQuote.
  destruct (getQuote_loop env inputMint outputMint amount retries 0 retries h)
    as [result es].
  cbn zeta in Hpolicy. destruct Hpolicy as (Htrace & Hresult). cbn [fst snd].
  intros ->. destruct Hresult as (failures & r & Heq & _ & Hout & _).
  assert (r = Ok (Some q)) as -> by (destruct r as [[?|]|?]; cbn in Hout; congruence).
  rewrite Htrace, Heq.
  destruct (retry_trace_snoc (quote_attempt inputMint outputMint amount)
              failures (Ok (Some q)) 0) as [pre ->].
  apply elem_of_app. right. left.
Qed.

(** A signature returned was that of a broadcast, the last event. *)
Lemma sendTransactionWithSimulation_returned tx h txid :
  (sendTransactionWithSimulation env tx MAX_RETRIES h).1 = Ok txid ->
  exists pre txid',
    txid = Some txid'
    /\ (sendTransactionWithSimulation env tx MAX_RETRIES h).2
       = pre ++ [ESend tx (Ok txid')].
Proof.
  pose proof (sendTransactionWithSimulation_loop_policy env tx MAX_RETRIES
                MAX_RETRIES 0 h eq_refl) as Hpolicy.
  unfold sendTransactionWithSimulation.
  destruct (sendTransactionWithSimulation_loop env tx MAX_RETRIES 0 MAX_RETRIES h)
    as [result es].
  destruct Hpolicy as (attempts & Htrace & Hresult). cbn [fst snd].
  intros ->. destruct txid as [txid'|]; [| by destruct Hresult].
  destruct Hresult as (failures & -> & _).
  destruct (retry_trace_snoc (submit_attempt tx) failures (Sent txid') 0) as [pre Hpre].
  exists (pre ++ [ESimulate tx (Ok None)]), txid'.
  split; [done |]. rewrite Htrace, Hpre. cbn. by rewrite <- app_assoc.
Qed.

(** *** The functions of the cycle, by what their calls answer *)

Lemma caught_run (line : string -> LogMsg) (error : Thrown) h :
  (m ← read_message error; emit (ELog (line m));; mret false) h = caught line error.
Proof.
  rewrite read_message_bind_run. unfold caught.
  destruct (message error); [| done]. run_events. done.
Qed.

(** [signAndSend], by what its calls answer. *)
Lemma signAndSend_run atomicTx blockhash lastValidBlockHeight h :
  signAndSend lib env atomicTx blockhash lastValidBlockHeight h
  = match tx_sign lib atomicTx [wallet lib] with
    | Throw e => (Throw (ErrorObject e), [])
    | Ok signed =>
        let (sent, ses) := sendTransactionWithSimulation env signed MAX_RETRIES h in
        match sent with
        | Throw e => let (r, line) := caught LogErrorSending e in (r, ses ++ line)
        | Ok txid =>
            let answer :=
              env_confirmTransaction env (h ++ ses) txid blockhash lastValidBlockHeight in
            let confirm := EConfirm txid blockhash lastValidBlockHeight answer in
            let (r, line) := confirm_outcome answer in
            (r, ses ++ confirm :: line)
        end
    end.
Proof.
  unfold signAndSend. rewrite lift_bind_run.
  destruct (tx_sign lib atomicTx [wallet lib]) as [signed|e]; [| done].
  unfold try_catch. rewrite bind_run.
  destruct (sendTransactionWithSimulation env signed MAX_RETRIES h) as [[txid|e] ses].
  - rewrite bind_run. unfold call. cbn zeta. unfold confirm_outcome.
    destruct (env_confirmTransaction env (h ++ ses) txid blockhash lastValidBlockHeight)
      as [[]|e]; cbn.
    + run_events. done.
    + unfold console; rewrite caught_run. destruct (caught LogErrorSending e) as [r line].
      by rewrite <- app_assoc.
  - cbn. unfold console; rewrite caught_run. by destruct (caught LogErrorSending e).
Qed.

(** [buildAndSubmit], by what its calls answer. *)
Lemma buildAndSubmit_run quoteBuy quoteSell h :
  buildAndSubmit lib env quoteBuy quoteSell h
  = let undefined := ErrorObject "Cannot read properties of undefined" in
    let (r1, s1) := getSwapPayload lib env quoteBuy MAX_RETRIES h in
    match r1 with
    | Throw e => (Throw e, s1)
    | Ok None => (Throw undefined, s1)
    | Ok (Some p1) =>
        let (r2, s2) := getSwapPayload lib env quoteSell MAX_RETRIES (h ++ s1) in
        match r2 with
        | Throw e => (Throw e, s1 ++ s2)
        | Ok None => (Throw undefined, s1 ++ s2)
        | Ok (Some p2) =>
            let optimizedAlts := optimizeAlts lib (lookupTables p1) (lookupTables p2) in
            let allInstructions := instructions p1 ++ instructions p2 in
            let log1 :=
              ELog (LogOptimizedAlts (length optimizedAlts)
                      (length (lookupTables p1 ++ lookupTables p2))) in
            let answer := env_getLatestBlockhash env (h ++ s1 ++ s2 ++ [log1]) in
            let asked := [log1; EGetLatestBlockhash answer] in
            match answer with
            | Throw e => (Throw e, s1 ++ s2 ++ asked)
            | Ok bh =>
                let log2 := ELog (LogCreating (length allInstructions)) in
                match createOptimizedTransaction lib allInstructions optimizedAlts bh.1 with
                | None => (Ok false, s1 ++ s2 ++ asked ++ [log2; ELog LogCouldNotCreate])
                | Some atomicTx =>
                    let (r, ses) :=
                      signAndSend lib env atomicTx bh.1 bh.2
                        (h ++ s1 ++ s2 ++ asked ++ [log2]) in
                    (r, s1 ++ s2 ++ asked ++ [log2] ++ ses)
                end
            end
        end
    end.
Proof.
  unfold buildAndSubmit, defined. cbn zeta. rewrite bind_run.
  destruct (getSwapPayload lib env quoteBuy MAX_RETRIES h) as [[[p1|]|e] s1];
    [| rewrite throw_bind_run; by rewrite app_nil_r | done].
  rewrite ret_bind_run, bind_run.
  destruct (getSwapPayload lib env quoteSell MAX_RETRIES (h ++ s1)) as [[[p2|]|e] s2];
    [| rewrite throw_bind_run; by rewrite app_nil_r | done].
  rewrite ret_bind_run. run_events.
  rewrite bind_run. unfold call. rewrite <- !app_assoc.
  destruct (env_getLatestBlockhash env _) as [bh|e]; [| done].
  run_events.
  destruct (createOptimizedTransaction lib _ _ bh.1) as [atomicTx|].
  - by destruct (signAndSend lib env atomicTx bh.1 bh.2 _) as [r ses].
  - run_events. done.
Qed.

(** [checkAndTrade], by what its calls answer. *)
Lemma checkAndTrade_run h :
  checkAndTrade cfg lib env h
  = let undefined := ErrorObject "Cannot read properties of undefined" in
    let checking := ELog LogChecking in
    let failed (e : Thrown) (es : list Event) :=
      let (r, line) := caught LogErrorCheckAndTrade e in
      (r, checking :: es ++ line) in
    let (r1, q1) :=
      getQuote env USDC_MINT WSOL_MINT (AInt (INPUT_USDC cfg)) MAX_RETRIES
        (h ++ [checking]) in
    match r1 with
    | Throw e => failed e q1
    | Ok None => failed undefined q1
    | Ok (Some quoteBuy) =>
        let (r2, q2) :=
          getQuote env WSOL_MINT USDC_MINT (outAmount quoteBuy) MAX_RETRIES
            (h ++ checking :: q1) in
        match r2 with
        | Throw e => failed e (q1 ++ q2)
        | Ok None => failed undefined (q1 ++ q2)
        | Ok (Some quoteSell) =>
            match BigInt (outAmount quoteSell) with
            | Throw e => failed (ErrorObject e) (q1 ++ q2)
            | Ok sellOut =>
                let net := net cfg sellOut in
                if sellOut <? INPUT_USDC cfg + MIN_PROFIT_USDC cfg then
                  (Ok false, checking :: q1 ++ q2 ++ [ELog (LogNoOpportunity net)])
                else
                  let found := [ELog (LogProfitDetected net); ENotify (opportunity cfg net)] in
                  let (r, bs) :=
                    buildAndSubmit lib env quoteBuy quoteSell
                      (h ++ checking :: q1 ++ q2 ++ found) in
                  match r with
                  | Ok b => (Ok b, checking :: q1 ++ q2 ++ found ++ bs)
                  | Throw e => failed e (q1 ++ q2 ++ found ++ bs)
                  end
            end
        end
    end.
Proof.
  unfold checkAndTrade, try_catch, defined, BotOpportunity. cbn zeta. run_events.
  rewrite bind_run.
  destruct (getQuote env USDC_MINT WSOL_MINT _ MAX_RETRIES _) as [[[quoteBuy|]|e] q1].
  - rewrite ret_bind_run, bind_run. rewrite <- ?app_assoc. cbn [app].
    destruct (getQuote env WSOL_MINT USDC_MINT _ MAX_RETRIES _) as [[[quoteSell|]|e] q2].
    + rewrite ret_bind_run, lift_bind_run.
      destruct (BigInt (outAmount quoteSell)) as [sellOut|e].
      * destruct (sellOut <? INPUT_USDC cfg + MIN_PROFIT_USDC cfg).
        -- run_events. done.
        -- run_events.
           destruct (buildAndSubmit lib env quoteBuy quoteSell _) as [[b|e] bs].
           ++ cbn. by rewrite <- ?app_assoc.
           ++ cbn. rewrite caught_run. destruct (caught _ e) as [r line].
              cbn. by rewrite <- ?app_assoc.
      * cbn. rewrite caught_run. cbn. by rewrite <- ?app_assoc, ?app_nil_r.
    + rewrite throw_bind_run. cbn. rewrite caught_run.
      cbn. by rewrite <- ?app_assoc, ?app_nil_r.
    + cbn. rewrite caught_run. destruct (caught _ e) as [r line].
      cbn. by rewrite <- ?app_assoc, ?app_nil_r.
  - rewrite throw_bind_run. cbn. rewrite caught_run.
    cbn. by rewrite <- ?app_assoc, ?app_nil_r.
  - cbn. rewrite caught_run. destruct (caught _ e) as [r line].
    cbn. by rewrite <- ?app_assoc, ?app_nil_r.
Qed.

(** *** How the functions of the cycle end *)

Lemma last_app_cons {A} (l1 l2 : list A) (x : A) :
  last (l1 ++ x :: l2) = last (x :: l2).
Proof.
  induction l1 as [|y l1 IH]; [done |].
  cbn [app]. rewrite <- IH. by destruct l1.
Qed.

Lemma last_app_Some {A} (l1 l2 : list A) (x : A) :
  last l2 = Some x -> last (l1 ++ l2) = Some x.
Proof.
  destruct l2 as [|y l2]; [done |]. intros <-. apply last_app_cons.
Qed.

Lemma last_cons_Some {A} (y : A) (l : list A) (x : A) :
  last l = Some x -> last (y :: l) = Some x.
Proof. apply (last_app_Some [y]). Qed.

Ltac last_event :=
  repeat first [ eassumption | reflexivity | apply last_app_Some | apply last_cons_Some ].

(** [signAndSend] returns after a line of the console, and what it
    throws is an error. *)
Lemma signAndSend_ends atomicTx blockhash lastValidBlockHeight h :
  let '(r, es) := signAndSend lib env atomicTx blockhash lastValidBlockHeight h in
  match r with
  | Ok _ => exists line, last es = Some (ELog line)
  | Throw e => exists m, e = ErrorObject m
  end.
Proof.
  rewrite signAndSend_run.
  destruct (tx_sign lib atomicTx [wallet lib]) as [signed|e]; [| by eexists].
  destruct (sendTransactionWithSimulation env signed MAX_RETRIES h) as [[txid|e] ses].
  - cbn zeta. unfold confirm_outcome, caught.
    destruct (env_confirmTransaction env _ _ _ _) as [[]|e].
    + eexists. last_event.
    + destruct (message e); [| by eexists].
      eexists. last_event.
  - unfold caught. destruct (message e); [| by eexists].
    eexists. last_event.
Qed.

(** [buildAndSubmit] returns after a line of the console; what it throws
    is an error or what the request of the blockhash, its last event, was
    rejected with. *)
Lemma buildAndSubmit_ends quoteBuy quoteSell h :
  let '(r, es) := buildAndSubmit lib env quoteBuy quoteSell h in
  match r with
  | Ok _ => exists line, last es = Some (ELog line)
  | Throw e =>
      (exists m, e = ErrorObject m) \/ last es = Some (EGetLatestBlockhash (Throw e))
  end.
Proof.
  rewrite buildAndSubmit_run. cbn zeta.
  pose proof (getSwapPayload_throws quoteBuy MAX_RETRIES h) as Ht1.
  destruct (getSwapPayload lib env quoteBuy MAX_RETRIES h) as [r1 s1]. cbn [fst] in Ht1.
  destruct r1 as [[p1|]|e]; [| left; by eexists | left; by apply Ht1].
  pose proof (getSwapPayload_throws quoteSell MAX_RETRIES (h ++ s1)) as Ht2.
  destruct (getSwapPayload lib env quoteSell MAX_RETRIES (h ++ s1)) as [r2 s2].
  cbn [fst] in Ht2.
  destruct r2 as [[p2|]|e]; [| left; by eexists | left; by apply Ht2].
  destruct (env_getLatestBlockhash env _) as [[blockhash lastValidBlockHeight]|e].
  2:{ right. last_event. }
  cbn [fst snd].
  destruct (createOptimizedTransaction lib _ _ blockhash) as [atomicTx|].
  2:{ eexists. last_event. }
  match goal with
  | |- context [signAndSend lib env atomicTx blockhash lastValidBlockHeight ?h'] =>
      pose proof (signAndSend_ends atomicTx blockhash lastValidBlockHeight h') as Hsend;
      destruct (signAndSend lib env atomicTx blockhash lastValidBlockHeight h') as [r ses]
  end.
  destruct r as [b|e]; [| by left].
  destruct Hsend as [line Hlast]. exists line. last_event.
Qed.

(** [checkAndTrade] returns after a line of the console, and throws only
    the [TypeError] of reading the message of [null] or [undefined], with
    which the request of the blockhash, its last event, was rejected. *)
Lemma checkAndTrade_ends h :
  let '(r, es) := checkAndTrade cfg lib env h in
  match r with
  | Ok _ => exists line, last es = Some (ELog line)
  | Throw e =>
      exists error type_error,
        last es = Some (EGetLatestBlockhash (Throw error))
        /\ message error = Throw type_error
        /\ e = ErrorObject type_error
  end.
Proof.
  rewrite checkAndTrade_run. cbn zeta.
  assert (Hfailed : forall m es,
    let '(r, es') :=
      (let (r, line) := caught LogErrorCheckAndTrade (ErrorObject m) in
       (r, ELog LogChecking :: es ++ line)) in
    match r with
    | Ok _ => exists line, last es' = Some (ELog line)
    | Throw e =>
        exists error type_error,
          last es' = Some (EGetLatestBlockhash (Throw error))
          /\ message error = Throw type_error
          /\ e = ErrorObject type_error
    end).
  { intros m es. cbn. eexists. last_event. }
  match goal with
  | |- context [getQuote env USDC_MINT WSOL_MINT ?a MAX_RETRIES ?h'] =>
      pose proof (getQuote_throws USDC_MINT WSOL_MINT a MAX_RETRIES h') as Ht1;
      destruct (getQuote env USDC_MINT WSOL_MINT a MAX_RETRIES h') as [r1 q1]
  end.
  cbn [fst] in Ht1.
  destruct r1 as [[quoteBuy|]|e];
    [| apply Hfailed | destruct (Ht1 e eq_refl) as [m ->]; apply Hfailed].
  match goal with
  | |- context [getQuote env WSOL_MINT USDC_MINT ?a MAX_RETRIES ?h'] =>
      pose proof (getQuote_throws WSOL_MINT USDC_MINT a MAX_RETRIES h') as Ht2;
      destruct (getQuote env WSOL_MINT USDC_MINT a MAX_RETRIES h') as [r2 q2]
  end.
  cbn [fst] in Ht2.
  destruct r2 as [[quoteSell|]|e];
    [| apply Hfailed | destruct (Ht2 e eq_refl) as [m ->]; apply Hfailed].
  destruct (BigInt (outAmount quoteSell)) as [sellOut|e]; [| apply Hfailed].
  destruct (sellOut <? _).
  { eexists. last_event. }
  match goal with
  | |- context [buildAndSubmit lib env quoteBuy quoteSell ?h'] =>
      pose proof (buildAndSubmit_ends quoteBuy quoteSell h') as Hbuild;
      destruct (buildAndSubmit lib env quoteBuy quoteSell h') as [r bs]
  end.
  destruct r as [b|e].
  - destruct Hbuild as [line Hlast]. exists line. last_event.
  - destruct Hbuild as [[m ->] | Hlast]; [apply Hfailed |].
    unfold caught. destruct (message e) as [m|type_error] eqn:Hmessage.
    + eexists. last_event.
    + exists e, type_error. split; [| done]. rewrite app_nil_r. last_event.
Qed.

(** *** The confirmation comes last *)

Lemma signAndSend_submitted atomicTx blockhash lastValidBlockHeight h :
  let '(r, es) := signAndSend lib env atomicTx blockhash lastValidBlockHeight h in
  (Forall no_confirm es /\ r <> Ok true)
  \/ exists pre tx txid answer,
       es = pre ++ ESend tx (Ok txid)
                :: EConfirm (Some txid) blockhash lastValidBlockHeight answer
                :: (confirm_outcome answer).2
       /\ Forall no_confirm pre
       /\ r = (confirm_outcome answer).1.
Proof.
  rewrite signAndSend_run.
  destruct (tx_sign lib atomicTx [wallet lib]) as [signed|e]; [| by left].
  pose proof (sendTransactionWithSimulation_emits signed MAX_RETRIES h) as Hses.
  pose proof (sendTransactionWithSimulation_returned signed h) as Hreturned.
  destruct (sendTransactionWithSimulation env signed MAX_RETRIES h) as [[txid|e] ses];
    cbn [fst snd] in *.
  - destruct (Hreturned txid eq_refl) as (pre & txid' & -> & ->). cbn zeta.
    apply Forall_app in Hses as [Hpre _].
    assert (Hn : Forall no_confirm pre).
    { eapply Forall_impl; [exact Hpre | by intros []]. }
    destruct (confirm_outcome _) as [r line] eqn:Hconfirm.
    right. exists pre, signed, txid'.
    exists (env_confirmTransaction env (h ++ pre ++ [ESend signed (Ok txid')])
              (Some txid') blockhash lastValidBlockHeight).
    rewrite Hconfirm. by rewrite <- app_assoc.
  - unfold caught. destruct (message e); left.
    + split; [| done]. apply Forall_app. split; [| by repeat constructor].
      eapply Forall_impl; [exact Hses | by intros []].
    + split; [| done]. rewrite app_nil_r.
      eapply Forall_impl; [exact Hses | by intros []].
Qed.

Lemma buildAndSubmit_submitted quoteBuy quoteSell h :
  let '(r, es) := buildAndSubmit lib env quoteBuy quoteSell h in
  (Forall no_confirm es /\ r <> Ok true)
  \/ exists pre tx txid blockhash lastValidBlockHeight answer,
       es = pre ++ ESend tx (Ok txid)
                :: EConfirm (Some txid) blockhash lastValidBlockHeight answer
                :: (confirm_outcome answer).2
       /\ Forall no_confirm pre
       /\ EGetLatestBlockhash (Ok (blockhash, lastValidBlockHeight)) ∈ pre
       /\ r = (confirm_outcome answer).1.
Proof.
  rewrite buildAndSubmit_run. cbn zeta.
  pose proof (getSwapPayload_emits quoteBuy MAX_RETRIES h) as Hs1.
  destruct (getSwapPayload lib env quoteBuy MAX_RETRIES h) as [r1 s1]. cbn [snd] in Hs1.
  assert (Hn1 : Forall no_confirm s1).
  { eapply Forall_impl; [exact Hs1 | by intros []]. }
  destruct r1 as [[p1|]|e]; [| by left | by left].
  pose proof (getSwapPayload_emits quoteSell MAX_RETRIES (h ++ s1)) as Hs2.
  destruct (getSwapPayload lib env quoteSell MAX_RETRIES (h ++ s1)) as [r2 s2].
  cbn [snd] in Hs2.
  assert (Hn2 : Forall no_confirm s2).
  { eapply Forall_impl; [exact Hs2 | by intros []]. }
  destruct r2 as [[p2|]|e];
    [| left; split; [by apply Forall_app | done]
     | left; split; [by apply Forall_app | done]].
  destruct (env_getLatestBlockhash env _) as [[blockhash lastValidBlockHeight]|e].
  2:{ left. split; [| done]. rewrite !Forall_app. by repeat constructor. }
  cbn [fst snd].
  destruct (createOptimizedTransaction lib _ _ blockhash) as [atomicTx|].
  2:{ left. split; [| done]. rewrite !Forall_app. by repeat constructor. }
  match goal with
  | |- context [signAndSend lib env atomicTx blockhash lastValidBlockHeight ?h'] =>
      pose proof (signAndSend_submitted atomicTx blockhash lastValidBlockHeight h') as Hsend;
      destruct (signAndSend lib env atomicTx blockhash lastValidBlockHeight h') as [r ses]
  end.
  destruct Hsend as [[Hses Hr] | (pre & tx & txid & answer & -> & Hpre & ->)].
  - left. split; [| done]. rewrite !Forall_app. by repeat constructor.
  - right.
    match goal with
    | |- context [s1 ++ s2 ++ ?asked ++ ?log2 ++ pre ++ _] =>
        exists (s1 ++ s2 ++ asked ++ log2 ++ pre)
    end.
    exists tx, txid, blockhash, lastValidBlockHeight, answer.
    split_and!; [by rewrite <- !app_assoc | | | done].
    + rewrite !Forall_app. by repeat constructor.
    + rewrite !elem_of_app. right. right. left. right. left.
Qed.

Lemma checkAndTrade_submitted h :
  let '(r, es) := checkAndTrade cfg lib env h in submitted r es.
Proof.
  rewrite checkAndTrade_run. cbn zeta.
  match goal with
  | |- context [getQuote env USDC_MINT WSOL_MINT ?a MAX_RETRIES ?h'] =>
      pose proof (getQuote_emits USDC_MINT WSOL_MINT a MAX_RETRIES h') as Hq1;
      destruct (getQuote env USDC_MINT WSOL_MINT a MAX_RETRIES h') as [r1 q1]
  end.
  cbn [snd] in Hq1.
  assert (Hn1 : Forall no_confirm q1).
  { eapply Forall_impl; [exact Hq1 | by intros []]. }
  assert (Hfailed : forall e es,
            Forall no_confirm es ->
            let '(r, es') :=
              (let (r, line) := caught LogErrorCheckAndTrade e in
               (r, ELog LogChecking :: es ++ line)) in
            submitted r es').
  { intros e es Hes. unfold caught. destruct (message e); left.
    - split; [| done]. constructor; [done |]. apply Forall_app. by repeat constructor.
    - split; [| done]. constructor; [done |]. by rewrite app_nil_r. }
  destruct r1 as [[quoteBuy|]|e]; [| by apply Hfailed | by apply Hfailed].
  match goal with
  | |- context [getQuote env WSOL_MINT USDC_MINT ?a MAX_RETRIES ?h'] =>
      pose proof (getQuote_emits WSOL_MINT USDC_MINT a MAX_RETRIES h') as Hq2;
      destruct (getQuote env WSOL_MINT USDC_MINT a MAX_RETRIES h') as [r2 q2]
  end.
  cbn [snd] in Hq2.
  assert (Hn2 : Forall no_confirm q2).
  { eapply Forall_impl; [exact Hq2 | by intros []]. }
  assert (Hn12 : Forall no_confirm (q1 ++ q2)) by by apply Forall_app.
  destruct r2 as [[quoteSell|]|e]; [| by apply Hfailed | by apply Hfailed].
  destruct (BigInt (outAmount quoteSell)) as [sellOut|e]; [| by apply Hfailed].
  destruct (sellOut <? _).
  { left. split; [| done].
    constructor; [done |]. rewrite !Forall_app. by repeat constructor. }
  match goal with
  | |- context [buildAndSubmit lib env quoteBuy quoteSell ?h'] =>
      pose proof (buildAndSubmit_submitted quoteBuy quoteSell h') as Hbuild;
      destruct (buildAndSubmit lib env quoteBuy quoteSell h') as [r bs]
  end.
  set (found := [ELog (LogProfitDetected (net cfg sellOut));
                 ENotify (opportunity cfg (net cfg sellOut))]).
  assert (Hfound : Forall no_confirm (ELog LogChecking :: q1 ++ q2 ++ found)).
  { constructor; [done |]. rewrite !Forall_app. by repeat constructor. }
  destruct Hbuild as [[Hbs Hr] | (pre & tx & txid & bh & lv & answer & -> & Hpre & Hbh & ->)].
  - destruct r as [b|e].
    + left. split; [| done].
      replace (ELog LogChecking :: q1 ++ q2 ++ found ++ bs)
        with ((ELog LogChecking :: q1 ++ q2 ++ found) ++ bs)
        by (cbn [app]; by rewrite <- !app_assoc).
      by apply Forall_app.
    + apply Hfailed. rewrite !Forall_app. split_and!; try done. by repeat constructor.
  - replace (q1 ++ q2 ++ found ++ pre ++ ESend tx (Ok txid)
               :: EConfirm (Some txid) bh lv answer :: (confirm_outcome answer).2)
      with ((q1 ++ q2 ++ found ++ pre)
              ++ ESend tx (Ok txid) :: EConfirm (Some txid) bh lv answer
              :: (confirm_outcome answer).2)
      by (by rewrite <- !app_assoc).
    assert (Hall : Forall no_confirm (ELog LogChecking :: q1 ++ q2 ++ found ++ pre)).
    { constructor; [done |]. rewrite !Forall_app. split_and!; try done.
      by repeat constructor. }
    assert (Hin : EGetLatestBlockhash (Ok (bh, lv))
                    ∈ ELog LogChecking :: q1 ++ q2 ++ found ++ pre).
    { right. rewrite !elem_of_app. by do 3 right. }
    destruct answer as [[]|error]; cbn [confirm_outcome fst snd].
    + right.
      exists (ELog LogChecking :: q1 ++ q2 ++ found ++ pre), tx, txid, bh, lv, (Ok ()).
      split_and!; done.
    + destruct (message error) as [m|type_error] eqn:Hmessage;
        unfold caught; rewrite Hmessage; cbn [fst snd message]; right;
        exists (ELog LogChecking :: q1 ++ q2 ++ found ++ pre), tx, txid, bh, lv,
          (Throw error);
        cbn [confirm_log confirm_ok]; rewrite Hmessage.
      * split_and!; done.
      * split_and!; try done. cbn [app]. f_equal. by rewrite <- !app_assoc.
Qed.

(** *** The request of the blockhash *)

Lemma signAndSend_no_blockhash atomicTx blockhash lastValidBlockHeight :
  emits no_blockhash_rejected
    (signAndSend lib env atomicTx blockhash lastValidBlockHeight).
Proof.
  unfold signAndSend. apply emits_bind; [apply emits_lift |]. intros signed.
  apply emits_try_catch.
  - apply emits_bind.
    + eapply emits_impl; [| apply sendTransactionWithSimulation_emits].
      by intros [].
    + intros txid. apply emits_bind; [by apply emits_call |]. intros _.
      apply emits_bind; [by apply emits_emit | intros; apply emits_ret].
  - intros e. apply emits_bind; [apply emits_read_message |]. intros m.
    apply emits_bind; [by apply emits_emit | intros; apply emits_ret].
Qed.

(** A rejected request of the blockhash is the last event of
    [buildAndSubmit], which throws what the request was rejected with. *)
Lemma buildAndSubmit_blockhash_rejected quoteBuy quoteSell h error :
  EGetLatestBlockhash (Throw error) ∈ (buildAndSubmit lib env quoteBuy quoteSell h).2 ->
  (buildAndSubmit lib env quoteBuy quoteSell h).1 = Throw error
  /\ last (buildAndSubmit lib env quoteBuy quoteSell h).2
     = Some (EGetLatestBlockhash (Throw error)).
Proof.
  rewrite buildAndSubmit_run. cbn zeta.
  pose proof (getSwapPayload_emits quoteBuy MAX_RETRIES h) as Hs1.
  destruct (getSwapPayload lib env quoteBuy MAX_RETRIES h) as [r1 s1]. cbn [snd] in Hs1.
  assert (Hn1 : Forall no_blockhash_rejected s1).
  { eapply Forall_impl; [exact Hs1 | by intros []]. }
  assert (Hnot : forall es, Forall no_blockhash_rejected es ->
                            EGetLatestBlockhash (Throw error) ∉ es).
  { intros es Hes Hin. rewrite Forall_forall in Hes. by destruct (Hes _ Hin). }
  destruct r1 as [[p1|]|e]; [| by intros ?%Hnot | by intros ?%Hnot].
  pose proof (getSwapPayload_emits quoteSell MAX_RETRIES (h ++ s1)) as Hs2.
  destruct (getSwapPayload lib env quoteSell MAX_RETRIES (h ++ s1)) as [r2 s2].
  cbn [snd] in Hs2.
  assert (Hn2 : Forall no_blockhash_rejected (s1 ++ s2)).
  { apply Forall_app. split; [done |].
    eapply Forall_impl; [exact Hs2 | by intros []]. }
  destruct r2 as [[p2|]|e]; [| by intros ?%Hnot | by intros ?%Hnot].
  destruct (env_getLatestBlockhash env _) as [[blockhash lastValidBlockHeight]|e].
  2:{ cbn [fst snd]. intros Hin. rewrite app_assoc in Hin.
      apply elem_of_app in Hin as [Hin | Hin]; [by apply Hnot in Hin |].
      apply elem_of_cons in Hin as [? | Hin]; [done |].
      apply list_elem_of_singleton in Hin as [= ->].
      split; [done | last_event]. }
  cbn [fst snd].
  destruct (createOptimizedTransaction lib _ _ blockhash) as [atomicTx|].
  2:{ cbn [snd]. intros Hin. rewrite app_assoc in Hin.
      apply elem_of_app in Hin as [Hin | Hin]; [by apply Hnot in Hin |].
      exfalso. revert Hin. apply Hnot. by repeat constructor. }
  match goal with
  | |- context [signAndSend lib env atomicTx blockhash lastValidBlockHeight ?h'] =>
      pose proof (signAndSend_no_blockhash atomicTx blockhash lastValidBlockHeight h')
        as Hsend;
      destruct (signAndSend lib env atomicTx blockhash lastValidBlockHeight h') as [r ses]
  end.
  cbn [snd] in *. intros Hin. rewrite app_assoc in Hin.
  apply elem_of_app in Hin as [Hin | Hin]; [by apply Hnot in Hin |].
  exfalso. revert Hin. apply Hnot. rewrite !Forall_app. by repeat constructor.
Qed.

(** A request of the blockhash rejected with [null] or [undefined] is the
    last event of [checkAndTrade], which throws the [TypeError] of reading
    its message. *)
Lemma checkAndTrade_blockhash_rejected h error type_error :
  message error = Throw type_error ->
  let '(r, es) := checkAndTrade cfg lib env h in
  EGetLatestBlockhash (Throw error) ∈ es ->
  r = Throw (ErrorObject type_error)
  /\ last es = Some (EGetLatestBlockhash (Throw error)).
Proof.
  intros Hmessage. rewrite checkAndTrade_run. cbn zeta.
  assert (Hnot : forall es, Forall no_blockhash_rejected es ->
                            EGetLatestBlockhash (Throw error) ∉ es).
  { intros es Hes Hin. rewrite Forall_forall in Hes. by destruct (Hes _ Hin). }
  assert (Hfailed : forall e es,
            Forall no_blockhash_rejected es ->
            let '(r, es') :=
              (let (r, line) := caught LogErrorCheckAndTrade e in
               (r, ELog LogChecking :: es ++ line)) in
            EGetLatestBlockhash (Throw error) ∈ es' ->
            r = Throw (ErrorObject type_error)
            /\ last es' = Some (EGetLatestBlockhash (Throw error))).
  { intros e es Hes. unfold caught. destruct (message e); intros Hin; exfalso;
      revert Hin; apply Hnot; constructor; try done;
      rewrite ?Forall_app; by repeat constructor. }
  match goal with
  | |- context [getQuote env USDC_MINT WSOL_MINT ?a MAX_RETRIES ?h'] =>
      pose proof (getQuote_emits USDC_MINT WSOL_MINT a MAX_RETRIES h') as Hq1;
      destruct (getQuote env USDC_MINT WSOL_MINT a MAX_RETRIES h') as [r1 q1]
  end.
  cbn [snd] in Hq1.
  assert (Hn1 : Forall no_blockhash_rejected q1).
  { eapply Forall_impl; [exact Hq1 | by intros []]. }
  destruct r1 as [[quoteBuy|]|e]; [| by apply Hfailed | by apply Hfailed].
  match goal with
  | |- context [getQuote env WSOL_MINT USDC_MINT ?a MAX_RETRIES ?h'] =>
      pose proof (getQuote_emits WSOL_MINT USDC_MINT a MAX_RETRIES h') as Hq2;
      destruct (getQuote env WSOL_MINT USDC_MINT a MAX_RETRIES h') as [r2 q2]
  end.
  cbn [snd] in Hq2.
  assert (Hn12 : Forall no_blockhash_rejected (q1 ++ q2)).
  { apply Forall_app. split; [done |].
    eapply Forall_impl; [exact Hq2 | by intros []]. }
  destruct r2 as [[quoteSell|]|e]; [| by apply Hfailed | by apply Hfailed].
  destruct (BigInt (outAmount quoteSell)) as [sellOut|e]; [| by apply Hfailed].
  destruct (sellOut <? _).
  { intros Hin. exfalso. revert Hin. apply Hnot. constructor; [done |].
    rewrite app_assoc. apply Forall_app. split; [done | by repeat constructor]. }
  match goal with
  | |- context [buildAndSubmit lib env quoteBuy quoteSell ?h'] =>
      pose proof (buildAndSubmit_blockhash_rejected quoteBuy quoteSell h' error)
        as Hbuild;
      destruct (buildAndSubmit lib env quoteBuy quoteSell h') as [r bs]
  end.
  cbn [fst snd] in Hbuild.
  set (found := [ELog (LogProfitDetected (net cfg sellOut));
                 ENotify (opportunity cfg (net cfg sellOut))]) in *.
  assert (Hfound : Forall no_blockhash_rejected (ELog LogChecking :: q1 ++ q2 ++ found)).
  { constructor; [done |]. rewrite app_assoc. apply Forall_app.
    split; [done | by repeat constructor]. }
  assert (Hbs : forall line,
            Forall no_blockhash_rejected line ->
            EGetLatestBlockhash (Throw error)
              ∈ ELog LogChecking :: (q1 ++ q2 ++ found ++ bs) ++ line ->
            EGetLatestBlockhash (Throw error) ∈ bs).
  { intros line Hline Hin.
    replace (ELog LogChecking :: (q1 ++ q2 ++ found ++ bs) ++ line)
      with ((ELog LogChecking :: q1 ++ q2 ++ found) ++ bs ++ line) in Hin
      by (cbn [app]; by rewrite <- !app_assoc).
    apply elem_of_app in Hin as [Hin | Hin]; [by apply Hnot in Hin |].
    apply elem_of_app in Hin as [Hin | Hin]; [done | by apply Hnot in Hin]. }
  destruct r as [b|e].
  - intros Hin. specialize (Hbs [] (Forall_nil_2 _)). rewrite app_nil_r in Hbs.
    by destruct (Hbuild (Hbs Hin)) as [[=] _].
  - unfold caught. destruct (message e) as [m|type_error'] eqn:Hmessage'.
    + intros Hin. apply Hbs in Hin; [| by repeat constructor].
      destruct (Hbuild Hin) as [[= ->] _]. congruence.
    + intros Hin. apply Hbs in Hin; [| done].
      destruct (Hbuild Hin) as [[= ->] Hlast].
      split; [congruence |]. rewrite app_nil_r. last_event.
Qed.

End CycleFacts.

(** ** The main loop *)

Section MainLoop.
Context (cfg : Config) (lib : Web3) (env : Env).

(** A turn around a cycle that returns. *)
Lemma loop_turn_returns (cycle : M bool) consecutiveErrors h success es :
  cycle h = (Ok success, es) ->
  loop_turn cycle consecutiveErrors h
  = (Ok (if success then 0 else consecutiveErrors + 1), es ++ [ESleep 5000]).
Proof.
  intros Hcycle. unfold loop_turn, try_catch. rewrite !bind_run, Hcycle.
  destruct success; cbn; unfold sleep; rewrite emit_bind_run; cbn;
    by rewrite app_nil_r.
Qed.

(** A turn around a cycle that throws an error: the only turn with the
    cooldown. *)
Lemma loop_turn_throws (cycle : M bool) consecutiveErrors h error es :
  cycle h = (Throw (ErrorObject error), es) ->
  loop_turn cycle consecutiveErrors h
  = let n := consecutiveErrors + 1 in
    if maxConsecutiveErrors <=? n then
      (Ok 0, es ++ [ELog (LogErrorMainLoop n error); ELog LogTooManyErrors;
                    ESleep 30000; ESleep 5000])
    else (Ok n, es ++ [ELog (LogErrorMainLoop n error); ESleep 5000]).
Proof.
  intros Hcycle. unfold loop_turn, try_catch. rewrite !bind_run, Hcycle.
  cbn zeta. rewrite read_message_bind_run. cbn [message].
  unfold console, sleep. rewrite emit_bind_run.
  destruct (maxConsecutiveErrors <=? consecutiveErrors + 1).
  - rewrite !emit_bind_run. cbn. rewrite emit_bind_run. cbn.
    by rewrite <- !app_assoc.
  - cbn. rewrite emit_bind_run. cbn. by rewrite <- !app_assoc.
Qed.

(** What [checkAndTrade] throws is an error. *)
Lemma checkAndTrade_returns h :
  (exists success es, checkAndTrade cfg lib env h = (Ok success, es))
  \/ exists type_error es, checkAndTrade cfg lib env h = (Throw (ErrorObject type_error), es).
Proof.
  pose proof (checkAndTrade_ends cfg lib env h) as Hrun.
  destruct (checkAndTrade cfg lib env h) as [[b|e] es].
  - left. by eexists _, _.
  - right. destruct Hrun as (error & type_error & _ & _ & ->). by eexists _, _.
Qed.

End MainLoop.



(** The one confirmation of a trace is where it is. *)
Lemma split_at_confirm (a b pre post : list Event) (c c' : Event) :
  Forall no_confirm a -> Forall no_confirm b -> ~ no_confirm c' ->
  a ++ c :: b = pre ++ c' :: post ->
  pre = a /\ c' = c /\ post = b.
Proof.
  intros Ha Hb Hc'. revert pre.
  induction Ha as [|x a Hx Ha IH]; intros pre Heq.
  - destruct pre as [|y pre]; cbn in Heq.
    + by injection Heq as <- <-.
    + injection Heq as <- ->. apply Forall_app in Hb as [_ [? _]%Forall_cons]. done.
  - destruct pre as [|y pre]; cbn in Heq.
    + injection Heq as <- _. done.
    + injection Heq as <- Heq. destruct (IH _ Heq) as (-> & -> & ->). done.
Qed.

(** C8: when the confirmation of a cycle fails, the cycle returns [false];
    the confirmation was that of the signature just broadcast, against the
    blockhash and the last valid block height fetched in the cycle; and
    the only event after it is the line reporting the error (that of the
    [catch] of line 386, or, for a rejection with [null] or [undefined],
    that of the [catch] of line 391): no simulation and no broadcast
    follows. *)
Theorem confirmation_failure_not_resubmitted (cfg : Config) (lib : Web3) (env : Env)
    (h pre post : list Event) (signature : option string) (blockhash : string)
    (lastValidBlockHeight : Z) (error : Thrown) :
  (checkAndTrade cfg lib env h).2
    = pre ++ EConfirm signature blockhash lastValidBlockHeight (Throw error) :: post ->
  (checkAndTrade cfg lib env h).1 = Ok false
  /\ post = [ELog (confirm_log (Throw error))]
  /\ simulations post = [] /\ broadcasts post = []
  /\ (exists pre' tx txid, pre = pre' ++ [ESend tx (Ok txid)] /\ signature = Some txid)
  /\ EGetLatestBlockhash (Ok (blockhash, lastValidBlockHeight)) ∈ pre.
Proof.
  pose proof (checkAndTrade_submitted cfg lib env h) as Hsub.
  destruct (checkAndTrade cfg lib env h) as [r es]. cbn [fst snd].
  intros ->.
  destruct Hsub as [[Hes _] | (pre0 & tx & txid & bh & lv & answer & Heq & Hpre & Hbh & ->)].
  { apply Forall_app in Hes as [_ [[] _]%Forall_cons]. }
  assert (Hsplit : (pre0 ++ [ESend tx (Ok txid)])
                     ++ EConfirm (Some txid) bh lv answer :: [ELog (confirm_log answer)]
                   = pre ++ EConfirm signature blockhash lastValidBlockHeight (Throw error)
                          :: post).
  { rewrite <- app_assoc. cbn [app]. by rewrite <- Heq. }
  apply split_at_confirm in Hsplit as (-> & [= -> -> -> <-] & ->).
  - split_and!; try done.
    + by exists pre0, tx, txid.
    + apply elem_of_app. by left.
  - apply Forall_app. split; [done | by repeat constructor].
  - by repeat constructor.
  - by intros [].
Qed.

(** On a profitable round whose confirmation fails. *)
Lemma confirmation_failure_witness :
  (checkAndTrade source_config Sample.lib Sample.unconfirmed []).2
    = Sample.unconfirmed_before
        ++ EConfirm (Some "signature") "blockhash" 100
             (Throw (ErrorObject "block height exceeded"))
        :: [ELog (LogErrorSending "block height exceeded")]
  /\ (checkAndTrade source_config Sample.lib Sample.unconfirmed []).1 = Ok false
  /\ broadcasts [ELog (LogErrorSending "block height exceeded")] = [].
Proof.
  assert (Hrun : (checkAndTrade source_config Sample.lib Sample.unconfirmed []).2
    = Sample.unconfirmed_before
        ++ EConfirm (Some "signature") "blockhash" 100
             (Throw (ErrorObject "block height exceeded"))
        :: [ELog (LogErrorSending "block height exceeded")]).
  { vm_compute. reflexivity. }
  split; [exact Hrun |].
  destruct (confirmation_failure_not_resubmitted _ _ _ _ _ _ _ _ _ _ Hrun)
    as (Hresult & _ & _ & Hsends & _).
  split; [exact Hresult | exact Hsends].
Defined.

(** A confirmation rejected with [null]: the [catch] of line 386 throws
    at [error.message], the [catch] of line 391 writes the message of that
    [TypeError], and the cycle returns [false]. *)
Example confirmation_rejected_with_null :
  (checkAndTrade source_config Sample.lib Sample.confirmation_rejected_with_null []).1
  = Ok false
  /\ drop 11 (checkAndTrade source_config Sample.lib
                Sample.confirmation_rejected_with_null []).2
     = [ ESend Sample.signed (Ok "signature");
         EConfirm (Some "signature") "blockhash" 100 (Throw Null);
         ELog (LogErrorCheckAndTrade
                 "Cannot read properties of null (reading 'message')") ].
Proof. split; vm_compute; reflexivity. Qed.

(** ** The profit check *)

(** Cases of membership in a trace written out with [::] and [++]. *)
Ltac in_cases H :=
  repeat first
    [ apply elem_of_nil in H; destruct H
    | apply elem_of_cons in H as [H|H]
    | apply elem_of_app in H as [H|H] ].

(** An event of a kind its part of the trace does not hold. *)
Ltac known_event H :=
  match type of H with
  | _ = _ => idtac
  | ?ev ∈ ?l =>
      match goal with
      | Hf : Forall _ l |- _ =>
          let Hev := fresh "Hev" in
          pose proof (proj1 (Forall_forall _ _) Hf _ H) as Hev; cbn in Hev
      end
  end.

Section ProfitCheck.
Context (cfg : Config) (lib : Web3) (env : Env).

Local Abbreviation a := (INPUT_USDC cfg).
Local Abbreviation p := (MIN_PROFIT_USDC cfg).

(** The part of a trace made of the events of the two quote calls. *)
Lemma quotes_checked quoteBuy q1 q2 :
  Forall (quote_event MAX_RETRIES USDC_MINT WSOL_MINT (AInt a)) q1 ->
  (q2 <> [] -> EQuote USDC_MINT WSOL_MINT (AInt a) (Ok (Some quoteBuy)) ∈ q1) ->
  Forall (quote_event MAX_RETRIES WSOL_MINT USDC_MINT (outAmount quoteBuy)) q2 ->
  (forall q k r, ESwapInstructions q k r ∉ q1 ++ q2)
  /\ (forall outputMint amount q,
        EQuote WSOL_MINT outputMint amount (Ok (Some q)) ∈ q1 ++ q2 ->
        EQuote WSOL_MINT outputMint amount (Ok (Some q)) ∈ q2)
  /\ (forall inputMint outputMint amount r,
        EQuote inputMint outputMint amount r ∈ q1 ++ q2 ->
        (inputMint = USDC_MINT /\ outputMint = WSOL_MINT /\ amount = AInt a)
        \/ (inputMint = WSOL_MINT /\ outputMint = USDC_MINT
            /\ EQuote USDC_MINT WSOL_MINT (AInt a) (Ok (Some quoteBuy)) ∈ q1
            /\ amount = outAmount quoteBuy)).
Proof.
  intros Hq1 Hbuy Hq2. split_and!.
  - intros q k r Hin. in_cases Hin; by known_event Hin.
  - intros om amt q Hin. in_cases Hin; [| done]. known_event Hin. by destruct Hev.
  - intros im om amt r Hin. in_cases Hin; known_event Hin.
    + by left.
    + right. destruct Hev as (-> & -> & ->). split_and!; try done.
      apply Hbuy. intros ->. by apply elem_of_nil in Hin.
Qed.

(** A cycle that ends in the [catch] before any sell quote is usable. *)
Lemma checked_failed quoteBuy q1 q2 e :
  Forall (quote_event MAX_RETRIES USDC_MINT WSOL_MINT (AInt a)) q1 ->
  (q2 <> [] -> EQuote USDC_MINT WSOL_MINT (AInt a) (Ok (Some quoteBuy)) ∈ q1) ->
  Forall (quote_event MAX_RETRIES WSOL_MINT USDC_MINT (outAmount quoteBuy)) q2 ->
  (forall outputMint amount q sellOut,
     EQuote WSOL_MINT outputMint amount (Ok (Some q)) ∈ q2 ->
     outAmount q = AInt sellOut -> False) ->
  profit_checked cfg (Ok false)
    (ELog LogChecking :: (q1 ++ q2) ++ [ELog (LogErrorCheckAndTrade e)]).
Proof.
  intros Hq1 Hbuy Hq2 Hnone.
  destruct (quotes_checked quoteBuy q1 q2 Hq1 Hbuy Hq2) as (Hswap & Hsell & Hasked).
  split_and!.
  - intros q k r Hin. apply elem_of_cons in Hin as [? | Hin]; [done |].
    apply elem_of_app in Hin as [Hin | Hin]; [by destruct (Hswap _ _ _ Hin) |].
    by in_cases Hin.
  - intros om amt q z Hin Hout _. apply elem_of_cons in Hin as [? | Hin]; [done |].
    apply elem_of_app in Hin as [Hin | Hin]; [| by in_cases Hin].
    destruct (Hnone _ _ _ _ (Hsell _ _ _ Hin) Hout).
  - intros im om amt r Hin. apply elem_of_cons in Hin as [? | Hin]; [done |].
    apply elem_of_app in Hin as [Hin | Hin]; [| by in_cases Hin].
    destruct (Hasked _ _ _ _ Hin) as [? | (-> & -> & Hb & ->)]; [by left | right].
    split_and!; try done. exists quoteBuy. split; [| done].
    right. apply elem_of_app. left. by apply elem_of_app; left.
Qed.

(** A cycle that ends at the profit check. *)
Lemma checked_no_opportunity quoteBuy quoteSell sellOut q1 q2 :
  Forall (quote_event MAX_RETRIES USDC_MINT WSOL_MINT (AInt a)) q1 ->
  EQuote USDC_MINT WSOL_MINT (AInt a) (Ok (Some quoteBuy)) ∈ q1 ->
  Forall (quote_event MAX_RETRIES WSOL_MINT USDC_MINT (outAmount quoteBuy)) q2 ->
  (forall outputMint amount q,
     EQuote WSOL_MINT outputMint amount (Ok (Some q)) ∈ q2 -> q = quoteSell) ->
  outAmount quoteSell = AInt sellOut ->
  profit_checked cfg (Ok false)
    (ELog LogChecking :: q1 ++ q2 ++ [ELog (LogNoOpportunity (net cfg sellOut))]).
Proof.
  intros Hq1 Hbuy Hq2 Honly Hout.
  destruct (quotes_checked quoteBuy q1 q2 Hq1 (λ _, Hbuy) Hq2) as (Hswap & Hsell & Hasked).
  rewrite app_assoc.
  assert (Hnoswap : forall q k r,
            ESwapInstructions q k r
              ∉ ELog LogChecking :: (q1 ++ q2)
                  ++ [ELog (LogNoOpportunity (net cfg sellOut))]).
  { intros q k r Hin. apply elem_of_cons in Hin as [? | Hin]; [done |].
    apply elem_of_app in Hin as [Hin | Hin]; [by destruct (Hswap _ _ _ Hin) |].
    by in_cases Hin. }
  split_and!.
  - intros q k r Hin. destruct (Hnoswap _ _ _ Hin).
  - intros om amt q z Hin Hz _. apply elem_of_cons in Hin as [? | Hin]; [done |].
    apply elem_of_app in Hin as [Hin | Hin]; [| by in_cases Hin].
    rewrite (Honly _ _ _ (Hsell _ _ _ Hin)), Hout in Hz. injection Hz as <-.
    split_and!; [done | | done].
    by rewrite app_comm_cons, last_snoc.
  - intros im om amt r Hin. apply elem_of_cons in Hin as [? | Hin]; [done |].
    apply elem_of_app in Hin as [Hin | Hin]; [| by in_cases Hin].
    destruct (Hasked _ _ _ _ Hin) as [? | (-> & -> & Hb & ->)]; [by left | right].
    split_and!; try done. exists quoteBuy. split; [| done].
    right. apply elem_of_app. left. by apply elem_of_app; left.
Qed.

(** A cycle that goes on to instruction building. *)
Lemma checked_building quoteBuy quoteSell sellOut q1 q2 profit bs tail result :
  Forall (quote_event MAX_RETRIES USDC_MINT WSOL_MINT (AInt a)) q1 ->
  EQuote USDC_MINT WSOL_MINT (AInt a) (Ok (Some quoteBuy)) ∈ q1 ->
  Forall (quote_event MAX_RETRIES WSOL_MINT USDC_MINT (outAmount quoteBuy)) q2 ->
  EQuote WSOL_MINT USDC_MINT (outAmount quoteBuy) (Ok (Some quoteSell)) ∈ q2 ->
  (forall outputMint amount q,
     EQuote WSOL_MINT outputMint amount (Ok (Some q)) ∈ q2 -> q = quoteSell) ->
  outAmount quoteSell = AInt sellOut ->
  a + p <= sellOut ->
  Forall build_event (bs ++ tail) ->
  profit_checked cfg result
    (ELog LogChecking :: q1 ++ q2
       ++ [ELog (LogProfitDetected profit); ENotify (opportunity cfg profit)]
       ++ bs ++ tail).
Proof.
  intros Hq1 Hbuy Hq2 Hsold Honly Hout Hprofit Hbs.
  destruct (quotes_checked quoteBuy q1 q2 Hq1 (λ _, Hbuy) Hq2) as (Hswap & Hsell & Hasked).
  rewrite app_assoc.
  assert (Hq12 : forall ev, ev ∈ q1 ++ q2 ->
            ev ∈ ELog LogChecking :: (q1 ++ q2)
                   ++ [ELog (LogProfitDetected profit); ENotify (opportunity cfg profit)]
                   ++ bs ++ tail).
  { intros ev Hev. right. apply elem_of_app. by left. }
  split_and!.
  - intros _ _ _ _. exists quoteBuy, quoteSell, sellOut. split_and!; try done.
    + apply Hq12, elem_of_app. by left.
    + apply Hq12, elem_of_app. by right.
  - intros om amt q z Hin Hz Hlt. apply elem_of_cons in Hin as [? | Hin]; [done |].
    apply elem_of_app in Hin as [Hin | Hin].
    + rewrite (Honly _ _ _ (Hsell _ _ _ Hin)), Hout in Hz. injection Hz as <-. lia.
    + apply elem_of_cons in Hin as [? | Hin]; [done |].
      apply elem_of_cons in Hin as [? | Hin]; [done |]. by known_event Hin.
  - intros im om amt r Hin. apply elem_of_cons in Hin as [? | Hin]; [done |].
    apply elem_of_app in Hin as [Hin | Hin].
    + destruct (Hasked _ _ _ _ Hin) as [? | (-> & -> & Hb & ->)]; [by left | right].
      split_and!; try done. exists quoteBuy. split; [| done].
      apply Hq12, elem_of_app. by left.
    + apply elem_of_cons in Hin as [? | Hin]; [done |].
      apply elem_of_cons in Hin as [? | Hin]; [done |]. by known_event Hin.
Qed.

End ProfitCheck.



(** The second end-to-end scenario: a sell quote of 10000500 ends the
    cycle at the profit check. *)
Example insufficient_profit_cycle :
  checkAndTrade source_config Sample.lib (Sample.env 10000500) []
  = (Ok false,
     [ ELog LogChecking;
       EQuote USDC_MINT WSOL_MINT (AInt 10000000)
         (Ok (Some {| outAmount := AInt 60000; routePlan := "buy" |}));
       EQuote WSOL_MINT USDC_MINT (AInt 60000)
         (Ok (Some {| outAmount := AInt 10000500; routePlan := "sell" |}));
       ELog (LogNoOpportunity 0.0005) ]).
Proof. vm_compute. reflexivity. Qed.

(** ** Notification side channel *)

(** C2 fails on the code: whatever a cycle notifies is the object of lines
    320-325, whose fourth field is the raw base58 private key; and the
    profitable cycle of the shipped configuration does notify it. *)
Theorem notification_carries_private_key (cfg : Config) (lib : Web3) (env : Env)
    (h : list Event) :
  (forall o,
     ENotify o ∈ (checkAndTrade cfg lib env h).2 ->
     exists profit,
       o = [ ("profit", JNum profit);
             ("inputAmount", JNum (Number (INPUT_USDC cfg) / 1e6)%float);
             ("fees", JNum 0.000005);
             ("privateKey", JStr (PRIVATE_KEY_BASE58 cfg)) ])
  /\ ENotify [ ("profit", JNum 0.0013);
               ("inputAmount", JNum 10);
               ("fees", JNum 0.000005);
               ("privateKey", JStr "PRIVATE_KEY_BASE58") ]
       ∈ (checkAndTrade source_config Sample.lib (Sample.env 10001300) []).2.
Proof.
  split.
  - intros o Hin.
    pose proof (checkAndTrade_emits cfg lib env h) as Hes.
    rewrite Forall_forall in Hes. exact (Hes _ Hin).
  - vm_compute. do 4 right. left.
Qed.

(** ** Circuit breaker *)

(** C1 fails on the code.  Five cycles in a row that end with [false]
    (insufficient profit) take the counter to 5, yet the only sleeps are
    the five of 5000 ms; a sixth failed cycle takes the counter to 6,
    again without the cooldown: the threshold is tested in the [catch] of
    the loop only. *)
Theorem five_failed_cycles_no_cooldown :
  (main_loop source_config Sample.lib (Sample.env 10000500) 5 []).1 = Ok 5
  /\ sleeps (main_loop source_config Sample.lib (Sample.env 10000500) 5 []).2
     = [5000; 5000; 5000; 5000; 5000]
  /\ (main_loop source_config Sample.lib (Sample.env 10000500) 6 []).1 = Ok 6
  /\ sleeps (main_loop source_config Sample.lib (Sample.env 10000500) 6 []).2
     = [5000; 5000; 5000; 5000; 5000; 5000].
Proof. split_and!; vm_compute; reflexivity. Qed.

(** The cooldown as the [catch] has it: a cycle function that throws with
    the counter at 4 brings the pause of 30000 ms and the reset. *)
Example cooldown_in_catch :
  loop_turn (throw (ErrorObject "boom")) 4 []
  = (Ok 0, [ ELog (LogErrorMainLoop 5 "boom"); ELog LogTooManyErrors;
             ESleep 30000; ESleep 5000 ]).
Proof. vm_compute. reflexivity. Qed.

(** * Further properties *)

(** ** Instruction Builder: the instruction *)

Lemma map_keys_Ok (lib : Web3) (accts keys : list AccountMeta) :
  map_keys lib accts = Ok keys ->
  Forall2 (λ a k, PublicKey_new lib (pubkey a) = Ok (pubkey k)
                  /\ isSigner k = isSigner a /\ isWritable k = isWritable a)
    accts keys.
Proof.
  revert keys. induction accts as [|a accts IH]; intros keys; cbn [map_keys].
  - intros [= <-]. constructor.
  - destruct (PublicKey_new lib (pubkey a)) as [pk|e] eqn:Hpk; [| done].
    destruct (map_keys lib accts) as [ks|e]; [| done].
    intros [= <-]. constructor; [done | by apply IH].
Qed.

Lemma map_keys_Throw (lib : Web3) (accts : list AccountMeta) (e : Error) :
  map_keys lib accts = Throw e ->
  exists before a after,
    accts = before ++ a :: after
    /\ Forall (λ b, exists pk, PublicKey_new lib (pubkey b) = Ok pk) before
    /\ PublicKey_new lib (pubkey a) = Throw e.
Proof.
  induction accts as [|a accts IH]; cbn [map_keys]; [done |].
  destruct (PublicKey_new lib (pubkey a)) as [pk|e'] eqn:Hpk.
  - destruct (map_keys lib accts) as [ks|e'']; [done |].
    intros [= ->]. destruct (IH eq_refl) as (before & b & after & -> & Hbefore & Hb).
    exists (a :: before), b, after. split_and!; [done | | done].
    constructor; [by exists pk | done].
  - intros [= ->]. by exists [], a, accts.
Qed.

(** X2: the instruction is built whole or not at all.  When it is built,
    its program id is the key made of the [programId] of the answer, its
    payload is the decoded [data], and its accounts are those of the
    answer, one for one and in order, each with its key and its signer and
    writable flags unchanged.  When it is not, the error is that of the
    program id, or else that of the first account whose key is rejected. *)
Theorem buildInstruction_all_or_nothing (lib : Web3) (si : SwapInstructionJson) :
  match buildInstruction lib si with
  | Ok ix =>
      PublicKey_new lib (si_programId si) = Ok (ix_programId ix)
      /\ ix_data ix = si_data si
      /\ Forall2 (λ a k, PublicKey_new lib (pubkey a) = Ok (pubkey k)
                         /\ isSigner k = isSigner a /\ isWritable k = isWritable a)
           (si_accounts si) (ix_keys ix)
  | Throw e =>
      PublicKey_new lib (si_programId si) = Throw e
      \/ ((exists pid, PublicKey_new lib (si_programId si) = Ok pid)
          /\ exists before a after,
               si_accounts si = before ++ a :: after
               /\ Forall (λ b, exists pk, PublicKey_new lib (pubkey b) = Ok pk) before
               /\ PublicKey_new lib (pubkey a) = Throw e)
  end.
Proof.
  unfold buildInstruction.
  destruct (PublicKey_new lib (si_programId si)) as [pid|e]; [| by left].
  destruct (map_keys lib (si_accounts si)) as [ks|e] eqn:Hkeys.
  - cbn. split_and!; [done | done | by apply map_keys_Ok].
  - right. split; [by exists pid | by apply map_keys_Throw].
Qed.

(** On the sample library an empty string is no key: the second account
    of three stops the construction. *)
Example buildInstruction_rejected :
  buildInstruction Sample.lib
    {| si_programId := "JUP";
       si_accounts :=
         [ {| pubkey := "A"; isSigner := true; isWritable := true |};
           {| pubkey := ""; isSigner := false; isWritable := true |};
           {| pubkey := "C"; isSigner := false; isWritable := false |} ];
       si_data := [] |}
  = Throw "Invalid public key input".
Proof. reflexivity. Qed.

(** ** Submission Pipeline: what a call returns *)

Lemma broadcasts_failed_attempts (tx : VersionedTransaction) (failures : list Attempt) :
  Forall (λ a, exists error, attempt_error a = Some error) failures ->
  Forall send_failed (failures ≫= λ a, broadcasts (submit_attempt tx a)).
Proof.
  induction 1 as [|a failures Ha _ IH]; [constructor |].
  rewrite bind_cons. apply Forall_app. split; [| done].
  destruct a as [r|error|txid]; cbn.
  - constructor.
  - repeat constructor. by exists error.
  - by destruct Ha.
Qed.

Lemma simulations_attempts (tx : VersionedTransaction) (attempts : list Attempt) :
  length (attempts ≫= λ a, simulations (submit_attempt tx a)) = length attempts.
Proof.
  induction attempts as [|a attempts IH]; [done |].
  rewrite bind_cons, length_app, IH. by destruct a.
Qed.

(** X3: what a call of the Submission Pipeline returns.  Every simulation
    and every broadcast of the trace carries what the node answers at its
    point of the history.  The call simulates at most [retries] times and
    sleeps 1000, 2000, ... ms between its attempts.  It returns the
    signature of a broadcast that succeeded, which is its last event and
    comes right after a simulation that passed; every broadcast before it
    was rejected, so a call never broadcasts again after a broadcast that
    succeeded.  When it throws, none of its broadcasts succeeded, and its
    last attempt threw: the error of line 277 when the last simulation did
    not pass, or what the last broadcast was rejected with; the call
    throws that value, after exactly [retries] attempts, when its message
    can be read, and the [TypeError] of reading the message of [null] or
    [undefined], at once, when it cannot. *)
Theorem sendTransactionWithSimulation_outcome (env : Env) (tx : VersionedTransaction)
    (retries : nat) (h : list Event) :
  let '(result, es) := sendTransactionWithSimulation env tx retries h in
  answered env h es
  /\ sleeps es = (λ k : nat, 1000 * Z.of_nat k) <$> seq 1 (length (simulations es) - 1)
  /\ (length (simulations es) <= retries)%nat
  /\ match result with
     | Ok (Some txid) =>
         exists pre,
           es = pre ++ [ESimulate tx (Ok None); ESend tx (Ok txid)]
           /\ Forall send_failed (broadcasts pre)
     | Throw e =>
         Forall send_failed (broadcasts es)
         /\ exists error,
              submission_error tx (last es) error
              /\ gives_up retries (length (simulations es)) error e
     | Ok None => retries = 0%nat /\ es = []
     end.
Proof.
  pose proof (sendTransactionWithSimulation_loop_policy env tx retries
                retries 0 h eq_refl) as Hloop.
  pose proof (sendTransactionWithSimulation_answers env tx retries h) as Hanswered.
  unfold sendTransactionWithSimulation in *.
  destruct (sendTransactionWithSimulation_loop env tx retries 0 retries h)
    as [result es].
  cbn [snd] in Hanswered. split; [done |].
  destruct Hloop as (attempts & Htrace & Hresult).
  assert (Hsims : simulations es
                  = attempts ≫= (λ a, simulations (submit_attempt tx a))).
  { rewrite Htrace. by apply omap_retry_trace. }
  assert (Hsends : broadcasts es
                   = attempts ≫= (λ a, broadcasts (submit_attempt tx a))).
  { rewrite Htrace. by apply omap_retry_trace. }
  assert (Hcount : length (simulations es) = length attempts).
  { rewrite Hsims. apply simulations_attempts. }
  assert (Hretried : forall failures,
            Forall attempt_retried failures ->
            Forall (λ a, exists error, attempt_error a = Some error) failures).
  { intros failures Hfailures. eapply Forall_impl; [exact Hfailures |].
    intros a (error & m & Herr & _). by exists error. }
  split.
  { rewrite Htrace at 1. rewrite Hcount. apply sleeps_retry_trace. by intros []. }
  destruct result as [[txid|]|e].
  - destruct Hresult as (failures & -> & Hfailures & Hlen).
    split; [lia |].
    destruct (retry_trace_snoc (submit_attempt tx) failures (Sent txid) 0) as [pre Hpre].
    exists pre. rewrite Htrace. split; [exact Hpre |].
    rewrite Htrace, Hpre in Hsends. unfold broadcasts in Hsends at 1.
    rewrite omap_app, bind_app in Hsends. cbn in Hsends.
    apply app_inj_2 in Hsends as [Hsends _]; [| done].
    unfold broadcasts. rewrite Hsends.
    by apply broadcasts_failed_attempts, Hretried.
  - destruct Hresult as [-> ->]. cbn in Htrace. subst es. by cbn.
  - destruct Hresult as (failures & a & error & -> & Hfailures & Herr & Hgive & Hlen).
    split; [lia |]. split.
    + rewrite Hsends. apply broadcasts_failed_attempts.
      apply Forall_app. split; [by apply Hretried |]. repeat constructor.
      by exists error.
    + exists error. rewrite Hcount. split; [| done].
      destruct (retry_trace_snoc (submit_attempt tx) failures a 0) as [pre Hpre].
      rewrite Htrace, Hpre.
      destruct a as [r|error'|txid]; cbn in Herr |- *.
      * left. exists r. destruct (simulation_ok r); [done |]. injection Herr as <-.
        split_and!; [| done | done]. by rewrite last_snoc.
      * right. injection Herr as ->.
        change [ESimulate tx (Ok None); ESend tx (Throw error)]
          with ([ESimulate tx (Ok None)] ++ [ESend tx (Throw error)]).
        by rewrite app_assoc, last_snoc.
      * done.
Qed.

(** A broadcast rejected with [null] ends the call at once, with the
    [TypeError], though two attempts remain. *)
Example sendTransactionWithSimulation_rejected_with_null :
  sendTransactionWithSimulation Sample.broadcast_rejects_null Sample.tx 3 []
  = (Throw (ErrorObject "Cannot read properties of null (reading 'message')"),
     [ ESimulate Sample.tx (Ok None); ESend Sample.tx (Throw Null) ]).
Proof. vm_compute. reflexivity. Qed.

(** ** The cycle: what is submitted *)

Section Provenance.
Context (cfg : Config) (lib : Web3) (env : Env).

Lemma built_from_mono quoteBuy quoteSell pre pre' tx :
  (forall ev, ev ∈ pre -> ev ∈ pre') ->
  built_from lib quoteBuy quoteSell pre tx -> built_from lib quoteBuy quoteSell pre' tx.
Proof.
  intros Hsub (r1 & r2 & p1 & p2 & bh & lv & atomicTx
               & H1 & Hp1 & H2 & Hp2 & Hbh & Hcreate & Htx).
  exists r1, r2, p1, p2, bh, lv, atomicTx. split_and!; try done; by apply Hsub.
Qed.

(** What [signAndSend] submits is the signed transaction. *)
Lemma signAndSend_submits atomicTx blockhash lastValidBlockHeight h ev tx :
  ev ∈ (signAndSend lib env atomicTx blockhash lastValidBlockHeight h).2 ->
  submits ev = Some tx ->
  tx_sign lib atomicTx [wallet lib] = Ok tx.
Proof.
  rewrite signAndSend_run.
  destruct (tx_sign lib atomicTx [wallet lib]) as [signed|e];
    [| by intros ?%elem_of_nil].
  pose proof (sendTransactionWithSimulation_emits env signed MAX_RETRIES h) as Hses.
  destruct (sendTransactionWithSimulation env signed MAX_RETRIES h) as [sent ses].
  cbn [snd] in Hses. cbn zeta.
  assert (Hin_ses : ev ∈ ses -> submits ev = Some tx -> @Ok Error _ signed = Ok tx).
  { intros Hin Hsub. rewrite Forall_forall in Hses. specialize (Hses _ Hin).
    destruct ev; cbn in Hsub, Hses; congruence. }
  unfold confirm_outcome, caught.
  destruct sent as [txid|e];
    [destruct (env_confirmTransaction env (h ++ ses) txid blockhash lastValidBlockHeight)
       as [[]|e]; [| destruct (message e)]
    | destruct (message e)];
    cbn [snd]; intros Hin Hsub; in_cases Hin; subst; try discriminate; auto.
Qed.

(** What [buildAndSubmit] submits was built before, from its two quotes. *)
Lemma buildAndSubmit_submits quoteBuy quoteSell h ev tx :
  ev ∈ (buildAndSubmit lib env quoteBuy quoteSell h).2 ->
  submits ev = Some tx ->
  exists pre post,
    (buildAndSubmit lib env quoteBuy quoteSell h).2 = pre ++ ev :: post
    /\ built_from lib quoteBuy quoteSell pre tx.
Proof.
  rewrite buildAndSubmit_run. cbn zeta.
  pose proof (getSwapPayload_emits lib env quoteBuy MAX_RETRIES h) as Hs1.
  pose proof (getSwapPayload_returned lib env quoteBuy MAX_RETRIES h) as Hp1.
  destruct (getSwapPayload lib env quoteBuy MAX_RETRIES h) as [r1 s1].
  cbn [fst snd] in Hs1, Hp1.
  assert (Hno1 : ev ∈ s1 -> submits ev = Some tx -> False).
  { intros Hin Hsub. rewrite Forall_forall in Hs1. specialize (Hs1 _ Hin).
    by destruct ev. }
  destruct r1 as [[p1|]|e]; [| by intros Hin Hsub; destruct (Hno1 Hin Hsub) ..].
  destruct (Hp1 p1 eq_refl) as (a1 & Ha1 & Hout1).
  pose proof (getSwapPayload_emits lib env quoteSell MAX_RETRIES (h ++ s1)) as Hs2.
  pose proof (getSwapPayload_returned lib env quoteSell MAX_RETRIES (h ++ s1)) as Hp2.
  destruct (getSwapPayload lib env quoteSell MAX_RETRIES (h ++ s1)) as [r2 s2].
  cbn [fst snd] in Hs2, Hp2.
  assert (Hno2 : ev ∈ s1 ++ s2 -> submits ev = Some tx -> False).
  { intros [Hin | Hin]%elem_of_app Hsub; [by apply Hno1 |].
    rewrite Forall_forall in Hs2. specialize (Hs2 _ Hin). by destruct ev. }
  destruct r2 as [[p2|]|e]; [| by intros Hin Hsub; destruct (Hno2 Hin Hsub) ..].
  destruct (Hp2 p2 eq_refl) as (a2 & Ha2 & Hout2).
  set (log1 := ELog (LogOptimizedAlts _ _)).
  destruct (env_getLatestBlockhash env (h ++ s1 ++ s2 ++ [log1])) as [[bh lv]|e].
  2:{ cbn [snd]. intros Hin Hsub. rewrite app_assoc in Hin.
      apply elem_of_app in Hin as [Hin | Hin]; [destruct (Hno2 Hin Hsub) |].
      in_cases Hin; subst; discriminate. }
  cbn [fst snd]. set (log2 := ELog (LogCreating _)).
  destruct (createOptimizedTransaction lib (instructions p1 ++ instructions p2)
              (optimizeAlts lib (lookupTables p1) (lookupTables p2)) bh)
    as [atomicTx|] eqn:Hcreate.
  2:{ cbn [snd]. intros Hin Hsub. rewrite app_assoc in Hin.
      apply elem_of_app in Hin as [Hin | Hin]; [destruct (Hno2 Hin Hsub) |].
      in_cases Hin; subst; discriminate. }
  pose proof (signAndSend_submits atomicTx bh lv
                (h ++ s1 ++ s2 ++ [log1; EGetLatestBlockhash (Ok (bh, lv))] ++ [log2])
                ev tx) as Hsigned.
  destruct (signAndSend lib env atomicTx bh lv _) as [r ses]. cbn [snd] in *.
  intros Hin Hsub. rewrite app_assoc in Hin.
  apply elem_of_app in Hin as [Hin | Hin]; [destruct (Hno2 Hin Hsub) |].
  apply elem_of_app in Hin as [Hin | Hin]; [in_cases Hin; subst; discriminate |].
  apply elem_of_app in Hin as [Hin | Hin]; [in_cases Hin; subst; discriminate |].
  specialize (Hsigned Hin Hsub).
  apply list_elem_of_split in Hin as (before & post & ->).
  exists (s1 ++ s2 ++ [log1; EGetLatestBlockhash (Ok (bh, lv))] ++ [log2] ++ before), post.
  split; [by rewrite <- !app_assoc |].
  exists a1, a2, p1, p2, bh, lv, atomicTx. split_and!; try done.
  - apply elem_of_app. by left.
  - apply elem_of_app. right. apply elem_of_app. by left.
  - apply elem_of_app. right. apply elem_of_app. right. right. left.
Qed.

End Provenance.

(** X4: whatever a cycle simulates or broadcasts is the transaction it
    built in that cycle.  Before the event, the pricing service returned
    the buy quote and, for its output amount, the sell quote; the
    instruction service answered for both quotes; the blockhash was
    fetched; and the transaction submitted is the wallet's signature of
    what the Transaction Assembler made of the buy instruction followed by
    the sell instruction, the optimized tables of the two answers and that
    blockhash. *)
Theorem checkAndTrade_submits_what_it_built (cfg : Config) (lib : Web3) (env : Env)
    (h : list Event) (ev : Event) (tx : VersionedTransaction) :
  ev ∈ (checkAndTrade cfg lib env h).2 ->
  submits ev = Some tx ->
  exists pre post quoteBuy quoteSell,
    (checkAndTrade cfg lib env h).2 = pre ++ ev :: post
    /\ EQuote USDC_MINT WSOL_MINT (AInt (INPUT_USDC cfg)) (Ok (Some quoteBuy)) ∈ pre
    /\ EQuote WSOL_MINT USDC_MINT (outAmount quoteBuy) (Ok (Some quoteSell)) ∈ pre
    /\ built_from lib quoteBuy quoteSell pre tx.
Proof.
  rewrite checkAndTrade_run. cbn zeta.
  match goal with
  | |- context [getQuote env USDC_MINT WSOL_MINT ?amt MAX_RETRIES ?h'] =>
      pose proof (getQuote_emits env USDC_MINT WSOL_MINT amt MAX_RETRIES h') as Hq1;
      pose proof (getQuote_returned env USDC_MINT WSOL_MINT amt MAX_RETRIES h') as Hret1;
      destruct (getQuote env USDC_MINT WSOL_MINT amt MAX_RETRIES h') as [r1 q1]
  end.
  cbn [fst snd] in *.
  assert (Hno1 : ev ∈ q1 -> submits ev = Some tx -> False).
  { intros Hin Hsub. rewrite Forall_forall in Hq1. specialize (Hq1 _ Hin).
    by destruct ev. }
  assert (Hfailed : forall e qs,
            (ev ∈ qs -> submits ev = Some tx -> False) ->
            ev ∈ (let (r, line) := caught LogErrorCheckAndTrade e in
                  (r, ELog LogChecking :: qs ++ line)).2 ->
            submits ev = Some tx ->
            exists pre post quoteBuy quoteSell,
              (let (r, line) := caught LogErrorCheckAndTrade e in
               (r, ELog LogChecking :: qs ++ line)).2 = pre ++ ev :: post
              /\ EQuote USDC_MINT WSOL_MINT (AInt (INPUT_USDC cfg)) (Ok (Some quoteBuy))
                   ∈ pre
              /\ EQuote WSOL_MINT USDC_MINT (outAmount quoteBuy) (Ok (Some quoteSell))
                   ∈ pre
              /\ built_from lib quoteBuy quoteSell pre tx).
  { intros e qs Hqs. unfold caught. destruct (message e); cbn [snd];
      intros Hin Hsub; exfalso; in_cases Hin; subst; try discriminate; by apply Hqs. }
  destruct r1 as [[quoteBuy|]|e];
    [| by apply Hfailed ..].
  specialize (Hret1 quoteBuy eq_refl).
  match goal with
  | |- context [getQuote env WSOL_MINT USDC_MINT ?amt MAX_RETRIES ?h'] =>
      pose proof (getQuote_emits env WSOL_MINT USDC_MINT amt MAX_RETRIES h') as Hq2;
      pose proof (getQuote_returned env WSOL_MINT USDC_MINT amt MAX_RETRIES h') as Hret2;
      destruct (getQuote env WSOL_MINT USDC_MINT amt MAX_RETRIES h') as [r2 q2]
  end.
  cbn [fst snd] in *.
  assert (Hno2 : ev ∈ q1 ++ q2 -> submits ev = Some tx -> False).
  { intros [Hin | Hin]%elem_of_app Hsub; [by apply Hno1 |].
    rewrite Forall_forall in Hq2. specialize (Hq2 _ Hin). by destruct ev. }
  destruct r2 as [[quoteSell|]|e];
    [| by apply Hfailed ..].
  specialize (Hret2 quoteSell eq_refl).
  destruct (BigInt (outAmount quoteSell)) as [sellOut|e];
    [| by apply Hfailed].
  destruct (sellOut <? INPUT_USDC cfg + MIN_PROFIT_USDC cfg).
  { cbn [snd]. intros Hin Hsub. rewrite app_assoc in Hin.
    in_cases Hin; subst; try discriminate; by destruct Hno2; [apply elem_of_app; auto |]. }
  set (found := [ELog _; ENotify _]).
  match goal with
  | |- context [buildAndSubmit lib env quoteBuy quoteSell ?h'] =>
      pose proof (buildAndSubmit_submits lib env quoteBuy quoteSell h' ev tx) as Hbuilt;
      destruct (buildAndSubmit lib env quoteBuy quoteSell h') as [r bs]
  end.
  cbn [snd] in Hbuilt.
  assert (Hin_bs : forall tail,
            (forall ev', ev' ∈ tail -> submits ev' = None) ->
            ev ∈ ELog LogChecking :: q1 ++ q2 ++ found ++ bs ++ tail ->
            submits ev = Some tx ->
            exists pre post quoteBuy' quoteSell',
              ELog LogChecking :: q1 ++ q2 ++ found ++ bs ++ tail = pre ++ ev :: post
              /\ EQuote USDC_MINT WSOL_MINT (AInt (INPUT_USDC cfg)) (Ok (Some quoteBuy'))
                   ∈ pre
              /\ EQuote WSOL_MINT USDC_MINT (outAmount quoteBuy') (Ok (Some quoteSell'))
                   ∈ pre
              /\ built_from lib quoteBuy' quoteSell' pre tx).
  { intros tail Htail Hin Hsub.
    assert (Hbs : ev ∈ bs).
    { apply elem_of_cons in Hin as [-> | Hin]; [discriminate |].
      apply elem_of_app in Hin as [Hin | Hin]; [by destruct Hno1 |].
      apply elem_of_app in Hin as [Hin | Hin];
        [by destruct Hno2; [apply elem_of_app; right |] |].
      apply elem_of_app in Hin as [Hin | Hin]; [in_cases Hin; subst; discriminate |].
      apply elem_of_app in Hin as [Hin | Hin]; [done |].
      rewrite (Htail _ Hin) in Hsub. discriminate. }
    destruct (Hbuilt Hbs Hsub) as (pre & post & -> & Hfrom).
    exists (ELog LogChecking :: q1 ++ q2 ++ found ++ pre), (post ++ tail),
      quoteBuy, quoteSell.
    split_and!.
    - cbn [app]. by rewrite <- !app_assoc.
    - right. apply elem_of_app. by left.
    - right. apply elem_of_app. right. apply elem_of_app. by left.
    - eapply built_from_mono; [| exact Hfrom]. intros ev' Hev'.
      right. apply elem_of_app. right. apply elem_of_app. right.
      apply elem_of_app. by right. }
  destruct r as [b|e]; cbn [snd].
  - intros Hin Hsub. rewrite <- (app_nil_r bs).
    apply Hin_bs; [by intros ev' ?%elem_of_nil | by rewrite app_nil_r | done].
  - unfold caught. destruct (message e); cbn [snd]; intros Hin Hsub;
      rewrite <- !app_assoc in *; apply Hin_bs; try done.
    + by intros ev' ->%list_elem_of_singleton.
    + by intros ev' ?%elem_of_nil.
Qed.

(** On the profitable round of the shipped configuration the cycle
    simulates [Sample.signed], which it built. *)
Lemma checkAndTrade_submits_witness :
  ESimulate Sample.signed (Ok None)
    ∈ (checkAndTrade source_config Sample.lib (Sample.env 10001300) []).2
  /\ exists pre post quoteBuy quoteSell,
       (checkAndTrade source_config Sample.lib (Sample.env 10001300) []).2
       = pre ++ ESimulate Sample.signed (Ok None) :: post
       /\ EQuote USDC_MINT WSOL_MINT (AInt 10000000) (Ok (Some quoteBuy)) ∈ pre
       /\ EQuote WSOL_MINT USDC_MINT (outAmount quoteBuy) (Ok (Some quoteSell)) ∈ pre
       /\ built_from Sample.lib quoteBuy quoteSell pre Sample.signed.
Proof.
  assert (Hsimulated :
    ESimulate Sample.signed (Ok None)
      ∈ (checkAndTrade source_config Sample.lib (Sample.env 10001300) []).2).
  { vm_compute. do 10 right. left. }
  split; [exact Hsimulated |].
  exact (checkAndTrade_submits_what_it_built source_config Sample.lib
           (Sample.env 10001300) [] _ _ Hsimulated eq_refl).
Defined.

(** ** The cycle: the notification *)

Lemma omap_all_None {A B} (f : A -> option B) (P : A -> Prop) (l : list A) :
  (forall x, P x -> f x = None) -> Forall P l -> omap f l = [].
Proof.
  intros Hf. induction 1 as [|x l Hx _ IH]; [done |].
  cbn. by rewrite (Hf _ Hx).
Qed.

Lemma quote_event_quoting retries inputMint outputMint amount es :
  Forall (quote_event retries inputMint outputMint amount) es ->
  Forall quoting_event es.
Proof. intros Hes. eapply Forall_impl; [exact Hes |]. by intros []. Qed.

Lemma quoting_no_notification es : Forall quoting_event es -> notifications es = [].
Proof. apply omap_all_None. by intros []. Qed.

Lemma build_no_notification es : Forall build_event es -> notifications es = [].
Proof. apply omap_all_None. by intros []. Qed.

(** X5: a cycle notifies at most once.  Without a notification the cycle
    called nothing but the pricing service.  With one, the notification
    comes right after the profit line; before it there are only console
    lines, quote calls and sleeps, among them the sell quote whose output
    is at least input plus threshold; the object sent holds the net profit
    of that quote as the code computes it, in binary64 (the difference of
    the output and the input read as numbers, divided by 1e6); and after
    it the cycle asks for no quote and notifies no more. *)
Theorem checkAndTrade_notifies_once (cfg : Config) (lib : Web3) (env : Env)
    (h : list Event) :
  let es := (checkAndTrade cfg lib env h).2 in
  match notifications es with
  | [] => Forall quoting_event es
  | [o] =>
      exists pre post amount quoteSell sellOut,
        let net := net cfg sellOut in
        es = pre ++ ELog (LogProfitDetected net) :: ENotify o :: post
        /\ o = opportunity cfg net
        /\ Forall quoting_event pre
        /\ EQuote WSOL_MINT USDC_MINT amount (Ok (Some quoteSell)) ∈ pre
        /\ outAmount quoteSell = AInt sellOut
        /\ INPUT_USDC cfg + MIN_PROFIT_USDC cfg <= sellOut
        /\ Forall build_event post
  | _ :: _ :: _ => False
  end.
Proof.
  cbn zeta. rewrite checkAndTrade_run. cbn zeta.
  match goal with
  | |- context [getQuote env USDC_MINT WSOL_MINT ?amt MAX_RETRIES ?h'] =>
      pose proof (getQuote_emits env USDC_MINT WSOL_MINT amt MAX_RETRIES h') as Hq1;
      destruct (getQuote env USDC_MINT WSOL_MINT amt MAX_RETRIES h') as [r1 q1]
  end.
  cbn [snd] in Hq1. apply quote_event_quoting in Hq1.
  assert (Hquoting : forall qs tail,
            Forall quoting_event qs -> Forall quoting_event tail ->
            match notifications (ELog LogChecking :: qs ++ tail) return Prop with
            | [] => Forall quoting_event (ELog LogChecking :: qs ++ tail)
            | _ => False
            end).
  { intros qs tail Hqs Htail.
    assert (Hall : Forall quoting_event (ELog LogChecking :: qs ++ tail)).
    { constructor; [done |]. by apply Forall_app. }
    by rewrite (quoting_no_notification _ Hall). }
  assert (Hfailed : forall e qs,
            Forall quoting_event qs ->
            let es := (let (r, line) := caught LogErrorCheckAndTrade e in
                       (r, ELog LogChecking :: qs ++ line)).2 in
            match notifications es return Prop with
            | [] => Forall quoting_event es
            | [o] =>
                exists pre post amount quoteSell sellOut,
                  let net := net cfg sellOut in
                  es = pre ++ ELog (LogProfitDetected net) :: ENotify o :: post
                  /\ o = opportunity cfg net
                  /\ Forall quoting_event pre
                  /\ EQuote WSOL_MINT USDC_MINT amount (Ok (Some quoteSell)) ∈ pre
                  /\ outAmount quoteSell = AInt sellOut
                  /\ INPUT_USDC cfg + MIN_PROFIT_USDC cfg <= sellOut
                  /\ Forall build_event post
            | _ :: _ :: _ => False
            end).
  { intros e qs Hqs. unfold caught. destruct (message e); cbn [snd] in *; cbn zeta.
    - specialize (Hquoting qs [ELog (LogErrorCheckAndTrade a)] Hqs).
      destruct (notifications _); [| by destruct Hquoting; repeat constructor].
      apply Hquoting. by repeat constructor.
    - specialize (Hquoting qs [] Hqs).
      destruct (notifications _); [| by destruct Hquoting; repeat constructor].
      apply Hquoting. by repeat constructor. }
  destruct r1 as [[quoteBuy|]|e]; [| by apply Hfailed ..].
  match goal with
  | |- context [getQuote env WSOL_MINT USDC_MINT ?amt MAX_RETRIES ?h'] =>
      pose proof (getQuote_emits env WSOL_MINT USDC_MINT amt MAX_RETRIES h') as Hq2;
      pose proof (getQuote_returned env WSOL_MINT USDC_MINT amt MAX_RETRIES h') as Hret2;
      destruct (getQuote env WSOL_MINT USDC_MINT amt MAX_RETRIES h') as [r2 q2]
  end.
  cbn [fst snd] in Hq2, Hret2. apply quote_event_quoting in Hq2.
  assert (Hq12 : Forall quoting_event (q1 ++ q2)) by by apply Forall_app.
  destruct r2 as [[quoteSell|]|e]; [| by apply Hfailed ..].
  specialize (Hret2 quoteSell eq_refl).
  destruct (outAmount quoteSell) as [sellOut|other] eqn:Hout; cbn [BigInt];
    [| by apply Hfailed].
  destruct (Z.ltb_spec sellOut (INPUT_USDC cfg + MIN_PROFIT_USDC cfg)) as [Hlt|Hge].
  { cbn [snd]. rewrite app_assoc.
    specialize (Hquoting (q1 ++ q2)
                  [ELog (LogNoOpportunity (net cfg sellOut))] Hq12).
    destruct (notifications _); [| by destruct Hquoting; repeat constructor].
    apply Hquoting. by repeat constructor. }
  match goal with
  | |- context [buildAndSubmit lib env quoteBuy quoteSell ?h'] =>
      pose proof (buildAndSubmit_emits lib env quoteBuy quoteSell h') as Hbs;
      destruct (buildAndSubmit lib env quoteBuy quoteSell h') as [r bs]
  end.
  cbn [snd] in Hbs.
  set (profit := net cfg sellOut).
  assert (Hfound : forall tail,
            Forall build_event tail ->
            match notifications
                    (ELog LogChecking :: q1 ++ q2
                       ++ [ELog (LogProfitDetected profit); ENotify (opportunity cfg profit)]
                       ++ bs ++ tail) return Prop with
            | [o] =>
                exists pre post amount quoteSell' sellOut',
                  let net' := net cfg sellOut' in
                  ELog LogChecking :: q1 ++ q2
                    ++ [ELog (LogProfitDetected profit); ENotify (opportunity cfg profit)]
                    ++ bs ++ tail
                  = pre ++ ELog (LogProfitDetected net') :: ENotify o :: post
                  /\ o = opportunity cfg net'
                  /\ Forall quoting_event pre
                  /\ EQuote WSOL_MINT USDC_MINT amount (Ok (Some quoteSell')) ∈ pre
                  /\ outAmount quoteSell' = AInt sellOut'
                  /\ INPUT_USDC cfg + MIN_PROFIT_USDC cfg <= sellOut'
                  /\ Forall build_event post
            | _ => False
            end).
  { intros tail Htail.
    assert (Hpost : Forall build_event (bs ++ tail)) by by apply Forall_app.
    assert (Hcount : notifications
                       (ELog LogChecking :: q1 ++ q2
                          ++ [ELog (LogProfitDetected profit); ENotify (opportunity cfg profit)]
                          ++ bs ++ tail)
                     = [opportunity cfg profit]).
    { unfold notifications. cbn [omap list_omap]. rewrite !omap_app.
      fold (notifications q1) (notifications q2) (notifications bs) (notifications tail).
      rewrite (quoting_no_notification q1), (quoting_no_notification q2),
        (build_no_notification bs), (build_no_notification tail); done. }
    rewrite Hcount.
    exists (ELog LogChecking :: q1 ++ q2), (bs ++ tail), (outAmount quoteBuy),
      quoteSell, sellOut.
    cbn zeta. split_and!; try done.
    - cbn [app]. by rewrite <- !app_assoc.
    - by constructor.
    - right. apply elem_of_app. by right. }
  destruct r as [b|e]; cbn [snd].
  - specialize (Hfound [] (Forall_nil_2 _)). rewrite app_nil_r in Hfound.
    destruct (notifications _) as [|o [|]]; done.
  - unfold caught. destruct (message e) as [m|type_error]; cbn [snd].
    + assert (Hlog : Forall build_event [ELog (LogErrorCheckAndTrade m)])
        by by repeat constructor.
      specialize (Hfound _ Hlog). rewrite <- !app_assoc.
      destruct (notifications _) as [|o [|]]; done.
    + specialize (Hfound [] (Forall_nil_2 _)). rewrite <- !app_assoc.
      destruct (notifications _) as [|o [|]]; done.
Qed.

(** Past 2^53 the profit the code reports is that of binary64: for a
    sell quote of 9007199254740993 units the number read is
    9007199254740992. *)
Example net_beyond_2_53 :
  net source_config 9007199254740993 = 9007199244.740992%float
  /\ Number 9007199254740993 = 9007199254740992%float.
Proof. split; vm_compute; reflexivity. Qed.

(** ** The cycle: how many calls it makes *)

Lemma total_app l1 l2 : total (l1 ++ l2) = total l1 + total l2.
Proof. unfold total. induction l1 as [|x l1 IH]; cbn; [done | rewrite IH; lia]. Qed.

Lemma within_app a b c d ms a' b' c' d' ms' es es' :
  within a b c d ms es -> within a' b' c' d' ms' es' ->
  within (a + a') (b + b') (c + c') (d + d') (ms + ms') (es ++ es').
Proof.
  intros (Hq & Hs & Hsim & Hsend & Hms) (Hq' & Hs' & Hsim' & Hsend' & Hms').
  unfold within, quote_answers, swap_answers, simulations, broadcasts, sleeps in *.
  rewrite !omap_app, !length_app, total_app. lia.
Qed.

Lemma within_mono a b c d ms a' b' c' d' ms' es :
  within a b c d ms es ->
  (a <= a')%nat -> (b <= b')%nat -> (c <= c')%nat -> (d <= d')%nat -> ms <= ms' ->
  within a' b' c' d' ms' es.
Proof. unfold within. intros (? & ? & ? & ? & ?) ? ? ? ? ?. lia. Qed.

Lemma within_free es : Forall free_event es -> within 0 0 0 0 0 es.
Proof.
  intros Hes. unfold within, quote_answers, swap_answers, simulations, broadcasts, sleeps.
  rewrite !(omap_all_None _ free_event es); try done; by intros [].
Qed.

(** One kind of event in a trace of attempts that each hold at most one. *)
Lemma length_omap_retry_trace {A B} (f : Event -> option B) (ev : A -> list Event)
    (attempts : list A) (i : nat) :
  (forall ms, f (ESleep ms) = None) ->
  (forall a, (length (omap f (ev a)) <= 1)%nat) ->
  (length (omap f (retry_trace ev attempts i)) <= length attempts)%nat.
Proof.
  intros Hsleep Hone. rewrite omap_retry_trace by done.
  induction attempts as [|a attempts IH]; [done |].
  rewrite bind_cons, length_app. cbn [length]. specialize (Hone a). lia.
Qed.

(** Three attempts sleep 1000 and 2000 ms at most. *)
Lemma total_sleeps_retry_trace {A} (ev : A -> list Event) (attempts : list A) :
  (forall a, sleeps (ev a) = []) ->
  (length attempts <= MAX_RETRIES)%nat ->
  0 <= total (sleeps (retry_trace ev attempts 0)) <= 3000.
Proof.
  intros Hev Hlen. rewrite sleeps_retry_trace by done.
  destruct attempts as [|a1 [|a2 [|a3 [|a4 attempts]]]]; cbn in Hlen |- *;
    unfold MAX_RETRIES in Hlen; lia.
Qed.

(** A kind of event that the events of a trace, all of them [P], exclude. *)
Ltac none_of Hes :=
  erewrite omap_all_None; [| | exact Hes]; [| by intros []].

Section Budget.
Context (cfg : Config) (lib : Web3) (env : Env).

Lemma getQuote_within inputMint outputMint amount h :
  within 3 0 0 0 3000 (getQuote env inputMint outputMint amount MAX_RETRIES h).2.
Proof.
  pose proof (getQuote_loop_policy env inputMint outputMint amount MAX_RETRIES
                MAX_RETRIES 0 h eq_refl) as Hpolicy.
  pose proof (getQuote_emits env inputMint outputMint amount MAX_RETRIES h) as Hes.
  unfold getQuote in *.
  destruct (getQuote_loop env inputMint outputMint amount MAX_RETRIES 0 MAX_RETRIES h)
    as [result es].
  cbn zeta in Hpolicy. cbn [snd] in *. destruct Hpolicy as (Htrace & Hresult).
  assert (Hlen : (length (quote_answers es) <= MAX_RETRIES)%nat).
  { destruct result as [[q|]|e].
    - by destruct Hresult as (failures & r & _ & _ & _ & Hlen).
    - destruct Hresult as [_ ->]. cbn. lia.
    - by destruct Hresult as (failures & r & error & _ & _ & _ & _ & Hlen). }
  unfold within. split_and!.
  - exact Hlen.
  - unfold swap_answers. by none_of Hes.
  - unfold simulations. by none_of Hes.
  - unfold broadcasts. by none_of Hes.
  - rewrite Htrace. by apply total_sleeps_retry_trace.
Qed.

Lemma getSwapPayload_within quote h :
  within 0 3 0 0 3000 (getSwapPayload lib env quote MAX_RETRIES h).2.
Proof.
  pose proof (getSwapPayload_loop_policy lib env quote MAX_RETRIES
                MAX_RETRIES 0 h eq_refl) as Hpolicy.
  pose proof (getSwapPayload_emits lib env quote MAX_RETRIES h) as Hes.
  unfold getSwapPayload in *.
  destruct (getSwapPayload_loop lib env quote MAX_RETRIES 0 MAX_RETRIES h)
    as [result es].
  cbn zeta in Hpolicy. cbn [snd] in *. destruct Hpolicy as (Htrace & Hresult).
  assert (Hlen : (length (swap_answers es) <= MAX_RETRIES)%nat).
  { destruct result as [[payload|]|e].
    - by destruct Hresult as (failures & r & _ & _ & _ & Hlen).
    - destruct Hresult as [_ ->]. cbn. lia.
    - by destruct Hresult as (failures & r & error & _ & _ & _ & _ & Hlen). }
  unfold within. split_and!.
  - unfold quote_answers. by none_of Hes.
  - exact Hlen.
  - unfold simulations. by none_of Hes.
  - unfold broadcasts. by none_of Hes.
  - rewrite Htrace. apply total_sleeps_retry_trace; [| done].
    intros r. unfold swap_attempt, sleeps. cbn [omap list_omap].
    rewrite list_fmap_compose. by apply omap_logs.
Qed.

Lemma sendTransactionWithSimulation_within tx h :
  within 0 0 3 3 3000 (sendTransactionWithSimulation env tx MAX_RETRIES h).2.
Proof.
  pose proof (sendTransactionWithSimulation_loop_policy env tx MAX_RETRIES
                MAX_RETRIES 0 h eq_refl) as Hpolicy.
  pose proof (sendTransactionWithSimulation_emits env tx MAX_RETRIES h) as Hes.
  unfold sendTransactionWithSimulation in *.
  destruct (sendTransactionWithSimulation_loop env tx MAX_RETRIES 0 MAX_RETRIES h)
    as [result es].
  cbn [snd] in *. destruct Hpolicy as (attempts & Htrace & Hresult).
  assert (Hlen : (length attempts <= MAX_RETRIES)%nat).
  { destruct result as [[txid|]|e].
    - by destruct Hresult as (failures & _ & _ & Hlen).
    - destruct Hresult as [_ ->]. cbn. lia.
    - by destruct Hresult as (failures & a & error & _ & _ & _ & _ & Hlen). }
  unfold within. split_and!.
  - unfold quote_answers. by none_of Hes.
  - unfold swap_answers. by none_of Hes.
  - etrans; [| exact Hlen]. rewrite Htrace.
    apply length_omap_retry_trace; [done |]. by intros [].
  - etrans; [| exact Hlen]. rewrite Htrace.
    apply length_omap_retry_trace; [done |]. intros []; cbn; lia.
  - rewrite Htrace. apply total_sleeps_retry_trace; [| done]. by intros [].
Qed.

Lemma signAndSend_within atomicTx blockhash lastValidBlockHeight h :
  within 0 0 3 3 3000 (signAndSend lib env atomicTx blockhash lastValidBlockHeight h).2.
Proof.
  rewrite signAndSend_run.
  destruct (tx_sign lib atomicTx [wallet lib]) as [signed|e];
    [| eapply within_mono; [by apply (within_free []) | lia ..]].
  pose proof (sendTransactionWithSimulation_within signed h) as Hses.
  destruct (sendTransactionWithSimulation env signed MAX_RETRIES h) as [sent ses].
  cbn [snd] in Hses. cbn zeta.
  assert (Htail : forall tail,
            Forall free_event tail -> within 0 0 3 3 3000 (ses ++ tail)).
  { intros tail Htail.
    eapply within_mono; [exact (within_app _ _ _ _ _ _ _ _ _ _ _ _ Hses (within_free _ Htail))
                        | lia ..]. }
  unfold confirm_outcome, caught.
  destruct sent as [txid|e];
    [destruct (env_confirmTransaction env (h ++ ses) txid blockhash lastValidBlockHeight)
       as [[]|e]; [| destruct (message e)]
    | destruct (message e)];
    cbn [snd]; apply Htail; by repeat constructor.
Qed.

Lemma buildAndSubmit_within quoteBuy quoteSell h :
  within 0 6 3 3 9000 (buildAndSubmit lib env quoteBuy quoteSell h).2.
Proof.
  rewrite buildAndSubmit_run. cbn zeta.
  pose proof (getSwapPayload_within quoteBuy h) as Hs1.
  destruct (getSwapPayload lib env quoteBuy MAX_RETRIES h) as [r1 s1].
  cbn [snd] in Hs1.
  assert (H1 : within 0 6 3 3 9000 s1) by (eapply within_mono; [exact Hs1 | lia ..]).
  destruct r1 as [[p1|]|e]; [| done ..].
  pose proof (getSwapPayload_within quoteSell (h ++ s1)) as Hs2.
  destruct (getSwapPayload lib env quoteSell MAX_RETRIES (h ++ s1)) as [r2 s2].
  cbn [snd] in Hs2.
  pose proof (within_app _ _ _ _ _ _ _ _ _ _ _ _ Hs1 Hs2) as Hs12.
  assert (Hfree : forall tail,
            Forall free_event tail -> within 0 6 3 3 9000 (s1 ++ s2 ++ tail)).
  { intros tail Htail. rewrite app_assoc.
    eapply within_mono; [exact (within_app _ _ _ _ _ _ _ _ _ _ _ _ Hs12 (within_free _ Htail))
                        | cbn; lia ..]. }
  assert (H12 : within 0 6 3 3 9000 (s1 ++ s2)).
  { rewrite <- (app_nil_r s2). by apply Hfree. }
  destruct r2 as [[p2|]|e]; [| done ..].
  set (log1 := ELog (LogOptimizedAlts _ _)).
  destruct (env_getLatestBlockhash env (h ++ s1 ++ s2 ++ [log1])) as [[bh lv]|e];
    [| cbn [snd]; apply Hfree; by repeat constructor].
  cbn [fst snd]. set (log2 := ELog (LogCreating _)).
  destruct (createOptimizedTransaction lib _ _ bh) as [atomicTx|];
    [| cbn [snd]; apply Hfree; by repeat constructor].
  match goal with
  | |- context [signAndSend lib env atomicTx bh lv ?h'] =>
      pose proof (signAndSend_within atomicTx bh lv h') as Hses;
      destruct (signAndSend lib env atomicTx bh lv h') as [r ses]
  end.
  cbn [snd] in *.
  assert (Hasked : within 0 0 0 0 0 ([log1; EGetLatestBlockhash (Ok (bh, lv))] ++ [log2])).
  { apply within_free. by repeat constructor. }
  rewrite (app_assoc s1), (app_assoc [log1; _]), (app_assoc (s1 ++ s2)).
  eapply within_mono;
    [exact (within_app _ _ _ _ _ _ _ _ _ _ _ _
              (within_app _ _ _ _ _ _ _ _ _ _ _ _ Hs12 Hasked) Hses)
    | cbn; lia ..].
Qed.

End Budget.

(** X6: the calls of a cycle are bounded.  Whatever the services answer,
    a cycle asks for at most 6 quotes (two calls of at most three
    attempts), calls the instruction service at most 6 times, simulates at
    most 3 times, broadcasts at most 3 times, and sleeps at most 15000 ms
    in all. *)
Theorem checkAndTrade_call_budget (cfg : Config) (lib : Web3) (env : Env)
    (h : list Event) :
  let es := (checkAndTrade cfg lib env h).2 in
  (length (quote_answers es) <= 6)%nat
  /\ (length (swap_answers es) <= 6)%nat
  /\ (length (simulations es) <= 3)%nat
  /\ (length (broadcasts es) <= 3)%nat
  /\ total (sleeps es) <= 15000.
Proof.
  change (within 6 6 3 3 15000 (checkAndTrade cfg lib env h).2).
  rewrite checkAndTrade_run. cbn zeta.
  match goal with
  | |- context [getQuote env USDC_MINT WSOL_MINT ?amt MAX_RETRIES ?h'] =>
      pose proof (getQuote_within env USDC_MINT WSOL_MINT amt h') as Hq1;
      destruct (getQuote env USDC_MINT WSOL_MINT amt MAX_RETRIES h') as [r1 q1]
  end.
  cbn [snd] in Hq1.
  assert (Hfree : forall a b c d ms qs tail,
            within a b c d ms qs -> Forall free_event tail ->
            (a <= 6)%nat -> (b <= 6)%nat -> (c <= 3)%nat -> (d <= 3)%nat -> ms <= 15000 ->
            within 6 6 3 3 15000 (ELog LogChecking :: qs ++ tail)).
  { intros a b c d ms qs tail Hqs Htail Ha Hb Hc Hd Hms.
    change (within 6 6 3 3 15000 ([ELog LogChecking] ++ qs ++ tail)).
    assert (Hchecking : within 0 0 0 0 0 [ELog LogChecking])
      by (apply within_free; by repeat constructor).
    eapply within_mono;
      [exact (within_app _ _ _ _ _ _ _ _ _ _ _ _ Hchecking
                (within_app _ _ _ _ _ _ _ _ _ _ _ _ Hqs (within_free _ Htail)))
      | cbn; lia ..]. }
  assert (Hfailed : forall a b c d ms e qs,
            within a b c d ms qs ->
            (a <= 6)%nat -> (b <= 6)%nat -> (c <= 3)%nat -> (d <= 3)%nat -> ms <= 15000 ->
            within 6 6 3 3 15000
              (let (r, line) := caught LogErrorCheckAndTrade e in
               (r, ELog LogChecking :: qs ++ line)).2).
  { intros a b c d ms e qs Hqs Ha Hb Hc Hd Hms. unfold caught.
    destruct (message e); cbn [snd];
      (eapply Hfree; [exact Hqs | by repeat constructor | lia ..]). }
  destruct r1 as [[quoteBuy|]|e]; [| eapply Hfailed; [exact Hq1 | lia ..] ..].
  match goal with
  | |- context [getQuote env WSOL_MINT USDC_MINT ?amt MAX_RETRIES ?h'] =>
      pose proof (getQuote_within env WSOL_MINT USDC_MINT amt h') as Hq2;
      destruct (getQuote env WSOL_MINT USDC_MINT amt MAX_RETRIES h') as [r2 q2]
  end.
  cbn [snd] in Hq2.
  pose proof (within_app _ _ _ _ _ _ _ _ _ _ _ _ Hq1 Hq2) as Hq12.
  destruct r2 as [[quoteSell|]|e];
    [| eapply Hfailed; [exact Hq12 | cbn; lia ..] ..].
  destruct (BigInt (outAmount quoteSell)) as [sellOut|e];
    [| eapply Hfailed; [exact Hq12 | cbn; lia ..]].
  destruct (sellOut <? INPUT_USDC cfg + MIN_PROFIT_USDC cfg); cbn [snd].
  { rewrite app_assoc.
    eapply Hfree; [exact Hq12 | by repeat constructor | cbn; lia ..]. }
  set (found := [ELog _; ENotify _]).
  match goal with
  | |- context [buildAndSubmit lib env quoteBuy quoteSell ?h'] =>
      pose proof (buildAndSubmit_within lib env quoteBuy quoteSell h') as Hbs;
      destruct (buildAndSubmit lib env quoteBuy quoteSell h') as [r bs]
  end.
  cbn [snd] in Hbs.
  assert (Hfound : within 0 0 0 0 0 found) by (apply within_free; by repeat constructor).
  pose proof (within_app _ _ _ _ _ _ _ _ _ _ _ _ Hq12
                (within_app _ _ _ _ _ _ _ _ _ _ _ _ Hfound Hbs)) as Hall.
  rewrite <- app_assoc in Hall.
  destruct r as [b|e]; cbn [snd].
  - rewrite <- (app_nil_r (q1 ++ q2 ++ found ++ bs)).
    eapply Hfree; [exact Hall | constructor | cbn; lia ..].
  - eapply Hfailed; [exact Hall | cbn; lia ..].
Qed.

(** ** The main loop: the counter *)

Lemma cooldowns_app es1 es2 : cooldowns (es1 ++ es2) = cooldowns es1 ++ cooldowns es2.
Proof. unfold cooldowns. by rewrite sleeps_app, filter_app. Qed.

Lemma cooldowns_none es : (ESleep 30000 ∉ es) -> cooldowns es = [].
Proof.
  induction es as [|ev es IH]; [done |]. intros Hnot.
  apply not_elem_of_cons in Hnot as [Hev Hes]. specialize (IH Hes).
  unfold cooldowns, sleeps in *. destruct ev; cbn [omap list_omap]; try exact IH.
  rewrite filter_cons_False; [exact IH | congruence].
Qed.

Lemma pauses_app es1 es2 : pauses (es1 ++ es2) = pauses es1 ++ pauses es2.
Proof. unfold pauses. by rewrite sleeps_app, filter_app. Qed.

Lemma confirmed_app es1 es2 : confirmed (es1 ++ es2) <-> confirmed es1 \/ confirmed es2.
Proof.
  split.
  - intros (s & bh & lv & [Hin | Hin]%elem_of_app); [left | right]; by exists s, bh, lv.
  - intros [(s & bh & lv & Hin) | (s & bh & lv & Hin)]; exists s, bh, lv;
      apply elem_of_app; auto.
Qed.

Section Counter.
Context (cfg : Config) (lib : Web3) (env : Env).

(** A cycle returns [true] exactly when its trace holds a confirmation
    that succeeded, and holds none when it throws. *)
Lemma checkAndTrade_confirmed h :
  let '(r, es) := checkAndTrade cfg lib env h in r = Ok true <-> confirmed es.
Proof.
  pose proof (checkAndTrade_submitted cfg lib env h) as Hsub.
  destruct (checkAndTrade cfg lib env h) as [r es].
  destruct Hsub as [[Hes Hr] | (pre & tx & txid & bh & lv & answer & -> & Hpre & _ & ->)].
  - split; [done |].
    intros (signature & bh & lv & Hin).
    rewrite Forall_forall in Hes. by destruct (Hes _ Hin).
  - split.
    + intros Hok. destruct answer as [[]|e]; [| done].
      exists (Some txid), bh, lv. apply elem_of_app. right. right. left.
    + intros (signature & bh' & lv' & Hin).
      apply elem_of_app in Hin as [Hin | Hin].
      { rewrite Forall_forall in Hpre. by destruct (Hpre _ Hin). }
      apply elem_of_cons in Hin as [? | Hin]; [done |].
      apply elem_of_cons in Hin as [[= _ _ _ <-] | Hin]; [done |].
      apply elem_of_cons in Hin as [? | Hin]; [done | by apply elem_of_nil in Hin].
Qed.

(** No sleep of a cycle is one of 5000 ms or of 30000 ms. *)
Lemma checkAndTrade_pauses h :
  pauses (checkAndTrade cfg lib env h).2 = []
  /\ cooldowns (checkAndTrade cfg lib env h).2 = [].
Proof.
  pose proof (checkAndTrade_emits cfg lib env h) as Hes.
  induction Hes as [|ev es Hev _ [IHp IHc]]; [done |].
  unfold pauses, cooldowns, sleeps in *.
  destruct ev; cbn [omap list_omap]; try done.
  destruct Hev as (k & Hk & ->). unfold MAX_RETRIES in Hk.
  rewrite !filter_cons_False; [done | lia | lia].
Qed.

(** A turn of the loop around [checkAndTrade]: it returns, sleeps 5000 ms
    once, and resets the counter exactly when the cycle confirmed or the
    turn slept the cooldown; otherwise it counts one more. *)
Lemma loop_turn_checkAndTrade consecutiveErrors h :
  exists c es,
    loop_turn (checkAndTrade cfg lib env) consecutiveErrors h = (Ok c, es)
    /\ length (pauses es) = 1%nat
    /\ ((c = 0 /\ (confirmed es \/ cooldowns es <> []))
        \/ (c = consecutiveErrors + 1 /\ ~ confirmed es /\ cooldowns es = [])).
Proof.
  pose proof (checkAndTrade_confirmed h) as Hconfirmed.
  destruct (checkAndTrade_pauses h) as [Hpauses Hcooldowns].
  destruct (checkAndTrade_returns cfg lib env h)
    as [(success & es & Hcycle) | (type_error & es & Hcycle)];
    rewrite Hcycle in *; cbn [snd] in *.
  - rewrite (loop_turn_returns _ _ _ _ _ Hcycle). eexists _, _. split; [done |].
    assert (Hturn : confirmed (es ++ [ESleep 5000]) <-> success = true).
    { rewrite confirmed_app, <- Hconfirmed. split; [| intros ->; by left].
      intros [[= ->] | (s & bh & lv & Hin)]; [done | by in_cases Hin]. }
    rewrite pauses_app, cooldowns_app, length_app, Hpauses, Hcooldowns.
    replace (pauses [ESleep 5000]) with [5000] by (by vm_compute).
    replace (cooldowns [ESleep 5000]) with (@nil Z) by (by vm_compute).
    split; [done |]. destruct success.
    + left. split; [done |]. left. by apply Hturn.
    + right. split_and!; [done | | done]. by intros ?%Hturn.
  - rewrite (loop_turn_throws _ _ _ _ _ Hcycle). cbn zeta.
    assert (Hno : forall tail,
              Forall no_confirm tail -> ~ confirmed (es ++ tail)).
    { intros tail Htail. rewrite confirmed_app, <- Hconfirmed.
      intros [[=] | (s & bh & lv & Hin)].
      rewrite Forall_forall in Htail. by destruct (Htail _ Hin). }
    unfold maxConsecutiveErrors.
    destruct (Z.leb_spec 5 (consecutiveErrors + 1)) as [Hfull | Hroom];
      eexists _, _; (split; [done |]);
      rewrite pauses_app, cooldowns_app, length_app, Hpauses, Hcooldowns.
    + replace (pauses [ELog (LogErrorMainLoop (consecutiveErrors + 1) type_error);
                       ELog LogTooManyErrors; ESleep 30000; ESleep 5000])
        with [5000] by (by vm_compute).
      replace (cooldowns [ELog (LogErrorMainLoop (consecutiveErrors + 1) type_error);
                          ELog LogTooManyErrors; ESleep 30000; ESleep 5000])
        with [30000] by (by vm_compute).
      split; [done |]. left. split; [done |]. by right.
    + replace (pauses [ELog (LogErrorMainLoop (consecutiveErrors + 1) type_error);
                       ESleep 5000])
        with [5000] by (by vm_compute).
      replace (cooldowns [ELog (LogErrorMainLoop (consecutiveErrors + 1) type_error);
                          ESleep 5000])
        with (@nil Z) by (by vm_compute).
      split; [done |]. right. split_and!; [done | | done].
      apply Hno. by repeat constructor.
Qed.

Lemma main_loop_with_counter turns consecutiveErrors h :
  0 <= consecutiveErrors ->
  exists c es,
    main_loop_with (checkAndTrade cfg lib env) turns consecutiveErrors h = (Ok c, es)
    /\ length (pauses es) = turns
    /\ 0 <= c
    /\ ((c = consecutiveErrors + Z.of_nat turns /\ ~ confirmed es /\ cooldowns es = [])
        \/ (c < Z.of_nat turns /\ (confirmed es \/ cooldowns es <> []))).
Proof.
  revert consecutiveErrors h. induction turns as [|turns IH]; intros c0 h Hc0;
    cbn [main_loop_with].
  { exists c0, []. split_and!; [done | done | lia |]. left.
    split_and!; [lia | | done]. by intros (s & bh & lv & ?%elem_of_nil). }
  destruct (loop_turn_checkAndTrade c0 h) as (c1 & es & Hturn & Hlen1 & Hc1).
  rewrite bind_run, Hturn.
  assert (Hpos : 0 <= c1) by (destruct Hc1 as [[-> _] | [-> _]]; lia).
  destruct (IH c1 (h ++ es) Hpos) as (c & es' & -> & Hlen & Hbound & Hc).
  exists c, (es ++ es'). split; [done |].
  rewrite pauses_app, cooldowns_app, length_app, confirmed_app.
  split_and!; [lia | lia |].
  assert (Hcool : forall l1 l2 : list Z, l1 <> [] \/ l2 <> [] -> l1 ++ l2 <> []).
  { intros l1 l2 Hne [-> ->]%app_eq_nil. by destruct Hne. }
  destruct Hc1 as [[-> Hreset] | (-> & Hno & Hnone)].
  - right. split.
    + destruct Hc as [(-> & _) | [Hlt _]]; lia.
    + destruct Hreset as [? | ?]; [left; by left | right; apply Hcool; by left].
  - destruct Hc as [(-> & Hno' & Hnone') | [Hlt Hreset]].
    + left. split_and!; [lia | tauto | by rewrite Hnone, Hnone'].
    + right. split; [lia |].
      destruct Hreset as [? | ?]; [left; by right | right; apply Hcool; by right].
Qed.

End Counter.

(** X7: the counter of the main loop.  Over any number of turns around
    [checkAndTrade] the loop itself never throws and sleeps 5000 ms
    exactly once per turn; its counter of consecutive errors lies between
    0 and the number of turns, and equals the number of turns exactly when
    no confirmation succeeded and no cooldown was slept: cycles that
    return [false] take it up one by one, with no bound, and only a cycle
    that rejects, counted in the [catch], can bring the cooldown and the
    reset. *)
Theorem main_loop_counter (cfg : Config) (lib : Web3) (env : Env) (turns : nat)
    (h : list Event) :
  exists c es,
    main_loop cfg lib env turns h = (Ok c, es)
    /\ length (pauses es) = turns
    /\ 0 <= c <= Z.of_nat turns
    /\ (c = Z.of_nat turns <-> ~ confirmed es /\ cooldowns es = []).
Proof.
  unfold main_loop.
  destruct (main_loop_with_counter cfg lib env turns 0 h)
    as (c & es & Hrun & Hlen & Hbound & Hc); [done |].
  exists c, es. split; [done |]. split; [done |].
  destruct Hc as [(-> & Hno & Hnone) | [Hlt Hreset]].
  - split; [lia |]. split; [done | lia].
  - split; [lia |]. split; [lia |].
    intros [Hno Hnone]. destruct Hreset as [? | Hcool]; [done | by rewrite Hnone in Hcool].
Qed.

(** Five cycles in a row that reject (the request of the blockhash is
    rejected with [undefined]): the fifth brings the cooldown, and the
    counter is back at 0. *)
Example five_rejected_cycles_cooldown :
  (main_loop source_config Sample.lib Sample.blockhash_rejected 5 []).1 = Ok 0
  /\ cooldowns (main_loop source_config Sample.lib Sample.blockhash_rejected 5 []).2
     = [30000].
Proof. split; vm_compute; reflexivity. Qed.

(** ** The cycle: what is assembled *)

(** [Forall] over a trace written out with [::] and [++]. *)
Ltac all_events :=
  repeat first
    [ done
    | apply Forall_nil_2
    | apply Forall_app; split
    | apply Forall_cons_2; [done |] ].

Section Assembly.
Context (cfg : Config) (lib : Web3) (env : Env).

Lemma selectLookupTables_length res :
  (length (selectLookupTables lib res).1 <= 2)%nat.
Proof.
  unfold selectLookupTables.
  rewrite collectLookupTables_short by (cbn [length]; rewrite length_take; lia).
  cbn [app fst]. unfold pushed. etrans; [apply omap_length_le |].
  rewrite length_fmap, length_take. unfold maxAlts. lia.
Qed.

(** A payload is one instruction and at most two tables. *)
Lemma swap_outcome_shape r payload :
  swap_outcome lib r = Ok payload ->
  length (instructions payload) = 1%nat /\ (length (lookupTables payload) <= 2)%nat.
Proof.
  destruct r as [res|e]; [| done]. cbn [swap_outcome].
  destruct (swapInstruction res) as [si|]; [| done].
  destruct (buildInstruction lib si) as [ix|e]; [| done].
  intros [= <-]. split; [done |]. apply selectLookupTables_length.
Qed.

Lemma collectAltSizes_length allAlts seen :
  (length (collectAltSizes lib allAlts seen []) <= length allAlts)%nat.
Proof.
  revert seen. induction allAlts as [|tbl rest IH]; intros seen;
    cbn [collectAltSizes length]; [done |].
  destruct (decide (alt_key tbl ∈ seen)); [specialize (IH seen); lia |].
  destruct (ALT_serialize lib tbl) as [serialized|e].
  - rewrite collectAltSizes_acc, length_app. cbn [app length].
    specialize (IH (seen ∪ {[alt_key tbl]})). lia.
  - specialize (IH (seen ∪ {[alt_key tbl]})). lia.
Qed.

Lemma optimizeAlts_length alts1 alts2 :
  (length (optimizeAlts lib alts1 alts2) <= 2)%nat
  /\ (length (optimizeAlts lib alts1 alts2) <= length (alts1 ++ alts2))%nat.
Proof.
  unfold optimizeAlts. rewrite length_fmap, length_take.
  rewrite (Permutation_length (sortBySize_perm _)).
  pose proof (collectAltSizes_length (alts1 ++ alts2) ∅). lia.
Qed.

Lemma signAndSend_assembling atomicTx blockhash lastValidBlockHeight h :
  Forall assembling_event
    (signAndSend lib env atomicTx blockhash lastValidBlockHeight h).2.
Proof.
  rewrite signAndSend_run.
  destruct (tx_sign lib atomicTx [wallet lib]) as [signed|e]; [| constructor].
  pose proof (sendTransactionWithSimulation_emits env signed MAX_RETRIES h) as Hses.
  destruct (sendTransactionWithSimulation env signed MAX_RETRIES h) as [sent ses].
  cbn [snd] in Hses. cbn zeta.
  assert (Hses' : Forall assembling_event ses).
  { eapply Forall_impl; [exact Hses | by intros []]. }
  unfold confirm_outcome, caught.
  destruct sent as [txid|e];
    [destruct (env_confirmTransaction env (h ++ ses) txid blockhash lastValidBlockHeight)
       as [[]|e]; [| destruct (message e)]
    | destruct (message e)];
    cbn [snd]; all_events.
Qed.

Lemma buildAndSubmit_assembling quoteBuy quoteSell h :
  Forall assembling_event (buildAndSubmit lib env quoteBuy quoteSell h).2.
Proof.
  rewrite buildAndSubmit_run. cbn zeta.
  pose proof (getSwapPayload_emits lib env quoteBuy MAX_RETRIES h) as Hs1.
  pose proof (getSwapPayload_returned lib env quoteBuy MAX_RETRIES h) as Hp1.
  destruct (getSwapPayload lib env quoteBuy MAX_RETRIES h) as [r1 s1].
  cbn [fst snd] in Hs1, Hp1.
  assert (H1 : Forall assembling_event s1).
  { eapply Forall_impl; [exact Hs1 | by intros [| | | | | | | |[]]]. }
  destruct r1 as [[p1|]|e]; [| done ..].
  destruct (Hp1 p1 eq_refl) as (a1 & _ & [Hix1 Halts1]%swap_outcome_shape).
  pose proof (getSwapPayload_emits lib env quoteSell MAX_RETRIES (h ++ s1)) as Hs2.
  pose proof (getSwapPayload_returned lib env quoteSell MAX_RETRIES (h ++ s1)) as Hp2.
  destruct (getSwapPayload lib env quoteSell MAX_RETRIES (h ++ s1)) as [r2 s2].
  cbn [fst snd] in Hs2, Hp2.
  assert (H2 : Forall assembling_event s2).
  { eapply Forall_impl; [exact Hs2 | by intros [| | | | | | | |[]]]. }
  destruct r2 as [[p2|]|e]; [| all_events ..].
  destruct (Hp2 p2 eq_refl) as (a2 & _ & [Hix2 Halts2]%swap_outcome_shape).
  pose proof (optimizeAlts_length (lookupTables p1) (lookupTables p2)) as [Hkept Hfound].
  assert (Hlog1 : assembling_event
            (ELog (LogOptimizedAlts
                     (length (optimizeAlts lib (lookupTables p1) (lookupTables p2)))
                     (length (lookupTables p1 ++ lookupTables p2))))).
  { cbn. split_and!; [done | done |]. rewrite length_app. lia. }
  assert (Hlog2 : assembling_event
            (ELog (LogCreating (length (instructions p1 ++ instructions p2))))).
  { cbn. rewrite length_app. lia. }
  destruct (env_getLatestBlockhash env _) as [[bh lv]|e];
    [| cbn [snd]; all_events].
  cbn [fst snd].
  destruct (createOptimizedTransaction lib _ _ bh) as [atomicTx|];
    [| cbn [snd]; all_events].
  match goal with
  | |- context [signAndSend lib env atomicTx bh lv ?h'] =>
      pose proof (signAndSend_assembling atomicTx bh lv h') as Hses;
      destruct (signAndSend lib env atomicTx bh lv h') as [r ses]
  end.
  cbn [snd] in *. all_events.
Qed.

End Assembly.

(** X8: what a cycle assembles is always two instructions, the buy and
    the sell instruction, and at most two of at most four lookup tables:
    the line written before the assembly reports 2 instructions, and the
    line of the optimizer reports a number of tables kept that is at most
    2 and at most the number found, itself at most 4. *)
Theorem checkAndTrade_assembles_two_instructions (cfg : Config) (lib : Web3)
    (env : Env) (h : list Event) :
  Forall assembling_event (checkAndTrade cfg lib env h).2.
Proof.
  rewrite checkAndTrade_run. cbn zeta.
  match goal with
  | |- context [getQuote env USDC_MINT WSOL_MINT ?amt MAX_RETRIES ?h'] =>
      pose proof (getQuote_emits env USDC_MINT WSOL_MINT amt MAX_RETRIES h') as Hq1;
      destruct (getQuote env USDC_MINT WSOL_MINT amt MAX_RETRIES h') as [r1 q1]
  end.
  cbn [snd] in Hq1.
  assert (H1 : Forall assembling_event q1).
  { eapply Forall_impl; [exact Hq1 | by intros []]. }
  assert (Hfailed : forall e qs,
            Forall assembling_event qs ->
            Forall assembling_event
              (let (r, line) := caught LogErrorCheckAndTrade e in
               (r, ELog LogChecking :: qs ++ line)).2).
  { intros e qs Hqs. unfold caught. destruct (message e); cbn [snd]; all_events. }
  destruct r1 as [[quoteBuy|]|e]; [| by apply Hfailed ..].
  match goal with
  | |- context [getQuote env WSOL_MINT USDC_MINT ?amt MAX_RETRIES ?h'] =>
      pose proof (getQuote_emits env WSOL_MINT USDC_MINT amt MAX_RETRIES h') as Hq2;
      destruct (getQuote env WSOL_MINT USDC_MINT amt MAX_RETRIES h') as [r2 q2]
  end.
  cbn [snd] in Hq2.
  assert (H2 : Forall assembling_event q2).
  { eapply Forall_impl; [exact Hq2 | by intros []]. }
  assert (H12 : Forall assembling_event (q1 ++ q2)) by by apply Forall_app.
  destruct r2 as [[quoteSell|]|e]; [| by apply Hfailed ..].
  destruct (BigInt (outAmount quoteSell)) as [sellOut|e]; [| by apply Hfailed].
  destruct (sellOut <? INPUT_USDC cfg + MIN_PROFIT_USDC cfg); cbn [snd].
  { all_events. }
  match goal with
  | |- context [buildAndSubmit lib env quoteBuy quoteSell ?h'] =>
      pose proof (buildAndSubmit_assembling lib env quoteBuy quoteSell h') as Hbs;
      destruct (buildAndSubmit lib env quoteBuy quoteSell h') as [r bs]
  end.
  cbn [snd] in Hbs.
  destruct r as [b|e].
  - cbn [snd]. all_events.
  - apply Hfailed. all_events.
Qed.

(** ** The cycle: when no transaction can be made *)

(** None of the events of a trace, all of one kind, is a submission. *)
Ltac no_submission Hes :=
  eapply Forall_impl; [exact Hes |];
  let ev := fresh "ev" in
  intros ev ? ?; destruct ev; cbn in *; done.

Section NotCreated.
Context (cfg : Config) (lib : Web3) (env : Env).

Local Abbreviation not_created := (ELog LogCouldNotCreate).

Lemma signAndSend_created atomicTx blockhash lastValidBlockHeight h :
  not_created ∉ (signAndSend lib env atomicTx blockhash lastValidBlockHeight h).2.
Proof.
  rewrite signAndSend_run.
  destruct (tx_sign lib atomicTx [wallet lib]) as [signed|e];
    [| by intros ?%elem_of_nil].
  pose proof (sendTransactionWithSimulation_emits env signed MAX_RETRIES h) as Hses.
  destruct (sendTransactionWithSimulation env signed MAX_RETRIES h) as [sent ses].
  cbn [snd] in Hses. cbn zeta.
  unfold confirm_outcome, caught.
  destruct sent as [txid|e];
    [destruct (env_confirmTransaction env (h ++ ses) txid blockhash lastValidBlockHeight)
       as [[]|e]; [| destruct (message e)]
    | destruct (message e)];
    cbn [snd]; intros Hin; in_cases Hin; try discriminate; by known_event Hin.
Qed.

Lemma buildAndSubmit_not_created quoteBuy quoteSell h :
  not_created ∈ (buildAndSubmit lib env quoteBuy quoteSell h).2 ->
  (buildAndSubmit lib env quoteBuy quoteSell h).1 = Ok false
  /\ exists pre,
       (buildAndSubmit lib env quoteBuy quoteSell h).2 = pre ++ [not_created]
       /\ Forall (λ ev, ~ submission_event ev) pre.
Proof.
  rewrite buildAndSubmit_run. cbn zeta.
  pose proof (getSwapPayload_emits lib env quoteBuy MAX_RETRIES h) as Hs1.
  destruct (getSwapPayload lib env quoteBuy MAX_RETRIES h) as [r1 s1].
  cbn [snd] in Hs1.
  destruct r1 as [[p1|]|e]; cbn [fst snd]; [| by intros Hin; known_event Hin ..].
  pose proof (getSwapPayload_emits lib env quoteSell MAX_RETRIES (h ++ s1)) as Hs2.
  destruct (getSwapPayload lib env quoteSell MAX_RETRIES (h ++ s1)) as [r2 s2].
  cbn [snd] in Hs2.
  destruct r2 as [[p2|]|e]; cbn [fst snd];
    [| by intros Hin; in_cases Hin; known_event Hin ..].
  set (log1 := ELog (LogOptimizedAlts _ _)).
  destruct (env_getLatestBlockhash env (h ++ s1 ++ s2 ++ [log1])) as [[bh lv]|e];
    [| cbn [snd]; intros Hin; in_cases Hin; try discriminate; by known_event Hin].
  cbn [fst snd]. set (log2 := ELog (LogCreating _)).
  destruct (createOptimizedTransaction lib _ _ bh) as [atomicTx|].
  - match goal with
    | |- context [signAndSend lib env atomicTx bh lv ?h'] =>
        pose proof (signAndSend_created atomicTx bh lv h') as Hses;
        destruct (signAndSend lib env atomicTx bh lv h') as [r ses]
    end.
    cbn [fst snd] in *. intros Hin. in_cases Hin; try discriminate; try done;
      by known_event Hin.
  - cbn [fst snd]. intros _. split; [done |].
    exists (s1 ++ s2 ++ [log1; EGetLatestBlockhash (Ok (bh, lv))] ++ [log2]).
    split; [by rewrite <- !app_assoc |].
    rewrite !Forall_app. split_and!.
    + no_submission Hs1.
    + no_submission Hs2.
    + repeat constructor; by intros [].
    + repeat constructor; by intros [].
Qed.

End NotCreated.

(** X9: when the Transaction Assembler yields no transaction, nothing is
    handed to the network.  A cycle that writes the line saying so returns
    [false], the line is its last event, and nothing before it is a
    simulation, a broadcast or a confirmation. *)
Theorem checkAndTrade_not_created_submits_nothing (cfg : Config) (lib : Web3)
    (env : Env) (h : list Event) :
  ELog LogCouldNotCreate ∈ (checkAndTrade cfg lib env h).2 ->
  (checkAndTrade cfg lib env h).1 = Ok false
  /\ last (checkAndTrade cfg lib env h).2 = Some (ELog LogCouldNotCreate)
  /\ Forall (λ ev, ~ submission_event ev) (checkAndTrade cfg lib env h).2.
Proof.
  rewrite checkAndTrade_run. cbn zeta.
  match goal with
  | |- context [getQuote env USDC_MINT WSOL_MINT ?amt MAX_RETRIES ?h'] =>
      pose proof (getQuote_emits env USDC_MINT WSOL_MINT amt MAX_RETRIES h') as Hq1;
      destruct (getQuote env USDC_MINT WSOL_MINT amt MAX_RETRIES h') as [r1 q1]
  end.
  cbn [snd] in Hq1.
  assert (Hno1 : ELog LogCouldNotCreate ∉ q1).
  { intros Hin. by known_event Hin. }
  assert (Hfailed : forall e qs P,
            (ELog LogCouldNotCreate ∉ qs) ->
            ELog LogCouldNotCreate
              ∈ (let (r, line) := caught LogErrorCheckAndTrade e in
                 (r, ELog LogChecking :: qs ++ line)).2 -> P).
  { intros e qs P Hqs. unfold caught. destruct (message e); cbn [snd];
      intros Hin; exfalso; in_cases Hin; try discriminate; by apply Hqs. }
  destruct r1 as [[quoteBuy|]|e]; [| by apply Hfailed ..].
  match goal with
  | |- context [getQuote env WSOL_MINT USDC_MINT ?amt MAX_RETRIES ?h'] =>
      pose proof (getQuote_emits env WSOL_MINT USDC_MINT amt MAX_RETRIES h') as Hq2;
      destruct (getQuote env WSOL_MINT USDC_MINT amt MAX_RETRIES h') as [r2 q2]
  end.
  cbn [snd] in Hq2.
  assert (Hno12 : ELog LogCouldNotCreate ∉ q1 ++ q2).
  { intros Hin. in_cases Hin; by known_event Hin. }
  destruct r2 as [[quoteSell|]|e]; [| by apply Hfailed ..].
  destruct (BigInt (outAmount quoteSell)) as [sellOut|e]; [| by apply Hfailed].
  destruct (sellOut <? INPUT_USDC cfg + MIN_PROFIT_USDC cfg); cbn [fst snd].
  { by intros Hin; in_cases Hin; try discriminate; known_event Hin. }
  match goal with
  | |- context [buildAndSubmit lib env quoteBuy quoteSell ?h'] =>
      pose proof (buildAndSubmit_not_created lib env quoteBuy quoteSell h') as Hbs;
      destruct (buildAndSubmit lib env quoteBuy quoteSell h') as [r bs]
  end.
  cbn [fst snd] in Hbs.
  assert (Hin_bs : forall tail,
            (ELog LogCouldNotCreate ∉ tail) ->
            ELog LogCouldNotCreate
              ∈ ELog LogChecking :: q1 ++ q2
                  ++ [ELog (LogProfitDetected (net cfg sellOut));
                      ENotify (opportunity cfg (net cfg sellOut))]
                  ++ bs ++ tail ->
            ELog LogCouldNotCreate ∈ bs).
  { intros tail Htail Hin. in_cases Hin; try discriminate; try done;
      by known_event Hin. }
  destruct r as [b|e]; cbn [fst snd].
  - intros Hin. rewrite <- (app_nil_r bs) in Hin.
    apply Hin_bs in Hin; [| by intros ?%elem_of_nil].
    destruct (Hbs Hin) as ([= ->] & pre & -> & Hpre). split_and!; [done | |].
    + by rewrite !app_comm_cons, !app_assoc, last_snoc.
    + constructor; [by intros [] |]. rewrite !Forall_app. split_and!.
      * no_submission Hq1.
      * no_submission Hq2.
      * repeat constructor; by intros [].
      * done.
      * repeat constructor; by intros [].
  - unfold caught. destruct (message e); cbn [fst snd]; intros Hin;
      rewrite <- !app_assoc in Hin.
    + apply Hin_bs in Hin; [| by intros [=]%list_elem_of_singleton].
      by destruct (Hbs Hin) as ([=] & _).
    + apply Hin_bs in Hin; [| by intros ?%elem_of_nil].
      by destruct (Hbs Hin) as ([=] & _).
Qed.

(** With instructions of 700 bytes each no transaction fits: the cycle
    ends on the line and submits nothing. *)
Lemma checkAndTrade_not_created_witness :
  (checkAndTrade source_config Sample.lib Sample.oversized []).1 = Ok false
  /\ last (checkAndTrade source_config Sample.lib Sample.oversized []).2
     = Some (ELog LogCouldNotCreate)
  /\ Forall (λ ev, ~ submission_event ev)
       (checkAndTrade source_config Sample.lib Sample.oversized []).2.
Proof.
  apply (checkAndTrade_not_created_submits_nothing source_config Sample.lib
           Sample.oversized []).
  vm_compute. do 10 right. left.
Defined.

(** ** The main loop: the breaker on thrown failures *)

Lemma main_loop_with_throwing (cycle : M bool) (turns : nat) (consecutiveErrors : Z)
    (h : list Event) :
  (forall h', exists e es, cycle h' = (Throw (ErrorObject e), es) /\ (ESleep 30000 ∉ es)) ->
  0 <= consecutiveErrors < maxConsecutiveErrors ->
  exists c es,
    main_loop_with cycle turns consecutiveErrors h = (Ok c, es)
    /\ c = (consecutiveErrors + Z.of_nat turns) mod 5
    /\ Z.of_nat (length (cooldowns es)) = (consecutiveErrors + Z.of_nat turns) / 5.
Proof.
  intros Hcycle. revert consecutiveErrors h.
  induction turns as [|turns IH]; intros c0 h Hc0; unfold maxConsecutiveErrors in Hc0;
    cbn [main_loop_with].
  { exists c0, []. split; [done |]. rewrite Z.add_0_r.
    rewrite Z.mod_small, Z.div_small by lia. done. }
  destruct (Hcycle h) as (e & es & Hrun & Hes).
  rewrite bind_run, (loop_turn_throws _ _ _ _ _ Hrun). cbn zeta.
  unfold maxConsecutiveErrors.
  destruct (Z.leb_spec 5 (c0 + 1)) as [Hfull | Hroom].
  - assert (c0 = 4) as -> by lia.
    destruct (IH 0 (h ++ es ++ [ELog (LogErrorMainLoop (4 + 1) e); ELog LogTooManyErrors;
                                 ESleep 30000; ESleep 5000]))
      as (c & es' & -> & Hc & Hcool); [unfold maxConsecutiveErrors; lia |].
    rewrite Z.add_0_l in Hc, Hcool.
    eexists _, _. split; [done |].
    rewrite !cooldowns_app, !length_app, (cooldowns_none es Hes).
    replace (cooldowns [ELog (LogErrorMainLoop (4 + 1) e); ELog LogTooManyErrors;
                        ESleep 30000; ESleep 5000]) with [30000] by (by vm_compute).
    cbn [length]. split.
    + rewrite Hc. replace (4 + Z.of_nat (S turns)) with (Z.of_nat turns + 1 * 5) by lia.
      by rewrite Z.mod_add by lia.
    + replace (4 + Z.of_nat (S turns)) with (Z.of_nat turns + 1 * 5) by lia.
      rewrite Z.div_add by lia. lia.
  - destruct (IH (c0 + 1) (h ++ es ++ [ELog (LogErrorMainLoop (c0 + 1) e); ESleep 5000]))
      as (c & es' & -> & Hc & Hcool); [unfold maxConsecutiveErrors; lia |].
    eexists _, _. split; [done |].
    rewrite !cooldowns_app, !length_app, (cooldowns_none es Hes).
    replace (cooldowns [ELog (LogErrorMainLoop (c0 + 1) e); ESleep 5000]) with (@nil Z)
      by (by vm_compute).
    cbn [length]. split.
    + rewrite Hc. f_equal. lia.
    + replace (c0 + Z.of_nat (S turns)) with (c0 + 1 + Z.of_nat turns) by lia.
      rewrite <- Hcool. lia.
Qed.

(** X10: the breaker as the [catch] of the main loop has it.  Around a
    cycle function that throws an error at every call, the loop itself
    never throws; after [turns] turns its counter is [turns] modulo 5, and it
    has slept the 30000 ms of the cooldown once for every five turns: the
    fifth thrown failure in a row brings the cooldown and the reset. *)
Theorem main_loop_breaker (cycle : M bool) (turns : nat) (h : list Event) :
  (forall h', exists e es, cycle h' = (Throw (ErrorObject e), es) /\ (ESleep 30000 ∉ es)) ->
  exists c es,
    main_loop_with cycle turns 0 h = (Ok c, es)
    /\ c = Z.of_nat turns mod 5
    /\ Z.of_nat (length (cooldowns es)) = Z.of_nat turns / 5.
Proof.
  intros Hcycle.
  destruct (main_loop_with_throwing cycle turns 0 h Hcycle)
    as (c & es & Hrun & Hc & Hcool); [unfold maxConsecutiveErrors; lia |].
  exists c, es. by rewrite Z.add_0_l in Hc, Hcool.
Qed.

(** Seven turns around a cycle function that throws: one cooldown, and
    the counter at 2. *)
Lemma main_loop_breaker_witness :
  exists c es,
    main_loop_with (throw (ErrorObject "boom")) 7 0 [] = (Ok c, es)
    /\ c = 7 mod 5
    /\ Z.of_nat (length (cooldowns es)) = 7 / 5.
Proof.
  apply (main_loop_breaker (throw (ErrorObject "boom")) 7 []).
  intros h'. exists "boom", []. split; [reflexivity |]. by intros ?%elem_of_nil.
Defined.



(** ** The cycle: how it ends *)

(** X13: how a cycle ends.  Every call recorded in the trace of
    [checkAndTrade] carries what the service answers at its point of the
    history.  The cycle returns [true] exactly when its trace ends with a
    broadcast that succeeded, the confirmation of the signature of that
    broadcast, against the blockhash and the last valid block height
    fetched before in the cycle, that succeeded too, and the line of
    success.  When it returns, its last event is a line of the console.
    It rejects in one case only: the request of the blockhash, then its
    last event, was rejected with [null] or [undefined], and what it
    throws is the [TypeError] of reading the message of that value.  So
    it returns a boolean exactly when no request of the blockhash in its
    trace was rejected with [null] or [undefined]. *)
Theorem checkAndTrade_outcome (cfg : Config) (lib : Web3) (env : Env)
    (h : list Event) :
  let '(r, es) := checkAndTrade cfg lib env h in
  answered env h es
  /\ (r = Ok true <->
      exists pre tx txid blockhash lastValidBlockHeight,
        es = pre ++ [ ESend tx (Ok txid);
                      EConfirm (Some txid) blockhash lastValidBlockHeight (Ok ());
                      ELog LogConfirmed ]
        /\ Forall no_confirm pre
        /\ EGetLatestBlockhash (Ok (blockhash, lastValidBlockHeight)) ∈ pre)
  /\ match r with
     | Ok _ => exists line, last es = Some (ELog line)
     | Throw e =>
         exists error type_error,
           last es = Some (EGetLatestBlockhash (Throw error))
           /\ message error = Throw type_error
           /\ e = ErrorObject type_error
     end
  /\ ((exists success, r = Ok success) <->
      forall error,
        EGetLatestBlockhash (Throw error) ∈ es -> exists m, error = ErrorObject m).
Proof.
  pose proof (checkAndTrade_answers cfg lib env h) as Hanswered.
  pose proof (checkAndTrade_submitted cfg lib env h) as Hsub.
  pose proof (checkAndTrade_ends cfg lib env h) as Hends.
  pose proof (λ error type_error,
              checkAndTrade_blockhash_rejected cfg lib env h error type_error)
    as Hrejected.
  destruct (checkAndTrade cfg lib env h) as [r es]. cbn [snd] in Hanswered.
  split_and!; [done | | done |].
  - destruct Hsub
      as [[Hes Hr] | (pre & tx & txid & bh & lv & answer & -> & Hpre & Hbh & ->)].
    + split; [done |]. intros (pre & tx & txid & bh & lv & -> & _).
      apply Forall_app in Hes as [_ Hes].
      apply Forall_cons in Hes as [_ [[] _]%Forall_cons].
    + split.
      * intros [= Hok]. destruct answer as [[]|e]; [| done].
        by exists pre, tx, txid, bh, lv.
      * intros (pre' & tx' & txid' & bh' & lv' & Heq & _).
        apply app_inj_2 in Heq as [_ Heq]; [| done].
        assert (answer = Ok ()) as -> by congruence. done.
  - split.
    + intros [success ->] error Hin.
      destruct (message error) as [m|type_error] eqn:Hmessage.
      * exists m. by apply message_Ok.
      * by destruct (Hrejected error type_error Hmessage Hin) as [[=] _].
    + intros Hreadable. destruct r as [success|e]; [by eexists |].
      destruct Hends as (error & type_error & Hlast & Hmessage & _).
      apply last_Some in Hlast as [es' ->].
      destruct (Hreadable error) as [m ->]; [| done].
      apply elem_of_app. right. left.
Qed.

(** * wrapper.js *)


